(** * A shallow embedding of [vector.c]: the growable array of opaque handles

    The C translation unit keeps a heap record [struct vector] with three
    fields ([elems], [capacity], [size]) and mutates it in place.  Here the
    record is the state threaded through a small monad; every C function of
    [vector.c] becomes a computation in that monad, statement by statement.

    What the model fixes about the C platform:
    - [int] is 32 bits, two's complement; signed overflow is undefined
      behaviour and is an explicit outcome ([Undefined]);
    - [size_t] is 64 bits (LP64); conversions to it and its arithmetic wrap
      modulo [2^64];
    - [assert] is enabled (no [NDEBUG]): a failed assertion is an explicit
      outcome ([AssertionFailed]);
    - [malloc] and [realloc] succeed; fresh slots hold indeterminate
      contents, modelled as the slot value [None];
    - a [void **] pointing into the backing store is its offset from
      [v->elems], counted in elements;
    - object pointers have 8 bytes and [int] has 4, so that [struct vector]
      has 16; a store to a member outside the block allocated for the record
      is undefined behaviour.  *)

From Stdlib Require Import ZArith Lia Ascii.
From stdpp Require Import base tactics option list strings.

Local Open Scope Z_scope.

(** ** Machine integers *)

Module CInt.

Definition INT_MAX : Z := 2147483647.
Definition INT_MIN : Z := -2147483648.

(** The modulus of [size_t] arithmetic. *)
Definition SIZE_MOD : Z := 2 ^ 64.

(** [sizeof (void * )], the size of every object pointer. *)
Definition PTR_SIZE : Z := 8.

(** [sizeof (int)]. *)
Definition INT_SIZE : Z := 4.

(** Is [z] representable as an [int]? *)
Definition in_int (z : Z) : bool := (INT_MIN <=? z) && (z <=? INT_MAX).

(** The conversion [(size_t) z] of a signed value. *)
Definition to_size_t (z : Z) : Z := z mod SIZE_MOD.

(** Multiplication at type [size_t]. *)
Definition size_t_mul (a b : Z) : Z := (a * b) mod SIZE_MOD.

End CInt.

Import CInt.

(** ** The layout of [struct vector]

    [struct vector { void **elems; int capacity; int size; }], the members in
    declaration order and without padding between them. *)

Inductive member : Type :=
| member_elems
| member_capacity
| member_size.

Definition member_offset (m : member) : Z :=
  match m with
  | member_elems => 0
  | member_capacity => PTR_SIZE
  | member_size => PTR_SIZE + INT_SIZE
  end.

Definition member_bytes (m : member) : Z :=
  match m with
  | member_elems => PTR_SIZE
  | member_capacity | member_size => INT_SIZE
  end.

(** [sizeof (struct vector)]. *)
Definition sizeof_struct_vector : Z := PTR_SIZE + INT_SIZE + INT_SIZE.

(** [sizeof (vector)]: [vector.h] declares [typedef struct vector *vector],
    so this is the size of a pointer. *)
Definition sizeof_vector : Z := PTR_SIZE.

(** Does member [m] lie inside a block of [bytes] bytes? *)
Definition in_block (bytes : Z) (m : member) : bool :=
  member_offset m + member_bytes m <=? bytes.

(** ** Accesses to element slots

    Each read or write of a slot of the backing store is recorded, in program
    order, so that statements such as "the assertion fails before any slot is
    touched" can be expressed. *)

Inductive access : Type :=
| Read (j : Z)
| Write (j : Z).

Section Vector.

(** What a handle ([void *]) refers to is opaque to the container. *)
Context {A : Type}.

(** A slot of the backing store: [None] is indeterminate (never written since
    it was allocated), [Some a] holds the handle [a]. *)
Abbreviation slot := (option A).

(** [struct vector]. *)
Record vector : Type := Vector {
  elems : list slot;
  capacity : Z;
  size : Z
}.

(** ** Outcomes and the monad of vector computations *)

Inductive outcome (R : Type) : Type :=
| Returns (r : R) (v : vector) (log : list access)
| AssertionFailed (log : list access)
| Undefined.

Global Arguments Returns {R} r v log.
Global Arguments AssertionFailed {R} log.
Global Arguments Undefined {R}.

Definition M (R : Type) : Type := vector -> list access -> outcome R.

Global Instance M_ret : MRet M := fun R (r : R) v log => Returns r v log.

Global Instance M_bind : MBind M := fun R S (k : R -> M S) (m : M R) v log =>
  match m v log with
  | Returns r v' log' => k r v' log'
  | AssertionFailed log' => AssertionFailed log'
  | Undefined => Undefined
  end.

(** Run a computation on the record [v], starting from an empty access log. *)
Definition run {R : Type} (m : M R) (v : vector) : outcome R := m v [].

(** *** Fields of the record *)

Definition load_size : M Z := fun v log => Returns (size v) v log.

Definition load_capacity : M Z := fun v log => Returns (capacity v) v log.

Definition store_size (n : Z) : M unit := fun v log =>
  Returns tt (Vector (elems v) (capacity v) n) log.

Definition store_capacity (n : Z) : M unit := fun v log =>
  Returns tt (Vector (elems v) n (size v)) log.

(** *** Control *)

Definition undefined {R : Type} : M R := fun _ _ => Undefined.

Definition assert (b : bool) : M unit := fun v log =>
  if b then Returns tt v log else AssertionFailed log.

(** The value of an [int] expression: undefined when it is not representable. *)
Definition int_val (z : Z) : M Z :=
  if in_int z then mret z else undefined.

(** *** The backing store *)

(** The number of slots currently allocated. *)
Definition allocated (v : vector) : Z := Z.of_nat (length (elems v)).

(** [v->elems + p]: a pointer into the store or one past its end. *)
Definition elem_ptr (p : Z) : M Z := fun v log =>
  if (0 <=? p) && (p <=? allocated v) then Returns p v log else Undefined.

(** [*p] as an rvalue. *)
Definition load_elem (p : Z) : M A := fun v log =>
  if (0 <=? p) && (p <? allocated v) then
    match elems v !! Z.to_nat p with
    | Some (Some a) => Returns a v (log ++ [Read p])
    | _ => Undefined
    end
  else Undefined.

(** [*p = x]. *)
Definition store_elem (p : Z) (x : A) : M unit := fun v log =>
  if (0 <=? p) && (p <? allocated v) then
    Returns tt (Vector (<[Z.to_nat p := Some x]> (elems v)) (capacity v) (size v))
            (log ++ [Write p])
  else Undefined.

(** The slots [src, src + n) as they are before the move. *)
Definition block (l : list slot) (src n : Z) : list slot :=
  take (Z.to_nat n) (drop (Z.to_nat src) l).

(** [memmove (dst, src, nbytes)] between two places of the backing store: the
    source block is read as a whole and then written at the destination, so
    overlapping ranges are copied correctly. *)
Definition memmove (dst src nbytes : Z) : M unit := fun v log =>
  let n := nbytes / PTR_SIZE in
  if (0 <=? dst) && (0 <=? src)
     && (dst + n <=? allocated v) && (src + n <=? allocated v) then
    Returns tt
      (Vector (list_inserts (Z.to_nat dst) (block (elems v) src n) (elems v))
              (capacity v) (size v))
      (log ++ (Read <$> seqZ src n) ++ (Write <$> seqZ dst n))
  else Undefined.

(** [v->elems = realloc (v->elems, nbytes)]: the old contents are kept up to
    the smaller of the two sizes; new slots are indeterminate. *)
Definition realloc (nbytes : Z) : M unit := fun v log =>
  Returns tt
    (Vector (resize (Z.to_nat (nbytes / PTR_SIZE)) None (elems v))
            (capacity v) (size v))
    log.

(** ** The functions of [vector.c] *)

(** [vector vector_create()], the record its statements describe: a store of
    one indeterminate slot ([malloc] succeeds, so both assertions pass),
    [capacity] set to 1 and [size] to 0.  Whether the block these members are
    stored to holds them is the matter of [vector_create_call]. *)
Definition vector_create : vector := Vector [None] 1 0.

(** The members [vector_create] stores to, in program order: [v->elems],
    [v->capacity], [v->size]. *)
Definition vector_create_stores : list member :=
  [member_elems; member_capacity; member_size].

(** [vector vector_create()] as a call.  The block for the record comes from
    [malloc (sizeof (vector))]; a store to a member that does not lie inside
    the block is undefined behaviour ([None]).  When every store is inside,
    the call returns the record [vector_create]. *)
Definition vector_create_call : option vector :=
  if forallb (in_block sizeof_vector) vector_create_stores
  then Some vector_create
  else None.

(** [static void **get_element(const vector v, int i)] *)
Definition get_element (i : Z) : M Z :=
  sz ← load_size;
  assert (to_size_t i <? to_size_t sz);;
  elem_ptr i.

(** [static void extend_if_necessary(vector v)] *)
Definition extend_if_necessary : M unit :=
  sz ← load_size;
  cap ← load_capacity;
  if cap <? sz then
    cap2 ← int_val (cap * 2);
    store_capacity cap2;;
    cap' ← load_capacity;
    realloc (size_t_mul (to_size_t cap') PTR_SIZE)
  else mret tt.

(** [int vector_size(const vector v)] *)
Definition vector_size : M Z := load_size.

(** [bool vector_in_bounds(const vector v, int i)] *)
Definition vector_in_bounds (i : Z) : M bool :=
  sz ← load_size;
  mret (to_size_t i <? to_size_t sz).

(** [void vector_set(vector v, int i, void *value)] *)
Definition vector_set (i : Z) (value : A) : M unit :=
  p ← get_element i;
  store_elem p value.

(** [void *vector_get(const vector v, int i)] *)
Definition vector_get (i : Z) : M A :=
  p ← get_element i;
  load_elem p.

(** [void vector_insert(vector v, int i, void *value)] *)
Definition vector_insert (i : Z) (value : A) : M unit :=
  sz ← load_size;
  sz1 ← int_val (sz + 1);
  store_size sz1;;
  extend_if_necessary;;
  target ← get_element i;
  sz' ← load_size;
  d ← int_val (sz' - i);
  remaining ← int_val (d - 1);
  dst ← elem_ptr (target + 1);
  memmove dst target (size_t_mul (to_size_t remaining) PTR_SIZE);;
  store_elem target value.

(** [void *vector_remove(vector v, int i)] *)
Definition vector_remove (i : Z) : M A :=
  target ← get_element i;
  result ← load_elem target;
  sz ← load_size;
  d ← int_val (sz - i);
  remaining ← int_val (d - 1);
  src ← elem_ptr (target + 1);
  memmove target src (size_t_mul (to_size_t remaining) PTR_SIZE);;
  sz' ← load_size;
  sz1 ← int_val (sz' - 1);
  store_size sz1;;
  mret result.

(** [void vector_push(vector v, void *value)] *)
Definition vector_push (value : A) : M unit :=
  sz ← load_size;
  vector_insert sz value.

(** [void *vector_pop(vector v)] *)
Definition vector_pop : M A :=
  sz ← load_size;
  i ← int_val (sz - 1);
  vector_remove i.

(** ** Well-formed containers and what a client observes *)

(** The logically valid prefix of the backing store: slots [0, size). *)
Definition contents (v : vector) : list slot :=
  take (Z.to_nat (size v)) (elems v).

Definition initialised (s : slot) : bool :=
  match s with Some _ => true | None => false end.

(** The data-model invariant of the container: [0 <= size <= capacity], at
    least one slot, as many slots allocated as [capacity] says, and every slot
    below [size] written. *)
Record wf (v : vector) : Prop := Wf {
  wf_size : 0 <= size v <= capacity v;
  wf_capacity : 1 <= capacity v <= INT_MAX;
  wf_allocated : allocated v = capacity v;
  wf_initialised : forallb initialised (contents v) = true
}.

(** The same invariant as a test, for concrete records. *)
Definition wfb (v : vector) : bool :=
  (0 <=? size v) && (size v <=? capacity v)
  && (1 <=? capacity v) && (capacity v <=? INT_MAX)
  && (allocated v =? capacity v)
  && forallb initialised (contents v).

(** Doubling the capacity, should the next insertion need it, stays within
    [int]. *)
Definition fits (v : vector) : Prop :=
  size v = capacity v -> capacity v * 2 <= INT_MAX.

(** What [vector_get] hands back at index [j], if it returns at all. *)
Definition get_at (v : vector) (j : Z) : option A :=
  match run (vector_get j) v with
  | Returns a _ _ => Some a
  | _ => None
  end.

(** What the caller has of a call that returned: its result, the size and
    the contents. *)
Definition observe {R : Type} (o : outcome R) : option (R * Z * list slot) :=
  match o with
  | Returns r v _ => Some (r, size v, contents v)
  | _ => None
  end.

(** ** Sequences of operations *)

Inductive op : Type :=
| OpSet (i : Z) (x : A)
| OpInsert (i : Z) (x : A)
| OpRemove (i : Z)
| OpPush (x : A)
| OpPop.

(** The precondition the interface gives each operation. *)
Definition pre (o : op) (v : vector) : Prop :=
  match o with
  | OpSet i _ => 0 <= i < size v
  | OpInsert i _ => 0 <= i <= size v
  | OpRemove i => 0 <= i < size v
  | OpPush _ => True
  | OpPop => 0 < size v
  end.

Definition exec (o : op) : M unit :=
  match o with
  | OpSet i x => vector_set i x
  | OpInsert i x => vector_insert i x
  | OpRemove i => vector_remove i;; mret tt
  | OpPush x => vector_push x
  | OpPop => vector_pop;; mret tt
  end.


(** One operation, invoked under its precondition, that returns. *)
Definition step (v : vector) (o : op) (v' : vector) : Prop :=
  pre o v /\ exists log, run (exec o) v = Returns tt v' log.

Inductive reachable : vector -> Prop :=
| reach_create : reachable vector_create
| reach_step v o v' : reachable v -> step v o v' -> reachable v'.

End Vector.

Global Arguments vector : clear implicits.
Global Arguments outcome : clear implicits.
Global Arguments M : clear implicits.
Global Arguments op : clear implicits.

(** ** Concrete containers and runs

    In [three] and [full], handles are shown as the addresses they hold. *)

(** The container after [push 10], [push 20], [push 30] on a fresh one. *)
Definition three : vector Z := Vector [Some 10; Some 20; Some 30; None] 4 3.

(** A full container: the next insertion has to grow it. *)
Definition full : vector Z := Vector [Some 10; Some 20] 2 2.

(** The three pushes of the interface description's scenarios; there the
    handles are strings. *)
Definition pushed_abc : M string unit :=
  vector_push "a"%string;; vector_push "b"%string;; vector_push "c"%string.

(** * Clients of the container *)

(** The slot an access touches. *)
Definition slot_of (a : access) : Z :=
  match a with Read j | Write j => j end.

Definition power_of_two (n : Z) : Prop := exists k, 0 <= k /\ n = 2 ^ k.


(** A full container of [2^30] handles: the largest capacity whose double is
    still wanted by [extend_if_necessary] but is no [int]. *)
Definition at_limit : vector Z :=
  Vector (replicate (Z.to_nat 1073741824) (Some 0)) 1073741824 1073741824.

(** * The interactive shell of [cli.c]

    The shell is run in a world made of standard input (the characters not
    yet read and the end-of-file indicator), the [printf] calls made so far,
    the position [strtok] has saved, and the static [vector v] of [run_cmd]
    ([None] is [NULL]).  The strings the vector holds are the [strdup] copies
    of tokens; a handle is modelled by the string it points to, and [free] is
    not modelled.  Every C loop is a [Fixpoint] on a fuel argument whose body
    is the loop's test and body; [OutOfFuel] is the outcome of a run that
    needs more iterations than it was given.

    [strtol] belongs to the C library and is a parameter here: the value it
    converts and the text it leaves unconverted. *)

Module Shell.

Definition MAX_LINE : Z := 80.

(** What [getchar] returns at end of input. *)
Definition EOF : Z := -1.

Definition newline : ascii := "010"%char.
Definition nul : ascii := "000"%char.
Definition space : ascii := " "%char.

(** The one-character string ["\n"], to end the format strings with. *)
Definition nl : string := String newline EmptyString.

Record stdin : Type := Stdin {
  pending : list ascii;
  eof : bool
}.

Inductive printf_arg : Type :=
| ArgInt (n : Z)
| ArgStr (s : string).

(** A call [printf (format, arguments...)], as made; the text it renders is
    not computed. *)
Record printf_call : Type := Printf {
  format : string;
  arguments : list printf_arg
}.

Record world : Type := World {
  input : stdin;
  output : list printf_call;
  strtok_saved : string;
  shell : option (vector string)
}.

Definition set_input (s : stdin) (w : world) : world :=
  World s (output w) (strtok_saved w) (shell w).
Definition add_output (c : printf_call) (w : world) : world :=
  World (input w) (output w ++ [c]) (strtok_saved w) (shell w).
Definition set_saved (p : string) (w : world) : world :=
  World (input w) (output w) p (shell w).
Definition set_shell (v : option (vector string)) (w : world) : world :=
  World (input w) (output w) (strtok_saved w) v.

(** How a piece of the shell ends. *)
Inductive status (R : Type) : Type :=
| Continues (r : R) (w : world)
| Exits (code : Z) (w : world)
| Aborts (w : world)
| Faults
| OutOfFuel.

Global Arguments Continues {R} r w.
Global Arguments Exits {R} code w.
Global Arguments Aborts {R} w.
Global Arguments Faults {R}.
Global Arguments OutOfFuel {R}.

Definition IO (R : Type) : Type := world -> status R.

Global Instance IO_ret : MRet IO := fun R (r : R) w => Continues r w.

Global Instance IO_bind : MBind IO := fun R S (k : R -> IO S) (m : IO R) w =>
  match m w with
  | Continues r w' => k r w'
  | Exits code w' => Exits code w'
  | Aborts w' => Aborts w'
  | Faults => Faults
  | OutOfFuel => OutOfFuel
  end.

Definition faults {R : Type} : IO R := fun _ => Faults.
Definition out_of_fuel {R : Type} : IO R := fun _ => OutOfFuel.

(** [exit (code)]. *)
Definition exit {R : Type} (code : Z) : IO R := fun w => Exits code w.

(** The value of an [int] expression in the shell. *)
Definition int_expr (z : Z) : IO Z :=
  if in_int z then mret z else faults.

(** A call of a function of [vector.c] on the static vector: a failed
    assertion aborts the process, undefined behaviour (also a call through
    [NULL]) is a fault. *)
Definition call {R : Type} (m : M string R) : IO R := fun w =>
  match shell w with
  | None => Faults
  | Some v =>
      match run m v with
      | Returns r v' _ => Continues r (set_shell (Some v') w)
      | AssertionFailed _ => Aborts w
      | Undefined => Faults
      end
  end.

Definition printf (fmt : string) (args : list printf_arg) : IO unit := fun w =>
  Continues tt (add_output (Printf fmt args) w).

(** [v = vector_create ()] on the static vector. *)
Definition assign_created : IO unit := fun w =>
  match vector_create_call with
  | Some v => Continues tt (set_shell (Some v) w)
  | None => Faults
  end.

(** [void vector_destroy(vector v)] on the static vector: the store and the
    record are freed, no record is left. *)
Definition vector_destroy : IO unit := fun w =>
  match shell w with
  | None => Faults
  | Some _ => Continues tt (set_shell None w)
  end.

(** ** Standard input *)

(** [getchar ()]: the next character as a non-negative [int], or [EOF], which
    sets the end-of-file indicator. *)
Definition getchar : IO Z := fun w =>
  match pending (input w) with
  | c :: rest =>
      Continues (Z.of_N (N_of_ascii c)) (set_input (Stdin rest (eof (input w))) w)
  | [] => Continues EOF (set_input (Stdin [] true) w)
  end.

(** [feof (stdin)]. *)
Definition feof : IO bool := fun w => Continues (eof (input w)) w.

(** The conversion of an [int] to [char]: its low eight bits. *)
Definition to_char (z : Z) : ascii := ascii_of_N (Z.to_N (z mod 256)).

Definition ends_line (ch : ascii) : bool :=
  Ascii.eqb ch newline || Ascii.eqb ch nul.

(** [dest[i] = ch] in a buffer of [length dest] characters. *)
Definition store_char (dest : list ascii) (i : Z) (ch : ascii) : IO (list ascii) :=
  if (0 <=? i) && (i <? Z.of_nat (length dest))
  then mret (<[Z.to_nat i := ch]> dest)
  else faults.

(** The first loop of [read_cmd], from index [i] on: [true] when a line was
    completed (the function returns [true]), [false] when the loop ran past
    [MAX_LINE]. *)
Fixpoint read_chars (fuel : nat) (i : Z) (dest : list ascii)
  : IO (bool * list ascii) :=
  match fuel with
  | O => out_of_fuel
  | S fuel' =>
      if i <=? MAX_LINE then
        c ← getchar;
        let ch := to_char c in
        if ends_line ch then
          dest' ← store_char dest i nul;
          mret (true, dest')
        else
          dest' ← store_char dest i ch;
          i' ← int_expr (i + 1);
          read_chars fuel' i' dest'
      else mret (false, dest)
  end.

(** The second loop of [read_cmd]: read up to and including the character
    that ends the line. *)
Fixpoint skip_rest (fuel : nat) : IO unit :=
  match fuel with
  | O => out_of_fuel
  | S fuel' =>
      c ← getchar;
      if negb (ends_line (to_char c)) then skip_rest fuel' else mret tt
  end.

Definition prompt : string := "> "%string.
Definition too_long : string := ("    error; line too long (> 80)" +:+ nl)%string.

(** [bool read_cmd(char *dest)]: the result and the buffer as it leaves it. *)
Fixpoint read_cmd (fuel : nat) (dest : list ascii) : IO (bool * list ascii) :=
  match fuel with
  | O => out_of_fuel
  | S fuel' =>
      at_end ← feof;
      if (at_end : bool) then mret (false, dest)
      else
        printf prompt [];;
        r ← read_chars fuel' 0 dest;
        if fst (r : bool * list ascii) then mret (true, snd r)
        else
          skip_rest fuel';;
          printf too_long [];;
          read_cmd fuel' (snd r)
  end.

(** The C string a buffer holds: the characters before the first [nul];
    [None] when there is no [nul] in it. *)
Fixpoint cstring (buf : list ascii) : option string :=
  match buf with
  | [] => None
  | c :: rest =>
      if Ascii.eqb c nul then Some EmptyString
      else String c <$> cstring rest
  end.

(** ** [strtok] with the delimiter string [" "] *)

Fixpoint skip_spaces (s : string) : string :=
  match s with
  | String c rest => if Ascii.eqb c space then skip_spaces rest else s
  | EmptyString => EmptyString
  end.

(** The token at the head of [s] and where the scan goes on: after the space
    that ended the token, or at the end of the string. *)
Fixpoint split_token (s : string) : string * string :=
  match s with
  | EmptyString => (EmptyString, EmptyString)
  | String c rest =>
      if Ascii.eqb c space then (EmptyString, rest)
      else (String c (fst (split_token rest)), snd (split_token rest))
  end.

Definition scan (s : string) : option string * string :=
  match skip_spaces s with
  | EmptyString => (None, EmptyString)
  | String c rest =>
      (Some (fst (split_token (String c rest))), snd (split_token (String c rest)))
  end.

(** [strtok (s, " ")]: [Some line] starts on a new string, [None] is the call
    with [NULL] that goes on from the saved position. *)
Definition strtok (s : option string) : IO (option string) := fun w =>
  let start := match s with Some line => line | None => strtok_saved w end in
  Continues (fst (scan start)) (set_saved (snd (scan start)) w).

(** The conversion of a [long] to [int]: reduction modulo [2^32] into the
    range of [int]. *)
Definition long_to_int (n : Z) : Z :=
  (n - INT_MIN) mod 4294967296 + INT_MIN.

(** ** The parsers and commands of [cli.c] *)

Definition usage : string := ("    error; use format `%s`" +:+ nl)%string.
Definition usage_i : string := ("    error; use format `%s %%d`" +:+ nl)%string.
Definition usage_v : string := ("    error; use format `%s %%[^ ]`" +:+ nl)%string.
Definition usage_iv : string :=
  ("    error; use format `%s %%d %%[^ ]`" +:+ nl)%string.
Definition no_vector : string :=
  ("    error; use `init` first to initialize a new empty vector" +:+ nl)%string.
Definition out_of_bounds : string := ("    error; out of bounds" +:+ nl)%string.
Definition empty : string := ("    error; empty" +:+ nl)%string.
Definition unknown : string := ("    error; unknown command" +:+ nl)%string.
Definition shown : string := ("    v[%d] = %s" +:+ nl)%string.
Definition removed : string := ("    # v[%d] = %s" +:+ nl)%string.
Definition banner : string :=
  ("Vector CLI; use `help` if you are totally lost." +:+ nl)%string.

Definition help_lines : list string :=
  [ ("    help                List available commands" +:+ nl)%string;
    ("    exit/quit/q         Exit vector shell" +:+ nl)%string;
    ("    init                Initialize new empty vector" +:+ nl)%string;
    ("    size                Get current vector size" +:+ nl)%string;
    ("    ls/print/dump       Get all vector contents" +:+ nl)%string;
    ("    set <i> <value>     Set <value> at index <i>" +:+ nl)%string;
    ("    get <i>             Get the value at index <i>" +:+ nl)%string;
    ("    insert <i> <value>  Insert <value> into index <i>" +:+ nl)%string;
    ("    remove <i>          Remove the value at index <i>" +:+ nl)%string;
    ("    push <value>        Push <value> to end of vector" +:+ nl)%string;
    ("    pop                 Remove the value at end of vector" +:+ nl)%string ].

(** The eleven [printf] calls of the [help] command. *)
Fixpoint print_lines (ls : list string) : IO unit :=
  match ls with
  | [] => mret tt
  | l :: ls' => printf l [];; print_lines ls'
  end.

(** [bool ensure_exists(vector v)] on the static vector. *)
Definition ensure_exists : IO bool := fun w =>
  match shell w with
  | Some _ => Continues true w
  | None => (printf no_vector [];; mret false) w
  end.

(** [bool parse(char *line, char *cmd)] *)
Definition parse (cmd : string) : IO bool :=
  more ← strtok None;
  match more with
  | Some _ => printf usage [ArgStr cmd];; mret false
  | None => mret true
  end.

Section Strtol.

(** [strtol (text, &end, 0)]: the [long] it returns and the text from [end]
    on. *)
Variable strtol : string -> Z * string.

(** [bool parse_i(char *line, char *cmd, int *i)]: [Some i] when it returns
    [true] with [*i] set. *)
Definition parse_i (cmd : string) : IO (option Z) :=
  index ← strtok None;
  match index with
  | None => printf usage_i [ArgStr cmd];; mret None
  | Some text =>
      let i := long_to_int (fst (strtol text)) in
      if negb (String.eqb (snd (strtol text)) EmptyString) then
        printf usage_i [ArgStr cmd];; mret None
      else
        more ← strtok None;
        match more with
        | Some _ => printf usage_i [ArgStr cmd];; mret None
        | None => mret (Some i)
        end
  end.

(** [bool parse_v(char *line, char *cmd, char **value)] *)
Definition parse_v (cmd : string) : IO (option string) :=
  token ← strtok None;
  match token with
  | None => printf usage_v [ArgStr cmd];; mret None
  | Some value =>
      more ← strtok None;
      match more with
      | Some _ => printf usage_v [ArgStr cmd];; mret None
      | None => mret (Some value)
      end
  end.

(** [bool parse_iv(char *line, char *cmd, int *i, char **value)]: with a
    token but no index the test [*index != '\0'] reads through [NULL]. *)
Definition parse_iv (cmd : string) : IO (option (Z * string)) :=
  index ← strtok None;
  token ← strtok None;
  match token with
  | None => printf usage_iv [ArgStr cmd];; mret None
  | Some value =>
      match index with
      | None => faults
      | Some text =>
          let i := long_to_int (fst (strtol text)) in
          if negb (String.eqb (snd (strtol text)) EmptyString) then
            printf usage_iv [ArgStr cmd];; mret None
          else
            more ← strtok None;
            match more with
            | Some _ => printf usage_iv [ArgStr cmd];; mret None
            | None => mret (Some (i, value))
            end
      end
  end.

(** The loop of [do_cleanup], from index [i] on: each handle is fetched (and
    freed). *)
Fixpoint cleanup_loop (fuel : nat) (i : Z) : IO unit :=
  match fuel with
  | O => out_of_fuel
  | S fuel' =>
      sz ← call vector_size;
      if i <? sz then
        call (vector_get i);;
        i' ← int_expr (i + 1);
        cleanup_loop fuel' i'
      else mret tt
  end.

(** [void do_cleanup(vector v)] on the static vector. *)
Definition do_cleanup (fuel : nat) : IO unit := fun w =>
  match shell w with
  | None => Continues tt w
  | Some _ => ((cleanup_loop fuel 0;; vector_destroy) : IO unit) w
  end.

(** The loop of the [ls] command, from index [i] on. *)
Fixpoint ls_loop (fuel : nat) (i : Z) : IO unit :=
  match fuel with
  | O => out_of_fuel
  | S fuel' =>
      sz ← call vector_size;
      if i <? sz then
        value ← call (vector_get i);
        printf (if i =? 0 then "%s"%string else ", %s"%string) [ArgStr value];;
        i' ← int_expr (i + 1);
        ls_loop fuel' i'
      else mret tt
  end.

(** [strcmp (cmd, name) == 0]. *)
Definition same (cmd name : string) : bool := String.eqb cmd name.

(** [void run_cmd(char *line)] *)
Definition run_cmd (fuel : nat) (line : string) : IO unit :=
  first ← strtok (Some line);
  match first with
  | None => mret tt
  | Some cmd =>
      if same cmd "help" then
        ok ← parse cmd;
        if negb ok then mret tt else print_lines help_lines
      else if same cmd "exit" || same cmd "quit" || same cmd "q" then
        ok ← parse cmd;
        if negb ok then mret tt else exit 0
      else if same cmd "init" then
        ok ← parse cmd;
        if negb ok then mret tt else
        do_cleanup fuel;;
        assign_created;;
        printf ("    v = []" +:+ nl)%string []
      else if same cmd "size" then
        ok ← parse cmd;
        if negb ok then mret tt else
        there ← ensure_exists;
        if negb there then mret tt else
        sz ← call vector_size;
        printf ("    |v| = %d" +:+ nl)%string [ArgInt sz]
      else if same cmd "ls" || same cmd "dump" || same cmd "print" then
        ok ← parse cmd;
        if negb ok then mret tt else
        there ← ensure_exists;
        if negb there then mret tt else
        printf "    v = ["%string [];;
        ls_loop fuel 0;;
        printf ("]" +:+ nl)%string []
      else if same cmd "set" then
        parsed ← parse_iv cmd;
        match parsed with
        | None => mret tt
        | Some (i, value) =>
            there ← ensure_exists;
            if negb there then mret tt else
            inside ← call (vector_in_bounds i);
            if negb inside then printf out_of_bounds []
            else
              call (vector_set i value);;
              printf shown [ArgInt i; ArgStr value]
        end
      else if same cmd "get" then
        parsed ← parse_i cmd;
        match parsed with
        | None => mret tt
        | Some i =>
            there ← ensure_exists;
            if negb there then mret tt else
            inside ← call (vector_in_bounds i);
            if negb inside then printf out_of_bounds []
            else
              value ← call (vector_get i);
              printf shown [ArgInt i; ArgStr value]
        end
      else if same cmd "insert" then
        parsed ← parse_iv cmd;
        match parsed with
        | None => mret tt
        | Some (i, value) =>
            there ← ensure_exists;
            if negb there then mret tt else
            outside ← (if i <? 0 then mret true
                       else sz ← call vector_size; mret (sz <? i));
            if (outside : bool) then printf out_of_bounds []
            else
              call (vector_insert i value);;
              printf shown [ArgInt i; ArgStr value]
        end
      else if same cmd "remove" then
        parsed ← parse_i cmd;
        match parsed with
        | None => mret tt
        | Some i =>
            there ← ensure_exists;
            if negb there then mret tt else
            inside ← call (vector_in_bounds i);
            if negb inside then printf out_of_bounds []
            else
              value ← call (vector_remove i);
              printf removed [ArgInt i; ArgStr value]
        end
      else if same cmd "push" then
        parsed ← parse_v cmd;
        match parsed with
        | None => mret tt
        | Some value =>
            there ← ensure_exists;
            if negb there then mret tt else
            call (vector_push value);;
            sz ← call vector_size;
            last ← int_expr (sz - 1);
            printf shown [ArgInt last; ArgStr value]
        end
      else if same cmd "pop" then
        ok ← parse cmd;
        if negb ok then mret tt else
        there ← ensure_exists;
        if negb there then mret tt else
        sz ← call vector_size;
        if sz =? 0 then printf empty []
        else
          value ← call vector_pop;
          sz' ← call vector_size;
          printf removed [ArgInt sz'; ArgStr value]
      else printf unknown []
  end.

(** The loop of [main]: the value [main] returns when the loop ends. *)
Fixpoint main_loop (fuel : nat) (command : list ascii) : IO Z :=
  match fuel with
  | O => out_of_fuel
  | S fuel' =>
      r ← read_cmd fuel' command;
      if fst (r : bool * list ascii) then
        match cstring (snd r) with
        | None => faults
        | Some line => run_cmd fuel' line;; main_loop fuel' (snd r)
        end
      else mret 0
  end.

(** [int main()]; [command] is the buffer [char command[MAX_LINE + 1]] with
    whatever it holds at first. *)
Definition main (fuel : nat) (command : list ascii) : IO Z :=
  printf banner [];;
  main_loop fuel command.

End Strtol.

(** ** A [strtol] for concrete runs

    The conversion the C library makes with base 0: white space is skipped,
    a sign is taken, a leading [0x] or [0X] before a hexadecimal digit selects
    base 16, another leading [0] base 8, anything else base 10; the digits of
    that base are converted and the value is clamped to the range of [long].
    Without a digit nothing is converted: the value is 0 and the whole text is
    left. *)

Definition LONG_MAX : Z := 9223372036854775807.
Definition LONG_MIN : Z := -9223372036854775808.

Definition isspace (c : ascii) : bool :=
  let n := Z.of_N (N_of_ascii c) in (n =? 32) || ((9 <=? n) && (n <=? 13)).

Definition digit_value (c : ascii) : option Z :=
  let n := Z.of_N (N_of_ascii c) in
  if (48 <=? n) && (n <=? 57) then Some (n - 48)
  else if (97 <=? n) && (n <=? 122) then Some (n - 87)
  else if (65 <=? n) && (n <=? 90) then Some (n - 55)
  else None.

Definition is_digit (base : Z) (c : ascii) : bool :=
  match digit_value c with
  | Some d => d <? base
  | None => false
  end.

Fixpoint skip_white (s : string) : string :=
  match s with
  | String c rest => if isspace c then skip_white rest else s
  | EmptyString => EmptyString
  end.

(** The digits of [base] at the head of [s], converted on top of [acc]: the
    value and the text left. *)
Fixpoint digits (base : Z) (acc : Z) (s : string) : Z * string :=
  match s with
  | String c rest =>
      match digit_value c with
      | Some d => if d <? base then digits base (acc * base + d) rest else (acc, s)
      | None => (acc, s)
      end
  | EmptyString => (acc, EmptyString)
  end.

Definition clamp (n : Z) : Z := Z.max LONG_MIN (Z.min LONG_MAX n).

Definition strtol_base0 (text : string) : Z * string :=
  let s := skip_white text in
  let negative := match s with String "-" _ => true | _ => false end in
  let s1 := match s with
            | String "-" rest | String "+" rest => rest
            | _ => s
            end in
  let sign := if negative then -1 else 1 in
  match s1 with
  | String "0" (String x (String h rest as s3)) =>
      if (Ascii.eqb x "x" || Ascii.eqb x "X") && is_digit 16 h
      then (clamp (sign * fst (digits 16 0 s3)), snd (digits 16 0 s3))
      else (clamp (sign * fst (digits 8 0 s1)), snd (digits 8 0 s1))
  | String "0" _ => (clamp (sign * fst (digits 8 0 s1)), snd (digits 8 0 s1))
  | String c _ =>
      if is_digit 10 c
      then (clamp (sign * fst (digits 10 0 s1)), snd (digits 10 0 s1))
      else (0, text)
  | EmptyString => (0, text)
  end.

(** Standard input as a process finds it between reads: the end-of-file
    indicator is clear, or nothing is left to read. *)
Definition steady (w : world) : Prop :=
  eof (input w) = false \/ pending (input w) = [].

(** ** Running the shell without mishap *)

(** A part of the shell ends well when it goes on in a world (and with a
    result) that [Q] accepts, or exits with status 0; a failed assertion and
    undefined behaviour do not count, and running out of fuel counts only
    where [F] allows it. *)
Definition ends_well {R : Type} (F : Prop) (Q : R -> world -> Prop)
    (s : status R) : Prop :=
  match s with
  | Continues r w' => Q r w'
  | Exits code _ => code = 0
  | OutOfFuel => F
  | Aborts _ | Faults => False
  end.

(** The same, for a piece that may have undefined behaviour, and then only
    when [U] holds. *)
Definition ends_or {R : Type} (U F : Prop) (Q : R -> world -> Prop)
    (s : status R) : Prop :=
  match s with
  | Continues r w' => Q r w'
  | Exits code _ => code = 0
  | OutOfFuel => F
  | Faults => U
  | Aborts _ => False
  end.

(** Standard input is [s0], and the static vector is [NULL] or a well-formed
    container of at most [n] elements. *)
Definition tidy (s0 : stdin) (n : Z) (w : world) : Prop :=
  input w = s0
  /\ match shell w with
     | None => True
     | Some v => wf v /\ size v <= n
     end.

(** A token: a non-empty string without a space. *)
Fixpoint spaceless (t : string) : bool :=
  match t with
  | EmptyString => true
  | String c rest => negb (Ascii.eqb c space) && spaceless rest
  end.

Definition is_word (t : string) : bool :=
  match t with
  | EmptyString => false
  | String _ _ => spaceless t
  end.

(** The world a process starts in. *)
Definition start (text : list ascii) : world :=
  World (Stdin text false) [] EmptyString None.

(** The [printf] calls the loop of [ls] makes for the handles [l], the first
    of them at index [i]. *)
Fixpoint listed_from (i : Z) (l : list string) : list printf_call :=
  match l with
  | [] => []
  | a :: l' =>
      Printf (if i =? 0 then "%s"%string else ", %s"%string) [ArgStr a]
      :: listed_from (i + 1) l'
  end.

(** A run of [k] spaces. *)
Fixpoint pad (k : nat) : string :=
  match k with
  | O => EmptyString
  | S k' => String space (pad k')
  end.

(** The command words [run_cmd] knows, in the order it tests them. *)
Definition commands : list string :=
  [ "help"; "exit"; "quit"; "q"; "init"; "size"; "ls"; "dump"; "print";
    "set"; "get"; "insert"; "remove"; "push"; "pop" ]%string.

(** ** Concrete worlds *)

(** The characters of a string, as standard input delivers them. *)
Definition chars (s : string) : list ascii := String.list_ascii_of_string s.

(** A buffer of 81 characters. *)
Definition blank : list ascii := replicate 81 nul.

(** The static vector after [init], [push a], [push b], [push c]. *)
Definition abc : vector string :=
  Vector [Some "a"; Some "b"; Some "c"; None]%string 4 3.

(** A shell that holds [abc], between two commands. *)
Definition abc_world : world := World (Stdin [] false) [] EmptyString (Some abc).

(** A session that never asks for a vector. *)
Definition idle_session : string :=
  ("help" +:+ nl +:+ "size" +:+ nl +:+ "get 0" +:+ nl +:+ "exit" +:+ nl)%string.

(** A short session. *)
Definition session : string :=
  ("init" +:+ nl +:+ "push a" +:+ nl +:+ "push b" +:+ nl +:+ "push c" +:+ nl
   +:+ "insert 1 x" +:+ nl +:+ "remove 0" +:+ nl +:+ "get 7" +:+ nl
   +:+ "exit" +:+ nl)%string.

End Shell.

(** * Properties *)

(** ** Integer conversions *)

Lemma in_int_true z : in_int z = true <-> INT_MIN <= z <= INT_MAX.
Proof. unfold in_int. rewrite andb_true_iff, !Z.leb_le. tauto. Qed.

Lemma to_size_t_id z : 0 <= z < SIZE_MOD -> to_size_t z = z.
Proof. intros H. unfold to_size_t. now apply Z.mod_small. Qed.

Lemma to_size_t_negative z : - SIZE_MOD <= z < 0 -> to_size_t z = z + SIZE_MOD.
Proof.
  intros H. unfold to_size_t.
  symmetry. apply Z.mod_unique with (q := -1); unfold SIZE_MOD in *; lia.
Qed.

(** The comparison [i < (size_t) size] of [vector_in_bounds] and
    [get_element], for a non-negative [size] and any [int] index. *)
Lemma unsigned_lt_iff i sz :
  INT_MIN <= i <= INT_MAX -> 0 <= sz <= INT_MAX ->
  (to_size_t i <? to_size_t sz) = true <-> 0 <= i < sz.
Proof.
  intros Hi Hsz. rewrite Z.ltb_lt.
  rewrite (to_size_t_id sz) by (unfold SIZE_MOD, INT_MAX in *; lia).
  destruct (Z.lt_ge_cases i 0) as [Hneg | Hpos].
  - rewrite to_size_t_negative by (unfold SIZE_MOD, INT_MIN in *; lia).
    unfold SIZE_MOD, INT_MIN, INT_MAX in *. lia.
  - rewrite to_size_t_id by (unfold SIZE_MOD, INT_MAX in *; lia). lia.
Qed.

Lemma byte_count n :
  0 <= n <= INT_MAX -> size_t_mul (to_size_t n) PTR_SIZE / PTR_SIZE = n.
Proof.
  intros H. rewrite to_size_t_id by (unfold SIZE_MOD, INT_MAX in *; lia).
  unfold size_t_mul. rewrite Z.mod_small by (unfold SIZE_MOD, PTR_SIZE, INT_MAX in *; lia).
  unfold PTR_SIZE. now rewrite Z.div_mul by lia.
Qed.

(** ** Moving a block inside a list

    The two shifts behind [vector_insert] and [vector_remove], on plain lists
    with natural-number positions. *)

Section Shifts.

Context {T : Type}.
Implicit Types (l : list T) (x : T) (i n k : nat).

(** Opening a gap at [i] in the first [n] slots (one more slot must exist). *)
Lemma shift_right l i n x :
  (i <= n < length l)%nat ->
  take (S n) (<[i := x]> (list_inserts (S i) (take (n - i) (drop i l)) l))
  = take i l ++ x :: drop i (take n l).
Proof.
  intros Hin.
  replace (drop i (take n l)) with (take (n - i) (drop i l))
    by (rewrite take_drop_commute; do 2 f_equal; lia).
  assert (Hblock : length (take (n - i) (drop i l)) = (n - i)%nat)
    by (rewrite length_take, length_drop; lia).
  apply list_eq. intros k.
  destruct (decide (n < k)%nat) as [Hk | Hk].
  { rewrite lookup_take_ge by lia.
    symmetry. apply lookup_ge_None_2.
    rewrite length_app, length_take. simpl. rewrite Hblock. lia. }
  rewrite lookup_take_lt by lia.
  destruct (decide (k < i)%nat) as [Hlt | Hge].
  { rewrite list_lookup_insert_ne, list_lookup_inserts_lt by lia.
    rewrite lookup_app_l by (rewrite length_take; lia).
    now rewrite lookup_take_lt. }
  rewrite lookup_app_r by (rewrite length_take; lia).
  rewrite length_take, Nat.min_l by lia.
  destruct (decide (k = i)) as [-> | Hne].
  { rewrite list_lookup_insert_eq by (rewrite length_inserts; lia).
    now rewrite Nat.sub_diag. }
  rewrite list_lookup_insert_ne by lia.
  rewrite list_lookup_inserts by (rewrite ?Hblock; lia).
  replace (k - i)%nat with (S (k - S i)) by lia. reflexivity.
Qed.

(** Closing the gap at [i] in the first [n] slots. *)
Lemma shift_left l i n :
  (i < n <= length l)%nat ->
  take (n - 1) (list_inserts i (take (n - i - 1) (drop (S i) l)) l)
  = take i l ++ drop (S i) (take n l).
Proof.
  intros Hin.
  replace (drop (S i) (take n l)) with (take (n - i - 1) (drop (S i) l))
    by (rewrite take_drop_commute; do 2 f_equal; lia).
  assert (Hblock : length (take (n - i - 1) (drop (S i) l)) = (n - i - 1)%nat)
    by (rewrite length_take, length_drop; lia).
  apply list_eq. intros k.
  destruct (decide (n - 1 <= k)%nat) as [Hk | Hk].
  { rewrite lookup_take_ge by lia.
    symmetry. apply lookup_ge_None_2.
    rewrite length_app, length_take, Hblock. lia. }
  rewrite lookup_take_lt by lia.
  destruct (decide (k < i)%nat) as [Hlt | Hge].
  { rewrite list_lookup_inserts_lt by lia.
    rewrite lookup_app_l by (rewrite length_take; lia).
    now rewrite lookup_take_lt. }
  rewrite lookup_app_r by (rewrite length_take; lia).
  rewrite length_take, Nat.min_l by lia.
  now rewrite list_lookup_inserts by (rewrite ?Hblock; lia).
Qed.

(** Opening a gap and closing it again gives the list back. *)
Lemma gap_round_trip l i x :
  (i <= length l)%nat ->
  take i (take i l ++ x :: drop i l) ++ drop (S i) (take i l ++ x :: drop i l) = l.
Proof.
  intros Hi.
  assert (Hlen : length (take i l) = i) by (rewrite length_take; lia).
  rewrite take_app_length' by done.
  rewrite drop_app_ge by lia.
  rewrite Hlen. replace (S i - i)%nat with 1%nat by lia.
  simpl. rewrite drop_0. apply take_drop.
Qed.

(** Closing the gap at [i] and opening it again for the element taken out
    gives back the whole list, also beyond the first [n] slots. *)
Lemma shift_left_right l i n x :
  (i < n <= length l)%nat -> l !! i = Some x ->
  <[i := x]>
    (list_inserts (S i)
       (take (n - 1 - i)
          (drop i (list_inserts i (take (n - i - 1) (drop (S i) l)) l)))
       (list_inserts i (take (n - i - 1) (drop (S i) l)) l))
  = l.
Proof.
  intros Hin Hx.
  set (l1 := list_inserts i (take (n - i - 1) (drop (S i) l)) l).
  assert (Hlen1 : length l1 = length l) by apply length_inserts.
  assert (Hb1 : length (take (n - i - 1) (drop (S i) l)) = (n - i - 1)%nat)
    by (rewrite length_take, length_drop; lia).
  assert (Hb2 : length (take (n - 1 - i) (drop i l1)) = (n - 1 - i)%nat)
    by (rewrite length_take, length_drop; lia).
  apply list_eq. intros k.
  destruct (decide (k = i)) as [-> | Hne].
  { rewrite list_lookup_insert_eq by (rewrite length_inserts; lia). now symmetry. }
  rewrite list_lookup_insert_ne by lia.
  destruct (decide (k < i)%nat) as [Hlt | Hge].
  { rewrite list_lookup_inserts_lt by lia.
    unfold l1. now rewrite list_lookup_inserts_lt by lia. }
  destruct (decide (k < n)%nat) as [Hmid | Hhigh].
  - rewrite list_lookup_inserts by (rewrite ?Hb2; lia).
    rewrite lookup_take_lt, lookup_drop by lia.
    unfold l1. rewrite list_lookup_inserts by (rewrite ?Hb1; lia).
    rewrite lookup_take_lt, lookup_drop by lia. f_equal. lia.
  - rewrite list_lookup_inserts_ge by (rewrite Hb2; lia).
    unfold l1. now rewrite list_lookup_inserts_ge by (rewrite Hb1; lia).
Qed.

End Shifts.

(** ** Running the primitives *)

Section Execution.

Context {A : Type}.
Implicit Types (v : vector A) (x a : A) (i j p n : Z) (log : list access).

Lemma wfb_sound v : wfb v = true -> wf v.
Proof.
  unfold wfb. rewrite !andb_true_iff, !Z.leb_le, Z.eqb_eq.
  intros [[[[[? ?] ?] ?] ?] ?]. now constructor.
Qed.

Lemma wf_create : wf (@vector_create A).
Proof. apply wfb_sound. reflexivity. Qed.

Lemma wf_size_int v : wf v -> 0 <= size v <= INT_MAX.
Proof. intros [? ? ? ?]. lia. Qed.

Lemma wf_size_allocated v : wf v -> size v <= allocated v.
Proof. intros [? ? ? ?]. lia. Qed.

(** Below [size], a well-formed store holds handles. *)
Lemma wf_slot v j :
  wf v -> 0 <= j < size v -> exists a, elems v !! Z.to_nat j = Some (Some a).
Proof.
  intros Hwf Hj.
  pose proof (wf_size_allocated v Hwf) as Hal. unfold allocated in Hal.
  destruct (lookup_lt_is_Some_2 (contents v) (Z.to_nat j)) as [s Hs].
  { unfold contents. rewrite length_take. lia. }
  pose proof (wf_initialised v Hwf) as Hinit.
  rewrite forallb_forall in Hinit.
  assert (Hs' : initialised s = true).
  { apply Hinit, list_elem_of_In, list_elem_of_lookup. eauto. }
  unfold contents in Hs. rewrite lookup_take_lt in Hs by lia.
  destruct s as [a|]; [eauto | discriminate].
Qed.

Lemma int_val_ok z v log :
  INT_MIN <= z <= INT_MAX -> int_val z v log = Returns z v log.
Proof.
  intros H. unfold int_val. now rewrite (proj2 (in_int_true z) H).
Qed.

Lemma elem_ptr_ok p v log :
  0 <= p <= allocated v -> elem_ptr p v log = Returns p v log.
Proof.
  intros H. unfold elem_ptr.
  now rewrite (proj2 (Z.leb_le 0 p)), (proj2 (Z.leb_le p _)) by lia.
Qed.

Lemma assert_bounds_ok i v log :
  0 <= size v <= INT_MAX -> 0 <= i < size v ->
  assert (to_size_t i <? to_size_t (size v)) v log = Returns tt v log.
Proof.
  intros Hsz Hi. unfold assert.
  now rewrite (proj2 (unsigned_lt_iff i (size v) ltac:(unfold INT_MIN; lia) Hsz)).
Qed.

Lemma assert_bounds_fails i v log :
  0 <= size v <= INT_MAX -> INT_MIN <= i <= INT_MAX -> ~ (0 <= i < size v) ->
  assert (to_size_t i <? to_size_t (size v)) v log = AssertionFailed log.
Proof.
  intros Hsz Hi Hout. unfold assert.
  destruct (to_size_t i <? to_size_t (size v)) eqn:E; [|reflexivity].
  apply unsigned_lt_iff in E; [contradiction | assumption | assumption].
Qed.

Lemma get_element_ok i v log :
  0 <= size v <= INT_MAX -> size v <= allocated v -> 0 <= i < size v ->
  get_element i v log = Returns i v log.
Proof.
  intros Hsz Hal Hi. unfold get_element, mbind, M_bind, load_size.
  rewrite assert_bounds_ok by assumption.
  apply elem_ptr_ok. lia.
Qed.

Lemma get_element_fails i v log :
  0 <= size v <= INT_MAX -> INT_MIN <= i <= INT_MAX -> ~ (0 <= i < size v) ->
  get_element i v log = AssertionFailed log.
Proof.
  intros Hsz Hi Hout. unfold get_element, mbind, M_bind, load_size.
  now rewrite assert_bounds_fails.
Qed.

Lemma load_elem_ok p a v log :
  0 <= p -> elems v !! Z.to_nat p = Some (Some a) ->
  load_elem p v log = Returns a v (log ++ [Read p]).
Proof.
  intros Hp Hlook. unfold load_elem.
  apply lookup_lt_Some in Hlook as Hlt.
  rewrite (proj2 (Z.leb_le 0 p)), (proj2 (Z.ltb_lt p _))
    by (unfold allocated; lia).
  now rewrite Hlook.
Qed.

Lemma store_elem_ok p x v log :
  0 <= p < allocated v ->
  store_elem p x v log
  = Returns tt (Vector (<[Z.to_nat p := Some x]> (elems v)) (capacity v) (size v))
            (log ++ [Write p]).
Proof.
  intros Hp. unfold store_elem.
  now rewrite (proj2 (Z.leb_le 0 p)), (proj2 (Z.ltb_lt p _)) by lia.
Qed.

Lemma memmove_ok dst src n v log :
  0 <= n <= INT_MAX -> 0 <= dst -> 0 <= src ->
  dst + n <= allocated v -> src + n <= allocated v ->
  memmove dst src (size_t_mul (to_size_t n) PTR_SIZE) v log
  = Returns tt
      (Vector (list_inserts (Z.to_nat dst) (block (elems v) src n) (elems v))
              (capacity v) (size v))
      (log ++ (Read <$> seqZ src n) ++ (Write <$> seqZ dst n)).
Proof.
  intros Hn Hd Hs Hdn Hsn. unfold memmove.
  rewrite byte_count by assumption. cbv zeta.
  now rewrite (proj2 (Z.leb_le 0 dst)), (proj2 (Z.leb_le 0 src)),
    (proj2 (Z.leb_le (dst + n) _)), (proj2 (Z.leb_le (src + n) _)) by lia.
Qed.

(** [extend_if_necessary] leaves the record alone while [size] fits. *)
Lemma extend_if_necessary_stays v log :
  size v <= capacity v -> extend_if_necessary v log = Returns tt v log.
Proof.
  intros H. unfold extend_if_necessary, mbind, M_bind, load_size, load_capacity.
  now rewrite (proj2 (Z.ltb_ge (capacity v) (size v))) by lia.
Qed.

(** Otherwise it doubles [capacity] and reallocates. *)
Lemma extend_if_necessary_grows v log :
  capacity v < size v -> 1 <= capacity v -> capacity v * 2 <= INT_MAX ->
  extend_if_necessary v log
  = Returns tt
      (Vector (resize (Z.to_nat (capacity v * 2)) None (elems v))
              (capacity v * 2) (size v))
      log.
Proof.
  intros Hlt Hcap Hmax.
  unfold extend_if_necessary, mbind, M_bind, load_size, load_capacity.
  rewrite (proj2 (Z.ltb_lt (capacity v) (size v))) by lia.
  rewrite int_val_ok by (unfold INT_MIN; lia).
  unfold store_capacity, realloc. cbn [capacity elems size].
  now rewrite byte_count by lia.
Qed.

(** ** Running the public functions under the invariant *)

Lemma vector_get_ok v j a log :
  wf v -> 0 <= j < size v -> elems v !! Z.to_nat j = Some (Some a) ->
  vector_get j v log = Returns a v (log ++ [Read j]).
Proof.
  intros Hwf Hj Hlook. unfold vector_get, mbind, M_bind.
  rewrite get_element_ok by auto using wf_size_int, wf_size_allocated.
  apply load_elem_ok; [lia | assumption].
Qed.

Lemma vector_set_ok v i x log :
  wf v -> 0 <= i < size v ->
  vector_set i x v log
  = Returns tt (Vector (<[Z.to_nat i := Some x]> (elems v)) (capacity v) (size v))
            (log ++ [Write i]).
Proof.
  intros Hwf Hi. unfold vector_set, mbind, M_bind.
  rewrite get_element_ok by auto using wf_size_int, wf_size_allocated.
  apply store_elem_ok. pose proof (wf_size_allocated v Hwf). lia.
Qed.

(** The state in which [vector_insert] leaves [extend_if_necessary]: [size]
    already incremented, the store large enough for it, the old slots kept. *)
Lemma extend_for_insert v log :
  wf v -> fits v ->
  exists E,
    extend_if_necessary (Vector (elems v) (capacity v) (size v + 1)) log
    = Returns tt
        (Vector E (if capacity v <? size v + 1 then capacity v * 2 else capacity v)
                (size v + 1))
        log
    /\ Z.of_nat (length E)
       = (if capacity v <? size v + 1 then capacity v * 2 else capacity v)
    /\ size v + 1 <= Z.of_nat (length E) <= INT_MAX
    /\ take (Z.to_nat (size v)) E = contents v.
Proof.
  intros [Hsz Hcap Hal Hinit] Hfits. unfold fits, allocated in *.
  destruct (Z.ltb_spec (capacity v) (size v + 1)) as [Hgrow | Hstay].
  - assert (Heq : size v = capacity v) by lia.
    exists (resize (Z.to_nat (capacity v * 2)) None (elems v)).
    rewrite extend_if_necessary_grows by (cbn [capacity size]; lia).
    cbn [capacity size elems]. rewrite length_resize.
    repeat split; try lia.
    unfold contents. rewrite take_resize_le by lia.
    rewrite resize_le by lia. reflexivity.
  - exists (elems v).
    rewrite extend_if_necessary_stays by (cbn [capacity size]; lia).
    repeat split; try lia. 
Qed.

Lemma forallb_take_drop {T} (f : T -> bool) (l : list T) (k : nat) :
  forallb f l = true -> forallb f (take k l) = true /\ forallb f (drop k l) = true.
Proof.
  intros H. rewrite <- (take_drop k l), forallb_app in H.
  now apply andb_true_iff in H.
Qed.

Lemma vector_insert_ok v i x log :
  wf v -> 0 <= i <= size v -> fits v ->
  exists v' log',
    vector_insert i x v log = Returns tt v' log'
    /\ wf v'
    /\ size v' = size v + 1
    /\ capacity v'
       = (if capacity v <? size v + 1 then capacity v * 2 else capacity v)
    /\ contents v'
       = take (Z.to_nat i) (contents v) ++ Some x :: drop (Z.to_nat i) (contents v).
Proof.
  intros Hwf Hi Hfits.
  destruct (extend_for_insert v log Hwf Hfits) as (E & Hext & Hlen & Hbig & Hkeep).
  pose proof (wf_size_int v Hwf) as Hszint.
  destruct Hwf as [Hsz Hcap Hal Hinit].
  unfold vector_insert, mbind, M_bind, load_size, store_size.
  rewrite int_val_ok by (unfold INT_MIN; lia).
  rewrite Hext.
  rewrite get_element_ok by (unfold allocated; cbn [size elems]; lia).
  cbn [size].
  rewrite int_val_ok by (unfold INT_MIN; lia).
  rewrite int_val_ok by (unfold INT_MIN; lia).
  rewrite elem_ptr_ok by (unfold allocated; cbn [elems]; lia).
  rewrite memmove_ok by (unfold allocated; cbn [elems]; lia).
  rewrite store_elem_ok
    by (unfold allocated; cbn [elems]; rewrite length_inserts; lia).
  cbn [elems capacity size]. unfold block.
  replace (Z.to_nat (size v + 1 - i - 1))
    with (Z.to_nat (size v) - Z.to_nat i)%nat by lia.
  replace (Z.to_nat (i + 1)) with (S (Z.to_nat i)) by lia.
  assert (Hcontents :
    take (S (Z.to_nat (size v)))
      (<[Z.to_nat i := Some x]>
         (list_inserts (S (Z.to_nat i))
            (take (Z.to_nat (size v) - Z.to_nat i) (drop (Z.to_nat i) E)) E))
    = take (Z.to_nat i) (contents v)
      ++ Some x :: drop (Z.to_nat i) (contents v)).
  { rewrite shift_right by lia. rewrite Hkeep. f_equal.
    rewrite <- Hkeep, take_take. f_equal. lia. }
  eexists _, _. split; [reflexivity|].
  split; [|split; [reflexivity|split; [reflexivity|]]].
  - constructor; cbn [size capacity elems]; unfold allocated; cbn [elems].
    + destruct (capacity v <? size v + 1); lia.
    + destruct (capacity v <? size v + 1); lia.
    + rewrite length_insert, length_inserts. lia.
    + unfold contents at 1. cbn [size elems].
      replace (Z.to_nat (size v + 1)) with (S (Z.to_nat (size v))) by lia.
      rewrite Hcontents.
      destruct (forallb_take_drop initialised (contents v) (Z.to_nat i) Hinit)
        as [Ht Hd].
      rewrite forallb_app. cbn [forallb initialised]. now rewrite Ht, Hd.
  - unfold contents at 1. cbn [size elems].
    replace (Z.to_nat (size v + 1)) with (S (Z.to_nat (size v))) by lia.
    exact Hcontents.
Qed.

Lemma vector_remove_ok v i log :
  wf v -> 0 <= i < size v ->
  exists a v' log',
    vector_remove i v log = Returns a v' log'
    /\ wf v'
    /\ contents v !! Z.to_nat i = Some (Some a)
    /\ size v' = size v - 1
    /\ capacity v' = capacity v
    /\ contents v'
       = take (Z.to_nat i) (contents v) ++ drop (S (Z.to_nat i)) (contents v).
Proof.
  intros Hwf Hi.
  destruct (wf_slot v i Hwf Hi) as [a Ha].
  pose proof (wf_size_int v Hwf) as Hszint.
  pose proof (wf_size_allocated v Hwf) as Hszal.
  destruct Hwf as [Hsz Hcap Hal Hinit].
  unfold vector_remove, mbind, M_bind.
  rewrite get_element_ok by assumption.
  rewrite (load_elem_ok i a) by (assumption || lia).
  unfold load_size, store_size.
  rewrite int_val_ok by (unfold INT_MIN; lia).
  rewrite int_val_ok by (unfold INT_MIN; lia).
  rewrite elem_ptr_ok by lia.
  rewrite memmove_ok by lia.
  cbn [size].
  rewrite int_val_ok by (unfold INT_MIN; lia).
  cbn [elems capacity size]. unfold mret, M_ret, block.
  replace (Z.to_nat (size v - i - 1))
    with (Z.to_nat (size v) - Z.to_nat i - 1)%nat by lia.
  replace (Z.to_nat (i + 1)) with (S (Z.to_nat i)) by lia.
  assert (Hcontents :
    take (Z.to_nat (size v) - 1)
      (list_inserts (Z.to_nat i)
         (take (Z.to_nat (size v) - Z.to_nat i - 1) (drop (S (Z.to_nat i)) (elems v)))
         (elems v))
    = take (Z.to_nat i) (contents v) ++ drop (S (Z.to_nat i)) (contents v)).
  { unfold allocated in *. rewrite shift_left by lia. unfold contents. f_equal.
    rewrite take_take. f_equal. lia. }
  eexists _, _, _. split; [reflexivity|].
  split; [|split; [|split; [reflexivity|split; [reflexivity|]]]].
  - constructor; cbn [size capacity elems]; unfold allocated in *; cbn [elems].
    + lia.
    + lia.
    + rewrite length_inserts. lia.
    + unfold contents at 1. cbn [size elems].
      replace (Z.to_nat (size v - 1)) with (Z.to_nat (size v) - 1)%nat by lia.
      rewrite Hcontents.
      destruct (forallb_take_drop initialised (contents v) (Z.to_nat i) Hinit)
        as [Ht _].
      destruct (forallb_take_drop initialised (contents v) (S (Z.to_nat i)) Hinit)
        as [_ Hd].
      rewrite forallb_app. now rewrite Ht, Hd.
  - unfold contents. rewrite lookup_take_lt by lia. exact Ha.
  - unfold contents at 1. cbn [size elems].
    replace (Z.to_nat (size v - 1)) with (Z.to_nat (size v) - 1)%nat by lia.
    exact Hcontents.
Qed.

(** [vector_set] keeps the invariant. *)
Lemma wf_set v i x :
  wf v -> 0 <= i < size v ->
  wf (Vector (<[Z.to_nat i := Some x]> (elems v)) (capacity v) (size v)).
Proof.
  intros [Hsz Hcap Halloc Hinit] Hi.
  constructor; cbn [size capacity elems]; try assumption.
  - unfold allocated in *. cbn [elems]. now rewrite length_insert.
  - unfold contents in *. cbn [size elems].
    rewrite take_insert_lt by lia.
    apply forallb_forall. intros s Hs.
    apply list_elem_of_In, list_elem_of_lookup in Hs as [k Hk].
    apply list_lookup_insert_Some in Hk as [(_ & <- & _) | (_ & Hk)];
      [reflexivity|].
    rewrite forallb_forall in Hinit.
    apply Hinit, list_elem_of_In, list_elem_of_lookup. eauto.
Qed.

(** When the doubled capacity is not an [int], [vector_insert] has no defined
    outcome: either [size + 1] or [capacity * 2] overflows. *)
Lemma vector_insert_overflow v i x log :
  size v = capacity v -> INT_MAX < capacity v * 2 ->
  vector_insert i x v log = Undefined.
Proof.
  intros Heq Hbig. unfold vector_insert, mbind, M_bind, load_size.
  unfold int_val at 1. destruct (in_int (size v + 1)); [|reflexivity].
  unfold mret, M_ret, store_size, extend_if_necessary, mbind, M_bind,
    load_size, load_capacity.
  cbn [size capacity].
  rewrite (proj2 (Z.ltb_lt (capacity v) (size v + 1))) by lia.
  unfold int_val. destruct (in_int (capacity v * 2)) eqn:E; [|reflexivity].
  apply in_int_true in E. lia.
Qed.

Lemma fits_dec v : fits v \/ (size v = capacity v /\ INT_MAX < capacity v * 2).
Proof. unfold fits. lia. Qed.

(** [vector_pop] is [vector_remove] at [size - 1] once that index is an
    [int]. *)
Lemma vector_pop_unfold v log :
  INT_MIN <= size v - 1 <= INT_MAX ->
  vector_pop v log = vector_remove (size v - 1) v log.
Proof.
  intros H. unfold vector_pop, mbind at 1 2, M_bind at 1 2, load_size.
  now rewrite int_val_ok.
Qed.

Lemma vector_remove_fails v i log :
  0 <= size v <= INT_MAX -> INT_MIN <= i <= INT_MAX -> ~ (0 <= i < size v) ->
  vector_remove i v log = AssertionFailed log.
Proof.
  intros Hsz Hi Hout. unfold vector_remove, mbind at 1, M_bind at 1.
  now rewrite get_element_fails.
Qed.

End Execution.

(** ** Reading a well-formed container through [vector_get] *)

Section Observation.

Context {A : Type}.
Implicit Types (v : vector A) (x a : A) (i j : Z).

Lemma get_at_contents v j a :
  wf v -> 0 <= j < size v ->
  contents v !! Z.to_nat j = Some (Some a) -> get_at v j = Some a.
Proof.
  intros Hwf Hj Hlook. unfold get_at, run.
  unfold contents in Hlook. rewrite lookup_take_lt in Hlook by lia.
  now rewrite (vector_get_ok v j a).
Qed.

Lemma contents_slot v j :
  wf v -> 0 <= j < size v -> exists a, contents v !! Z.to_nat j = Some (Some a).
Proof.
  intros Hwf Hj. destruct (wf_slot v j Hwf Hj) as [a Ha].
  exists a. unfold contents. now rewrite lookup_take_lt by lia.
Qed.

Lemma length_contents v : wf v -> length (contents v) = Z.to_nat (size v).
Proof.
  intros Hwf. pose proof (wf_size_allocated v Hwf) as H.
  unfold contents, allocated in *. rewrite length_take. lia.
Qed.

(** Two well-formed containers that agree on a slot agree on what
    [vector_get] returns there. *)
Lemma get_at_transfer v v' j j' :
  wf v -> wf v' -> 0 <= j < size v -> 0 <= j' < size v' ->
  contents v' !! Z.to_nat j' = contents v !! Z.to_nat j ->
  exists a, get_at v j = Some a /\ get_at v' j' = Some a.
Proof.
  intros Hwf Hwf' Hj Hj' Heq.
  destruct (contents_slot v j Hwf Hj) as [a Ha].
  exists a. split; apply get_at_contents; congruence.
Qed.

End Observation.

(** ** The scenarios of the interface description, run on the model *)

Section Scenarios.

Local Open Scope string_scope.

Example scenario_push_get :
  observe (run (pushed_abc;; vector_get 1) vector_create)
  = Some ("b", 3, [Some "a"; Some "b"; Some "c"]).
Proof. vm_compute. reflexivity. Qed.

Example scenario_insert :
  observe (run (pushed_abc;; vector_insert 1 "x") vector_create)
  = Some (tt, 4, [Some "a"; Some "x"; Some "b"; Some "c"]).
Proof. vm_compute. reflexivity. Qed.

Example scenario_remove :
  observe (run (pushed_abc;; vector_insert 1 "x";; vector_remove 0) vector_create)
  = Some ("a", 3, [Some "x"; Some "b"; Some "c"]).
Proof. vm_compute. reflexivity. Qed.

(** [pop] and [get] on a fresh container stop at the assertion, and
    [in_bounds] says so beforehand. *)
Example scenario_empty :
  run vector_pop (@vector_create string) = AssertionFailed []
  /\ run (vector_get 0) (@vector_create string) = AssertionFailed []
  /\ run (vector_in_bounds 0) (@vector_create string)
     = Returns false vector_create [].
Proof. repeat split; vm_compute; reflexivity. Qed.

End Scenarios.

(** ** One operation at a time *)

Section Steps.

Context {A : Type}.
Implicit Types (v : vector A) (x a : A) (i j : Z) (o : op A).




(** Taking out at [i] what was just put in at [i]. *)
Lemma remove_after_insert v v' i x log :
  wf v -> 0 <= i <= size v -> wf v' -> size v' = size v + 1 ->
  contents v'
  = take (Z.to_nat i) (contents v) ++ Some x :: drop (Z.to_nat i) (contents v) ->
  exists v'' log',
    vector_remove i v' log = Returns x v'' log'
    /\ size v'' = size v /\ contents v'' = contents v.
Proof.
  intros Hwf Hi Hwf' Hsize Hc.
  destruct (vector_remove_ok v' i log Hwf' ltac:(lia))
    as (a & v'' & log' & Hrun & _ & Ha & Hsize' & _ & Hc').
  pose proof (length_contents v Hwf) as Hlen.
  assert (a = x) as ->.
  { rewrite Hc, lookup_app_r in Ha by (rewrite length_take; lia).
    rewrite length_take, Nat.min_l, Nat.sub_diag in Ha by lia.
    now injection Ha. }
  exists v'', log'. split; [assumption|]. split; [lia|].
  rewrite Hc', Hc. apply gap_round_trip. lia.
Qed.

End Steps.

(** * The claims *)

Section Claims.

Context {A : Type}.
Implicit Types (v : vector A) (x a : A) (i j : Z).

(** C1.  For a well-formed container [v] and an index [0 <= i <= size v]
    (with the doubled capacity, if doubling is due, representable as [int]),
    [vector_insert i x] returns and leaves a container whose size is one
    larger; [vector_get] gives the old handle at every index below [i], gives
    [x] at [i], and gives at [j + 1] the handle that was at [j], for every
    [i <= j < size v].  As lists: the new contents are the old ones with [x]
    put in at position [i]. *)
Theorem insert_shifts_right v i x :
  wf v -> 0 <= i <= size v -> fits v ->
  exists v' log,
    run (vector_insert i x) v = Returns tt v' log
    /\ size v' = size v + 1
    /\ (forall j, 0 <= j < i ->
          exists a, get_at v j = Some a /\ get_at v' j = Some a)
    /\ get_at v' i = Some x
    /\ (forall j, i <= j < size v ->
          exists a, get_at v j = Some a /\ get_at v' (j + 1) = Some a)
    /\ contents v'
       = take (Z.to_nat i) (contents v) ++ Some x :: drop (Z.to_nat i) (contents v).
Proof.
  intros Hwf Hi Hfits.
  destruct (vector_insert_ok v i x [] Hwf Hi Hfits)
    as (v' & log & Hrun & Hwf' & Hsize & _ & Hc).
  pose proof (length_contents v Hwf) as Hlen.
  assert (Htake : length (take (Z.to_nat i) (contents v)) = Z.to_nat i)
    by (rewrite length_take; lia).
  exists v', log. repeat split; try assumption.
  - intros j Hj. apply get_at_transfer; try assumption; try lia.
    rewrite Hc, lookup_app_l by lia. now rewrite lookup_take_lt by lia.
  - apply get_at_contents; [assumption | lia |].
    rewrite Hc, lookup_app_r by lia. now rewrite Htake, Nat.sub_diag.
  - intros j Hj. apply get_at_transfer; try assumption; try lia.
    rewrite Hc, lookup_app_r by lia. rewrite Htake.
    rewrite lookup_cons_ne_0, lookup_drop by lia. f_equal. lia.
Qed.

(** C2.  For a well-formed container [v] and an index [0 <= i < size v],
    [vector_remove i] returns the handle [vector_get] gave at [i], makes the
    size one smaller, keeps every handle below [i] in place and moves the
    handle at each [i < j < size v] to [j - 1].  As lists: the new contents are
    the old ones without position [i]. *)
Theorem remove_shifts_left v i :
  wf v -> 0 <= i < size v ->
  exists a v' log,
    run (vector_remove i) v = Returns a v' log
    /\ get_at v i = Some a
    /\ size v' = size v - 1
    /\ (forall j, 0 <= j < i ->
          exists b, get_at v j = Some b /\ get_at v' j = Some b)
    /\ (forall j, i < j < size v ->
          exists b, get_at v j = Some b /\ get_at v' (j - 1) = Some b)
    /\ contents v'
       = take (Z.to_nat i) (contents v) ++ drop (S (Z.to_nat i)) (contents v).
Proof.
  intros Hwf Hi.
  destruct (vector_remove_ok v i [] Hwf Hi)
    as (a & v' & log & Hrun & Hwf' & Ha & Hsize & _ & Hc).
  pose proof (length_contents v Hwf) as Hlen.
  assert (Htake : length (take (Z.to_nat i) (contents v)) = Z.to_nat i)
    by (rewrite length_take; lia).
  exists a, v', log. repeat split; try assumption.
  - now apply get_at_contents.
  - intros j Hj. apply get_at_transfer; try assumption; try lia.
    rewrite Hc, lookup_app_l by lia. now rewrite lookup_take_lt by lia.
  - intros j Hj. apply get_at_transfer; try assumption; try lia.
    rewrite Hc, lookup_app_r by lia. rewrite Htake, lookup_drop.
    f_equal. lia.
Qed.

(** C3.  For a container whose size is a non-negative [int] and for every
    [int] index [i], negative or not, [vector_in_bounds i] returns [true]
    exactly when [0 <= i < size v]; it touches neither the record nor any
    slot. *)
Theorem in_bounds_iff v i :
  0 <= size v <= INT_MAX -> INT_MIN <= i <= INT_MAX ->
  exists b,
    run (vector_in_bounds i) v = Returns b v []
    /\ (b = true <-> 0 <= i < size v).
Proof.
  intros Hsz Hi. eexists. split; [reflexivity|].
  now apply unsigned_lt_iff.
Qed.

(** C4, as amended.  For a container whose size is a non-negative [int],
    [vector_in_bounds] returns [false] at every negative index: converted to
    [size_t], a negative [int] is at least [2^64 - 2^31], above any size. *)
Theorem in_bounds_rejects_negative v i :
  0 <= size v <= INT_MAX -> INT_MIN <= i < 0 ->
  run (vector_in_bounds i) v = Returns false v [].
Proof.
  intros Hsz Hi. unfold run, vector_in_bounds, mbind, M_bind, load_size, mret, M_ret.
  f_equal. apply not_true_is_false. intros Htrue.
  apply unsigned_lt_iff in Htrue; unfold INT_MAX in *; lia.
Qed.

(** C9.  For a well-formed container [v] and an index [0 <= i < size v],
    [vector_set i x] returns after writing slot [i] and nothing else: size and
    capacity are the same, every other slot of the backing store is the same
    (so [vector_get] is unchanged at every other valid index), and
    [vector_get i] now gives [x]. *)
Theorem set_overwrites_one_slot v i x :
  wf v -> 0 <= i < size v ->
  exists v',
    run (vector_set i x) v = Returns tt v' [Write i]
    /\ size v' = size v
    /\ capacity v' = capacity v
    /\ (forall k : nat, k <> Z.to_nat i -> elems v' !! k = elems v !! k)
    /\ (forall j, 0 <= j < size v -> j <> i -> get_at v' j = get_at v j)
    /\ get_at v' i = Some x
    /\ run (vector_get i) v' = Returns x v' [Read i].
Proof.
  intros Hwf Hi.
  pose proof (wf_size_allocated v Hwf) as Hal.
  eexists. split; [unfold run; now rewrite vector_set_ok|].
  cbn [size capacity elems].
  assert (Hi' : elems (Vector (<[Z.to_nat i:=Some x]> (elems v)) (capacity v) (size v))
                !! Z.to_nat i = Some (Some x)).
  { cbn [elems]. apply list_lookup_insert_eq. unfold allocated in Hal. lia. }
  pose proof (wf_set v i x Hwf Hi) as Hwf'.
  repeat split.
  - intros k Hk. apply list_lookup_insert_ne. lia.
  - intros j Hj Hne. unfold get_at, run, vector_get, mbind, M_bind.
    rewrite !get_element_ok
      by (cbn [size elems]; unfold allocated in *; cbn [elems];
          rewrite ?length_insert; auto using wf_size_int; lia).
    unfold load_elem, allocated. cbn [elems].
    rewrite length_insert, list_lookup_insert_ne by lia.
    destruct ((0 <=? j) && (j <? Z.of_nat (length (elems v)))); [|reflexivity].
    destruct (elems v !! Z.to_nat j) as [[a|]|]; reflexivity.
  - unfold get_at, run. now rewrite (vector_get_ok _ i x).
  - unfold run. now rewrite (vector_get_ok _ i x).
Qed.



(** C7.  On every record, [vector_push x] has the outcome of
    [vector_insert (size v) x]: same final record, same accesses.  On a
    well-formed non-empty container, [vector_pop] has the outcome of
    [vector_remove (size v - 1)], and that outcome is a returned handle. *)
Theorem push_pop_delegate v x :
  wf v ->
  run (vector_push x) v = run (vector_insert (size v) x) v
  /\ (fits v -> exists v' log, run (vector_push x) v = Returns tt v' log)
  /\ (0 < size v ->
      run vector_pop v = run (vector_remove (size v - 1)) v
      /\ exists a v' log, run vector_pop v = Returns a v' log).
Proof.
  intros Hwf. pose proof (wf_size_int v Hwf) as Hszint.
  split; [reflexivity|]. split.
  - intros Hfits.
    destruct (vector_insert_ok v (size v) x [] Hwf ltac:(lia) Hfits)
      as (v' & log & Hrun & _).
    now exists v', log.
  - intros Hpos. unfold run.
    rewrite vector_pop_unfold by (unfold INT_MIN; lia).
    split; [reflexivity|].
    destruct (vector_remove_ok v (size v - 1) [] Hwf ltac:(lia))
      as (a & v' & log & Hrun & _).
    now exists a, v', log.
Qed.

(** C8.  On a well-formed container, [vector_insert i x] followed at once by
    [vector_remove i] returns [x] and ends with the size and the contents it
    started from; so does [vector_push x] followed by [vector_pop]. *)
Theorem insert_remove_round_trip v i x :
  wf v -> 0 <= i <= size v -> fits v ->
  (exists v' log,
     run (vector_insert i x;; vector_remove i) v = Returns x v' log
     /\ size v' = size v /\ contents v' = contents v)
  /\ (exists v' log,
        run (vector_push x;; vector_pop) v = Returns x v' log
        /\ size v' = size v /\ contents v' = contents v).
Proof.
  intros Hwf Hi Hfits. pose proof (wf_size_int v Hwf) as Hszint. split.
  - destruct (vector_insert_ok v i x [] Hwf Hi Hfits)
      as (w & l & Hw & Hwfw & Hsz & _ & Hc).
    unfold run, mbind, M_bind. rewrite Hw.
    now apply remove_after_insert.
  - destruct (vector_insert_ok v (size v) x [] Hwf ltac:(lia) Hfits)
      as (w & l & Hw & Hwfw & Hsz & _ & Hc).
    unfold run, mbind at 1, M_bind at 1.
    change (vector_push x v []) with (vector_insert (size v) x v []).
    rewrite Hw.
    rewrite vector_pop_unfold by (unfold INT_MIN; lia).
    replace (size w - 1) with (size v) by lia.
    apply remove_after_insert; (assumption || lia).
Qed.

(** C10.  On a well-formed container:
    - under its precondition, no call of [vector_get], [vector_set],
      [vector_insert], [vector_remove], [vector_push] or [vector_pop] fails
      the assertion of [get_element]; the first, second, fourth and sixth
      return, and so do the other two when a doubling that is due stays
      within [int];
    - [vector_get], [vector_set] and [vector_remove] at an [int] index
      outside [0, size), and [vector_pop] on an empty container, fail that
      assertion with no slot read or written. *)
Theorem assertion_guards_accesses v :
  wf v ->
  (forall i, 0 <= i < size v ->
     (exists a log, run (vector_get i) v = Returns a v log)
     /\ (forall x, exists v' log, run (vector_set i x) v = Returns tt v' log)
     /\ (exists a v' log, run (vector_remove i) v = Returns a v' log))
  /\ (0 < size v -> exists a v' log, run vector_pop v = Returns a v' log)
  /\ (forall i x log, 0 <= i <= size v ->
        run (vector_insert i x) v <> AssertionFailed log
        /\ run (vector_push x) v <> AssertionFailed log)
  /\ (fits v -> forall i x, 0 <= i <= size v ->
        (exists v' log, run (vector_insert i x) v = Returns tt v' log)
        /\ (exists v' log, run (vector_push x) v = Returns tt v' log))
  /\ (forall i, INT_MIN <= i <= INT_MAX -> ~ (0 <= i < size v) ->
        run (vector_get i) v = AssertionFailed []
        /\ (forall x, run (vector_set i x) v = AssertionFailed [])
        /\ run (vector_remove i) v = AssertionFailed [])
  /\ (size v = 0 -> run vector_pop v = AssertionFailed []).
Proof.
  intros Hwf. pose proof (wf_size_int v Hwf) as Hszint.
  assert (Hins : forall i x log, 0 <= i <= size v ->
            vector_insert i x v [] <> AssertionFailed log).
  { intros i x log Hi.
    destruct (fits_dec v) as [Hfits | [Heq Hbig]].
    - destruct (vector_insert_ok v i x [] Hwf Hi Hfits) as (w & l & Hw & _).
      now rewrite Hw.
    - now rewrite vector_insert_overflow. }
  unfold run. repeat apply conj.
  - intros i Hi. repeat apply conj.
    + destruct (wf_slot v i Hwf Hi) as [a Ha].
      exists a. eexists. now apply vector_get_ok.
    + intros x. eexists _, _. now apply vector_set_ok.
    + destruct (vector_remove_ok v i [] Hwf Hi) as (a & w & l & Hw & _).
      now exists a, w, l.
  - intros Hpos. rewrite vector_pop_unfold by (unfold INT_MIN; lia).
    destruct (vector_remove_ok v (size v - 1) [] Hwf ltac:(lia))
      as (a & w & l & Hw & _).
    now exists a, w, l.
  - intros i x log Hi. split; [now apply Hins|].
    change (vector_push x v []) with (vector_insert (size v) x v []).
    apply Hins. lia.
  - intros Hfits i x Hi. split.
    + destruct (vector_insert_ok v i x [] Hwf Hi Hfits) as (w & l & Hw & _).
      now exists w, l.
    + destruct (vector_insert_ok v (size v) x [] Hwf ltac:(lia) Hfits)
        as (w & l & Hw & _).
      now exists w, l.
  - intros i Hi Hout. repeat apply conj.
    + unfold vector_get, mbind, M_bind. now rewrite get_element_fails.
    + intros x. unfold vector_set, mbind, M_bind. now rewrite get_element_fails.
    + now apply vector_remove_fails.
  - intros Hempty. rewrite vector_pop_unfold by (unfold INT_MIN, INT_MAX; lia).
    apply vector_remove_fails; unfold INT_MIN, INT_MAX in *; lia.
Qed.

End Claims.

(** * The claims at concrete containers *)

Lemma wf_three : wf three.
Proof. apply wfb_sound. reflexivity. Defined.


Lemma fits_three : fits three.
Proof. unfold fits, three. cbn. lia. Defined.

Lemma fits_full : fits full.
Proof. unfold fits, full, INT_MAX. cbn. lia. Defined.


Lemma insert_shifts_right_witness :
  wf three /\ 0 <= 1 <= size three /\ fits three
  /\ exists v' log,
       run (vector_insert 1 99) three = Returns tt v' log
       /\ size v' = size three + 1
       /\ get_at v' 1 = Some 99
       /\ contents v'
          = take (Z.to_nat 1) (contents three)
            ++ Some 99 :: drop (Z.to_nat 1) (contents three).
Proof.
  assert (Hi : 0 <= 1 <= size three) by (cbn; lia).
  split; [exact wf_three | split; [exact Hi | split; [exact fits_three |]]].
  destruct (insert_shifts_right three 1 99 wf_three Hi fits_three)
    as (v' & log & Hrun & Hsize & _ & Hat & _ & Hc).
  exists v', log. auto.
Defined.

Lemma remove_shifts_left_witness :
  wf three /\ 0 <= 0 < size three
  /\ exists a v' log,
       run (vector_remove 0) three = Returns a v' log
       /\ get_at three 0 = Some a
       /\ size v' = size three - 1
       /\ contents v'
          = take (Z.to_nat 0) (contents three)
            ++ drop (S (Z.to_nat 0)) (contents three).
Proof.
  assert (Hi : 0 <= 0 < size three) by (cbn; lia).
  split; [exact wf_three | split; [exact Hi |]].
  destruct (remove_shifts_left three 0 wf_three Hi)
    as (a & v' & log & Hrun & Hat & Hsize & _ & _ & Hc).
  exists a, v', log. auto.
Defined.

Lemma in_bounds_iff_witness :
  0 <= size three <= INT_MAX /\ INT_MIN <= -1 <= INT_MAX
  /\ exists b,
       run (vector_in_bounds (-1)) three = Returns b three []
       /\ (b = true <-> 0 <= -1 < size three).
Proof.
  assert (Hsz : 0 <= size three <= INT_MAX) by (unfold INT_MAX; cbn; lia).
  assert (Hi : INT_MIN <= -1 <= INT_MAX) by (unfold INT_MIN, INT_MAX; lia).
  split; [exact Hsz | split; [exact Hi |]].
  exact (in_bounds_iff three (-1) Hsz Hi).
Defined.

(** C4, as stated ("for some container and some negative index the check
    returns true"), fails: no well-formed container and no negative [int]
    index make [vector_in_bounds] return [true]. *)
Lemma in_bounds_accepts_no_negative :
  ~ exists (v : vector Z) (i : Z),
      wf v /\ INT_MIN <= i < 0
      /\ exists v' log, run (vector_in_bounds i) v = Returns true v' log.
Proof.
  intros (v & i & Hwf & Hi & v' & log & Hrun).
  unfold run, vector_in_bounds, mbind, M_bind, load_size, mret, M_ret in Hrun.
  injection Hrun as Htrue _ _.
  pose proof (wf_size_int v Hwf) as Hsz.
  apply unsigned_lt_iff in Htrue; unfold INT_MAX in *; lia.
Qed.

Lemma in_bounds_rejects_negative_witness :
  0 <= size three <= INT_MAX /\ INT_MIN <= -1 < 0
  /\ run (vector_in_bounds (-1)) three = Returns false three [].
Proof.
  assert (Hsz : 0 <= size three <= INT_MAX) by (unfold INT_MAX; cbn; lia).
  assert (Hi : INT_MIN <= -1 < 0) by (unfold INT_MIN; lia).
  split; [exact Hsz | split; [exact Hi |]].
  exact (in_bounds_rejects_negative three (-1) Hsz Hi).
Defined.



Lemma push_pop_delegate_witness :
  wf three
  /\ run (vector_push 40) three = run (vector_insert (size three) 40) three
  /\ (fits three -> exists v' log, run (vector_push 40) three = Returns tt v' log)
  /\ (0 < size three ->
      run vector_pop three = run (vector_remove (size three - 1)) three
      /\ exists a v' log, run vector_pop three = Returns a v' log).
Proof.
  split; [exact wf_three |].
  exact (push_pop_delegate three 40 wf_three).
Defined.

Lemma insert_remove_round_trip_witness :
  wf three /\ 0 <= 1 <= size three /\ fits three
  /\ (exists v' log,
        run (vector_insert 1 99;; vector_remove 1) three = Returns 99 v' log
        /\ size v' = size three /\ contents v' = contents three)
  /\ (exists v' log,
        run (vector_push 99;; vector_pop) three = Returns 99 v' log
        /\ size v' = size three /\ contents v' = contents three).
Proof.
  assert (Hi : 0 <= 1 <= size three) by (cbn; lia).
  split; [exact wf_three | split; [exact Hi | split; [exact fits_three |]]].
  exact (insert_remove_round_trip three 1 99 wf_three Hi fits_three).
Defined.

Lemma set_overwrites_one_slot_witness :
  wf three /\ 0 <= 1 < size three
  /\ exists v',
       run (vector_set 1 99) three = Returns tt v' [Write 1]
       /\ size v' = size three
       /\ capacity v' = capacity three
       /\ get_at v' 1 = Some 99.
Proof.
  assert (Hi : 0 <= 1 < size three) by (cbn; lia).
  split; [exact wf_three | split; [exact Hi |]].
  destruct (set_overwrites_one_slot three 1 99 wf_three Hi)
    as (v' & Hrun & Hsize & Hcap & _ & _ & Hat & _).
  exists v'. auto.
Defined.

Lemma assertion_guards_accesses_witness :
  wf three
  /\ (exists a log, run (vector_get 2) three = Returns a three log)
  /\ run (vector_get 3) three = AssertionFailed []
  /\ run (vector_get (-1)) three = AssertionFailed []
  /\ (forall x, run (vector_set (-1) x) three = AssertionFailed [])
  /\ run (vector_remove 3) three = AssertionFailed [].
Proof.
  split; [exact wf_three |].
  destruct (assertion_guards_accesses three wf_three)
    as (Hin & _ & _ & _ & Hout & _).
  destruct (Hin 2 ltac:(cbn; lia)) as (Hget & _ & _).
  destruct (Hout 3 ltac:(unfold INT_MIN, INT_MAX; lia) ltac:(cbn; lia))
    as (Hget3 & _ & Hrem3).
  destruct (Hout (-1) ltac:(unfold INT_MIN, INT_MAX; lia) ltac:(cbn; lia))
    as (Hgetm & Hsetm & _).
  auto 6.
Defined.

(** * Further properties of [vector.c] *)

Section Footprints.

Context {A : Type}.
Implicit Types (v : vector A) (x a : A) (i j : Z) (log : list access).

(** The store [vector_insert] works on once [extend_if_necessary] is done. *)
Lemma vector_insert_exact v i x log :
  wf v -> 0 <= i <= size v -> fits v ->
  let E := if capacity v <? size v + 1
           then resize (Z.to_nat (capacity v * 2)) None (elems v)
           else elems v in
  vector_insert i x v log
  = Returns tt
      (Vector (<[Z.to_nat i := Some x]>
                 (list_inserts (Z.to_nat (i + 1)) (block E i (size v - i)) E))
              (if capacity v <? size v + 1 then capacity v * 2 else capacity v)
              (size v + 1))
      (((log ++ (Read <$> seqZ i (size v - i)) ++ (Write <$> seqZ (i + 1) (size v - i))))
       ++ [Write i]).
Proof.
  intros Hwf Hi Hfits E.
  pose proof (wf_size_int v Hwf) as Hszint.
  pose proof (wf_size v Hwf) as Hsz. pose proof (wf_capacity v Hwf) as Hcap.
  pose proof (wf_allocated v Hwf) as Hal. unfold allocated in Hal.
  assert (HE : size v + 1 <= Z.of_nat (length E) <= INT_MAX).
  { subst E. destruct (Z.ltb_spec (capacity v) (size v + 1)).
    - rewrite length_resize. unfold fits in Hfits. lia.
    - lia. }
  assert (Hext : extend_if_necessary (Vector (elems v) (capacity v) (size v + 1)) log
                 = Returns tt
                     (Vector E (if capacity v <? size v + 1
                                then capacity v * 2 else capacity v) (size v + 1))
                     log).
  { subst E. destruct (Z.ltb_spec (capacity v) (size v + 1)).
    - now rewrite extend_if_necessary_grows
        by (cbn [capacity size]; unfold fits in Hfits; lia).
    - now rewrite extend_if_necessary_stays by (cbn [capacity size]; lia). }
  unfold vector_insert, mbind, M_bind, load_size, store_size.
  rewrite int_val_ok by (unfold INT_MIN; lia).
  rewrite Hext.
  rewrite get_element_ok by (unfold allocated; cbn [size elems]; lia).
  cbn [size].
  rewrite int_val_ok by (unfold INT_MIN; lia).
  rewrite int_val_ok by (unfold INT_MIN; lia).
  rewrite elem_ptr_ok by (unfold allocated; cbn [elems]; lia).
  rewrite memmove_ok by (unfold allocated; cbn [elems]; lia).
  rewrite store_elem_ok
    by (unfold allocated; cbn [elems]; rewrite length_inserts; lia).
  cbn [elems capacity size].
  replace (size v + 1 - i - 1) with (size v - i) by lia.
  reflexivity.
Qed.

Lemma vector_remove_exact v i a log :
  wf v -> 0 <= i < size v -> elems v !! Z.to_nat i = Some (Some a) ->
  vector_remove i v log
  = Returns a
      (Vector (list_inserts (Z.to_nat i)
                 (block (elems v) (i + 1) (size v - i - 1)) (elems v))
              (capacity v) (size v - 1))
      ((log ++ [Read i])
       ++ (Read <$> seqZ (i + 1) (size v - i - 1))
       ++ (Write <$> seqZ i (size v - i - 1))).
Proof.
  intros Hwf Hi Ha.
  pose proof (wf_size_int v Hwf) as Hszint.
  pose proof (wf_size_allocated v Hwf) as Hszal.
  unfold vector_remove, mbind, M_bind.
  rewrite get_element_ok by assumption.
  rewrite (load_elem_ok i a) by (assumption || lia).
  unfold load_size, store_size.
  rewrite int_val_ok by (unfold INT_MIN; lia).
  rewrite int_val_ok by (unfold INT_MIN; lia).
  rewrite elem_ptr_ok by lia.
  rewrite memmove_ok by lia.
  cbn [size].
  rewrite int_val_ok by (unfold INT_MIN; lia).
  reflexivity.
Qed.

Lemma slot_of_reads (start len : Z) (lo hi : Z) :
  lo <= start -> start + len <= hi ->
  Forall (fun e : access => lo <= slot_of e < hi) (Read <$> seqZ start len).
Proof.
  intros Hlo Hhi. apply Forall_fmap, Forall_forall. intros z Hz.
  apply elem_of_seqZ in Hz. cbn. lia.
Qed.

Lemma slot_of_writes (start len : Z) (lo hi : Z) :
  lo <= start -> start + len <= hi ->
  Forall (fun e : access => lo <= slot_of e < hi) (Write <$> seqZ start len).
Proof.
  intros Hlo Hhi. apply Forall_fmap, Forall_forall. intros z Hz.
  apply elem_of_seqZ in Hz. cbn. lia.
Qed.

(** X1.  On a well-formed container, [vector_insert i x] (index valid, a due
    doubling within [int]) reads the slots [i .. size-1], then writes the slots
    [i+1 .. size], then writes slot [i], and touches no other slot: nothing
    below [i], nothing at or beyond the new size. *)
Theorem insert_footprint v i x :
  wf v -> 0 <= i <= size v -> fits v ->
  exists v' log,
    run (vector_insert i x) v = Returns tt v' log
    /\ log = (Read <$> seqZ i (size v - i))
             ++ (Write <$> seqZ (i + 1) (size v - i)) ++ [Write i]
    /\ Forall (fun e : access => i <= slot_of e < size v') log.
Proof.
  intros Hwf Hi Hfits. unfold run.
  rewrite vector_insert_exact by assumption. cbv zeta.
  eexists _, _. split; [reflexivity|]. cbn [size].
  split; [now rewrite app_nil_l, <- app_assoc|].
  rewrite app_nil_l. repeat apply Forall_app_2.
  - apply slot_of_reads; lia.
  - apply slot_of_writes; lia.
  - repeat constructor; cbn; lia.
Qed.

(** X2.  On a well-formed container, [vector_remove i] (index valid) reads
    slot [i], then the slots [i+1 .. size-1], then writes the slots
    [i .. size-2], and touches no other slot.  The last slot in use is not
    written: it keeps the handle it held, now beyond the new size. *)
Theorem remove_footprint v i :
  wf v -> 0 <= i < size v ->
  exists a v' log,
    run (vector_remove i) v = Returns a v' log
    /\ log = [Read i] ++ (Read <$> seqZ (i + 1) (size v - i - 1))
             ++ (Write <$> seqZ i (size v - i - 1))
    /\ Forall (fun e : access => i <= slot_of e < size v) log
    /\ elems v' !! Z.to_nat (size v - 1) = elems v !! Z.to_nat (size v - 1).
Proof.
  intros Hwf Hi. unfold run.
  destruct (wf_slot v i Hwf Hi) as [a Ha].
  pose proof (wf_size_allocated v Hwf) as Hal. unfold allocated in Hal.
  rewrite (vector_remove_exact v i a) by assumption.
  eexists _, _, _. split; [reflexivity|].
  split; [now rewrite app_nil_l|]. split.
  - rewrite app_nil_l. repeat apply Forall_app_2.
    + repeat constructor; cbn; lia.
    + apply slot_of_reads; lia.
    + apply slot_of_writes; lia.
  - cbn [elems]. apply list_lookup_inserts_ge.
    unfold block. rewrite length_take, length_drop. lia.
Qed.

(** X3.  On a well-formed container, taking the handle at a valid index [i]
    out with [vector_remove] and putting it back with [vector_insert] at [i]
    gives back the very same record: size, capacity and every slot of the
    backing store, the unused ones included. *)
Theorem remove_insert_restores v i :
  wf v -> 0 <= i < size v ->
  exists log,
    run (a ← vector_remove i; vector_insert i a) v = Returns tt v log.
Proof.
  intros Hwf Hi. unfold run, mbind at 1, M_bind at 1.
  destruct (wf_slot v i Hwf Hi) as [a Ha].
  pose proof (wf_size v Hwf) as Hsz.
  pose proof (wf_allocated v Hwf) as Hal. unfold allocated in Hal.
  destruct (vector_remove_ok v i [] Hwf Hi)
    as (a' & v1 & log1 & Hrun & Hwf1 & _).
  rewrite (vector_remove_exact v i a) in Hrun |- * by assumption.
  injection Hrun as <- <- <-.
  rewrite vector_insert_exact
    by (unfold fits; cbn [size capacity elems]; (assumption || lia)).
  cbv zeta. cbn [size capacity elems].
  rewrite (proj2 (Z.ltb_ge (capacity v) (size v - 1 + 1))) by lia.
  eexists. f_equal. destruct v as [E c n]. cbn [size capacity elems] in *.
  f_equal; [|lia]. unfold block.
  replace (Z.to_nat (i + 1)) with (S (Z.to_nat i)) by lia.
  replace (Z.to_nat (n - i - 1)) with (Z.to_nat n - Z.to_nat i - 1)%nat by lia.
  replace (Z.to_nat (n - 1 - i)) with (Z.to_nat n - 1 - Z.to_nat i)%nat by lia.
  apply shift_left_right; [lia | assumption].
Qed.

End Footprints.

Section Growth.

Context {A : Type}.
Implicit Types (v : vector A) (x a : A) (i j : Z) (log : list access)
  (o : op A).

Lemma power_of_two_double n : power_of_two n -> power_of_two (n * 2).
Proof.
  intros (k & Hk & ->). exists (k + 1). split; [lia|].
  rewrite Z.pow_add_r by lia. lia.
Qed.

Lemma power_of_two_pos n : power_of_two n -> 1 <= n.
Proof. intros (k & Hk & ->). pose proof (Z.pow_pos_nonneg 2 k). lia. Qed.

(** Below [2^30] elements a doubling always stays within [int]. *)
Lemma fits_below_limit v : wf v -> size v < 1073741824 -> fits v.
Proof. intros Hwf Hlt Heq. unfold INT_MAX. lia. Qed.

(** A push on a container whose capacity is a power of two, below twice the
    size. *)
Lemma push_keeps_tight v x log :
  wf v -> power_of_two (capacity v) -> capacity v < 2 * Z.max 1 (size v) ->
  size v < 1073741824 ->
  exists v' log',
    vector_push x v log = Returns tt v' log'
    /\ wf v' /\ power_of_two (capacity v')
    /\ capacity v' < 2 * Z.max 1 (size v')
    /\ size v' = size v + 1
    /\ contents v' = contents v ++ [Some x].
Proof.
  intros Hwf Hpow Htight Hlt.
  pose proof (wf_size v Hwf) as Hsz.
  pose proof (length_contents v Hwf) as Hlen.
  destruct (vector_insert_ok v (size v) x log Hwf ltac:(lia)
              (fits_below_limit v Hwf Hlt))
    as (v' & log' & Hrun & Hwf' & Hsize & Hcap & Hc).
  exists v', log'. split; [exact Hrun|]. split; [assumption|].
  rewrite Hcap, Hsize.
  destruct (Z.ltb_spec (capacity v) (size v + 1)).
  - split; [now apply power_of_two_double|]. split; [lia|]. split; [reflexivity|].
    rewrite Hc, take_ge, drop_ge by lia. reflexivity.
  - split; [assumption|]. split; [lia|]. split; [reflexivity|].
    rewrite Hc, take_ge, drop_ge by lia. reflexivity.
Qed.





(** X6.  On a well-formed container and at valid indices, a second
    [vector_set] at the same index makes the first one unobservable, and two
    [vector_set]s at different indices give the same record in either
    order. *)
Theorem set_twice v i j x y :
  wf v -> 0 <= i < size v -> 0 <= j < size v ->
  (exists v',
     run (vector_set i x;; vector_set i y) v = Returns tt v' [Write i; Write i]
     /\ run (vector_set i y) v = Returns tt v' [Write i])
  /\ (i <> j ->
      exists v',
        run (vector_set i x;; vector_set j y) v = Returns tt v' [Write i; Write j]
        /\ run (vector_set j y;; vector_set i x) v = Returns tt v' [Write j; Write i]).
Proof.
  intros Hwf Hi Hj. unfold run, mbind, M_bind. split.
  - rewrite (vector_set_ok v i y), (vector_set_ok v i x) by assumption.
    rewrite vector_set_ok by (try apply wf_set; assumption).
    cbn [elems capacity size]. rewrite list_insert_insert_eq.
    eexists. split; reflexivity.
  - intros Hne.
    rewrite (vector_set_ok v i x), (vector_set_ok v j y) by assumption.
    rewrite !vector_set_ok by (try apply wf_set; assumption).
    cbn [elems capacity size].
    rewrite (list_insert_insert_ne _ (Z.to_nat j) (Z.to_nat i)) by lia.
    eexists. split; reflexivity.
Qed.

(** X7.  On a well-formed container (a due doubling within [int]),
    [vector_insert] at an [int] index below 0 or above the size fails the
    assertion of [get_element] before any slot is read or written. *)
Theorem insert_out_of_range v i x :
  wf v -> fits v -> INT_MIN <= i <= INT_MAX -> ~ (0 <= i <= size v) ->
  run (vector_insert i x) v = AssertionFailed [].
Proof.
  intros Hwf Hfits Hi Hout.
  destruct (extend_for_insert v [] Hwf Hfits) as (E & Hext & Hlen & Hbig & _).
  pose proof (wf_size_int v Hwf) as Hszint.
  unfold run, vector_insert, mbind, M_bind, load_size, store_size.
  rewrite int_val_ok by (unfold INT_MIN; lia).
  rewrite Hext.
  now rewrite get_element_fails by (cbn [size]; lia).
Qed.

(** X8.  On a record that is full with a capacity above [INT_MAX / 2]
    (from [2^30] slots on), [vector_insert] and [vector_push] have no defined
    outcome: [size + 1] or [capacity * 2] overflows [int]. *)
Theorem insert_beyond_limit v :
  size v = capacity v -> INT_MAX < capacity v * 2 ->
  forall i x,
    run (vector_insert i x) v = Undefined /\ run (vector_push x) v = Undefined.
Proof.
  intros Heq Hbig i x. unfold run. split.
  - now apply vector_insert_overflow.
  - change (vector_push x v []) with (vector_insert (size v) x v []).
    now apply vector_insert_overflow.
Qed.

(** Pushing reaches every size up to [2^30], with the capacity a power of two
    below twice the size. *)
Lemma reachable_sizes (x : A) (n : nat) :
  Z.of_nat n <= 1073741824 ->
  exists v,
    reachable v /\ wf v /\ power_of_two (capacity v)
    /\ capacity v < 2 * Z.max 1 (size v) /\ size v = Z.of_nat n.
Proof.
  induction n as [| n IH]; intros Hn.
  - exists vector_create. split; [constructor|]. split; [apply wf_create|].
    split; [exists 0; split; [lia | reflexivity]|]. cbn. lia.
  - destruct (IH ltac:(lia)) as (v & Hreach & Hwf & Hpow & Htight & Hsize).
    destruct (push_keeps_tight v x [] Hwf Hpow Htight ltac:(lia))
      as (v' & log' & Hrun & Hwf' & Hpow' & Htight' & Hsize' & _).
    exists v'. split.
    { apply (reach_step v (OpPush x) v' Hreach).
      split; [exact I | exists log'; exact Hrun]. }
    split; [assumption|]. split; [assumption|]. split; [assumption | lia].
Qed.

(** So a full container of [2^30] handles is reachable; its capacity cannot
    be doubled within [int]. *)
Lemma reachable_limit (x : A) :
  exists v,
    reachable v /\ wf v /\ size v = capacity v /\ INT_MAX < capacity v * 2.
Proof.
  destruct (reachable_sizes x (Z.to_nat 1073741824) ltac:(lia))
    as (v & Hreach & Hwf & (k & Hk & Hcap) & Htight & Hsize).
  exists v. split; [assumption|]. split; [assumption|].
  pose proof (wf_size v Hwf) as Hsz.
  assert (Hk30 : k = 30).
  { destruct (Z.le_gt_cases 31 k) as [Hbig | Hsmall].
    - pose proof (Z.pow_le_mono_r 2 31 k ltac:(lia) Hbig) as Hpow.
      change (2 ^ 31) with 2147483648 in Hpow. lia.
    - destruct (Z.le_gt_cases k 29) as [Hlow | Hhigh]; [|lia].
      pose proof (Z.pow_le_mono_r 2 k 29 ltac:(lia) Hlow) as Hpow.
      change (2 ^ 29) with 536870912 in Hpow. lia. }
  subst k. change (2 ^ 30) with 1073741824 in Hcap.
  unfold INT_MAX. lia.
Qed.

End Growth.

(** ** The claims at the limit of [int]

    Without the bound on the capacity, what C1, C5 and C8 say fails on a
    container that 2^30 pushes reach. *)

(** C1, without the bound: it is not so that [vector_insert] at a valid index
    returns and shifts on every reachable, well-formed container. *)
Lemma insert_at_limit_undefined :
  ~ (forall (v : vector Z) (i x : Z),
       reachable v -> wf v -> 0 <= i <= size v ->
       exists v' log,
         run (vector_insert i x) v = Returns tt v' log
         /\ size v' = size v + 1
         /\ (forall j, 0 <= j < i ->
               exists a, get_at v j = Some a /\ get_at v' j = Some a)
         /\ get_at v' i = Some x
         /\ (forall j, i <= j < size v ->
               exists a, get_at v j = Some a /\ get_at v' (j + 1) = Some a)
         /\ contents v'
            = take (Z.to_nat i) (contents v)
              ++ Some x :: drop (Z.to_nat i) (contents v)).
Proof.
  intros Hclaim.
  destruct (reachable_limit 0) as (v & Hreach & Hwf & Hfull & Hbig).
  pose proof (wf_size v Hwf) as Hsz.
  destruct (Hclaim v 0 7 Hreach Hwf ltac:(lia)) as (v' & log & Hrun & _).
  unfold run in Hrun.
  rewrite (vector_insert_overflow v 0 7 [] Hfull Hbig) in Hrun.
  discriminate Hrun.
Qed.


(** C8, without the bound: it is not so that insert followed by remove, or
    push followed by pop, gives back the element and the contents on every
    reachable, well-formed container. *)
Lemma round_trip_at_limit_undefined :
  ~ (forall (v : vector Z) (i x : Z),
       reachable v -> wf v -> 0 <= i <= size v ->
       (exists v' log,
          run (vector_insert i x;; vector_remove i) v = Returns x v' log
          /\ size v' = size v /\ contents v' = contents v)
       /\ (exists v' log,
             run (vector_push x;; vector_pop) v = Returns x v' log
             /\ size v' = size v /\ contents v' = contents v)).
Proof.
  intros Hclaim.
  destruct (reachable_limit 0) as (v & Hreach & Hwf & Hfull & Hbig).
  pose proof (wf_size v Hwf) as Hsz.
  destruct (Hclaim v 0 7 Hreach Hwf ltac:(lia)) as [(v' & log & Hrun & _) _].
  unfold run, mbind, M_bind in Hrun.
  rewrite (vector_insert_overflow v 0 7 [] Hfull Hbig) in Hrun.
  discriminate Hrun.
Qed.

(** * Properties of [cli.c] *)

(** ** Reading a line *)

Section ReadCmd.

Import Shell.

Implicit Types (w : world) (dest line : list ascii) (c t : ascii) (i : Z).

Lemma to_char_getchar c : to_char (Z.of_N (N_of_ascii c)) = c.
Proof.
  unfold to_char. pose proof (N_ascii_bounded c) as Hb.
  rewrite Z.mod_small by lia. rewrite N2Z.id. apply ascii_N_embedding.
Qed.

Lemma to_char_EOF : ends_line (to_char EOF) = false.
Proof. reflexivity. Qed.

Lemma ends_line_nul c : ends_line c = false -> c <> nul.
Proof. intros H ->. discriminate. Qed.

Lemma getchar_next c rest w :
  pending (input w) = c :: rest ->
  getchar w
  = Continues (Z.of_N (N_of_ascii c)) (set_input (Stdin rest (eof (input w))) w).
Proof. intros H. unfold getchar. now rewrite H. Qed.

Lemma getchar_at_end w :
  pending (input w) = [] ->
  getchar w = Continues EOF (set_input (Stdin [] true) w).
Proof. intros H. unfold getchar. now rewrite H. Qed.

Lemma store_char_ok dest i c w :
  0 <= i < Z.of_nat (length dest) ->
  store_char dest i c w = Continues (<[Z.to_nat i := c]> dest) w.
Proof.
  intros H. unfold store_char.
  now rewrite (proj2 (Z.leb_le 0 i)), (proj2 (Z.ltb_lt i _)) by lia.
Qed.

Lemma int_expr_ok z w :
  INT_MIN <= z <= INT_MAX -> int_expr z w = Continues z w.
Proof. intros H. unfold int_expr. now rewrite (proj2 (in_int_true z) H). Qed.

(** The first loop on a line that ends within the buffer. *)
Lemma read_chars_line line : forall fuel i dest w t rest,
  Forall (fun c => ends_line c = false) line -> ends_line t = true ->
  pending (input w) = line ++ t :: rest ->
  0 <= i -> i + Z.of_nat (length line) <= MAX_LINE ->
  length dest = 81%nat -> (length line < fuel)%nat ->
  read_chars fuel i dest w
  = Continues
      (true, <[Z.to_nat i + length line := nul]> (list_inserts (Z.to_nat i) line dest))%nat
      (set_input (Stdin rest (eof (input w))) w).
Proof.
  unfold MAX_LINE.
  induction line as [| c line IH]; intros fuel i dest w t rest Hline Ht Hpend Hi Hfit Hlen Hfuel;
    (destruct fuel as [| fuel]; [cbn [length] in Hfuel; lia|]);
    cbn [read_chars]; rewrite (proj2 (Z.leb_le i MAX_LINE)) by (cbn [length] in Hfit; unfold MAX_LINE; lia);
    unfold mbind, IO_bind.
  - rewrite (getchar_next t rest) by exact Hpend.
    rewrite to_char_getchar, Ht.
    rewrite store_char_ok by (cbn [length] in Hfit; lia).
    cbn [list_inserts length]. now rewrite Nat.add_0_r.
  - apply Forall_cons in Hline as [Hc Hline]. cbn [length] in Hfit, Hfuel.
    rewrite (getchar_next c (line ++ t :: rest)) by exact Hpend.
    rewrite to_char_getchar, Hc.
    rewrite store_char_ok by lia.
    rewrite int_expr_ok by (unfold INT_MIN, INT_MAX; lia).
    rewrite (IH fuel (i + 1) _ _ t rest Hline Ht);
      [ | reflexivity | lia | lia | now rewrite length_insert | lia ].
    cbn [input set_input eof].
    replace (Z.to_nat (i + 1)) with (S (Z.to_nat i)) by lia.
    cbn [list_inserts length].
    replace (Z.to_nat i + S (length line))%nat
      with (S (Z.to_nat i) + length line)%nat by lia.
    rewrite (list_insert_inserts_lt _ (Z.to_nat i) (S (Z.to_nat i))) by lia.
    destruct w; reflexivity.
Qed.

(** A buffer whose head is a line without [nul], then [nul]. *)
Lemma cstring_line line tail :
  Forall (fun c => ends_line c = false) line ->
  cstring (line ++ nul :: tail) = Some (String.string_of_list_ascii line).
Proof.
  induction 1 as [| c line Hc _ IH]; [reflexivity|].
  cbn [app cstring String.string_of_list_ascii]. rewrite IH.
  apply ends_line_nul in Hc.
  destruct (Ascii.eqb_spec c nul); [contradiction | reflexivity].
Qed.

Lemma line_in_buffer line dest :
  (length line < length dest)%nat ->
  <[length line := nul]> (list_inserts 0 line dest)
  = line ++ nul :: drop (S (length line)) dest.
Proof.
  intros Hlen.
  rewrite <- (take_drop (length line) dest) at 1.
  rewrite list_inserts_0_r by (rewrite length_take; lia).
  rewrite insert_app_r_alt by lia. rewrite Nat.sub_diag.
  destruct (drop (length line) dest) as [| d tail] eqn:Hd.
  { apply (f_equal length) in Hd. rewrite length_drop in Hd. cbn in Hd. lia. }
  cbn. do 2 f_equal.
  replace (S (length line)) with (length line + 1)%nat by lia.
  rewrite <- drop_drop, Hd. reflexivity.
Qed.

Lemma set_input_same w :
  set_input (Stdin (pending (input w)) (eof (input w))) w = w.
Proof. destruct w as [[p e] o k v]. reflexivity. Qed.

(** The first loop on 81 characters with no end of line among them. *)
Lemma read_chars_full chars : forall fuel i dest w more,
  Forall (fun c => ends_line c = false) chars ->
  pending (input w) = chars ++ more ->
  0 <= i -> i + Z.of_nat (length chars) = 81 ->
  length dest = 81%nat -> (length chars < fuel)%nat ->
  read_chars fuel i dest w
  = Continues (false, list_inserts (Z.to_nat i) chars dest)
      (set_input (Stdin more (eof (input w))) w).
Proof.
  induction chars as [| c chars IH]; intros fuel i dest w more Hchars Hpend Hi Hfit Hlen Hfuel;
    (destruct fuel as [| fuel]; [cbn [length] in Hfuel; lia|]);
    cbn [read_chars length] in *.
  - rewrite (proj2 (Z.leb_gt i MAX_LINE)) by (unfold MAX_LINE; lia).
    cbn [app] in Hpend. rewrite <- Hpend, set_input_same. reflexivity.
  - apply Forall_cons in Hchars as [Hc Hchars].
    rewrite (proj2 (Z.leb_le i MAX_LINE)) by (unfold MAX_LINE; lia).
    unfold mbind, IO_bind.
    rewrite (getchar_next c (chars ++ more)) by exact Hpend.
    rewrite to_char_getchar, Hc.
    rewrite store_char_ok by lia.
    rewrite int_expr_ok by (unfold INT_MIN, INT_MAX; lia).
    rewrite (IH fuel (i + 1) _ _ more Hchars);
      [ | reflexivity | lia | lia | now rewrite length_insert | lia ].
    cbn [input set_input eof].
    replace (Z.to_nat (i + 1)) with (S (Z.to_nat i)) by lia.
    cbn [list_inserts].
    rewrite (list_insert_inserts_lt _ (Z.to_nat i) (S (Z.to_nat i))) by lia.
    destruct w; reflexivity.
Qed.

(** The second loop up to the end of the line. *)
Lemma skip_rest_line more : forall fuel w t rest,
  Forall (fun c => ends_line c = false) more -> ends_line t = true ->
  pending (input w) = more ++ t :: rest -> (length more < fuel)%nat ->
  skip_rest fuel w = Continues tt (set_input (Stdin rest (eof (input w))) w).
Proof.
  induction more as [| c more IH]; intros fuel w t rest Hmore Ht Hpend Hfuel;
    (destruct fuel as [| fuel]; [cbn [length] in Hfuel; lia|]);
    cbn [skip_rest length] in *; unfold mbind, IO_bind.
  - rewrite (getchar_next t rest) by exact Hpend.
    now rewrite to_char_getchar, Ht.
  - apply Forall_cons in Hmore as [Hc Hmore].
    rewrite (getchar_next c (more ++ t :: rest)) by exact Hpend.
    rewrite to_char_getchar, Hc. cbn [negb].
    rewrite (IH fuel _ t rest Hmore Ht); [ | reflexivity | lia ].
    destruct w; reflexivity.
Qed.

(** A line that fits the buffer. *)
Lemma read_cmd_line fuel dest w line t rest :
  eof (input w) = false ->
  pending (input w) = line ++ t :: rest ->
  Forall (fun c => ends_line c = false) line -> ends_line t = true ->
  (length line <= 80)%nat -> length dest = 81%nat ->
  (length line + 1 < fuel)%nat ->
  exists dest',
    read_cmd fuel dest w
    = Continues (true, dest')
        (World (Stdin rest false) (output w ++ [Printf prompt []])
               (strtok_saved w) (shell w))
    /\ cstring dest' = Some (String.string_of_list_ascii line)
    /\ length dest' = 81%nat.
Proof.
  intros Heof Hpend Hline Ht Hshort Hlen Hfuel.
  destruct fuel as [| fuel]; [lia|].
  exists (<[length line := nul]> (list_inserts 0 line dest)).
  split; [|split].
  - cbn [read_cmd]. unfold mbind, IO_bind, feof. rewrite Heof.
    unfold printf.
    rewrite (read_chars_line line fuel 0 dest _ t rest Hline Ht);
      [ | exact Hpend | lia | unfold MAX_LINE; lia | exact Hlen | lia ].
    cbn [fst snd]. unfold mret, IO_ret. cbn [Z.to_nat Nat.add].
    unfold set_input, add_output. cbn [input output strtok_saved shell eof].
    now rewrite Heof.
  - rewrite line_in_buffer by lia. now apply cstring_line.
  - now rewrite length_insert, length_inserts.
Qed.

(** X9.  With the end-of-file indicator clear, a line of at most 80
    characters (none of them a newline or NUL) that is ended by a newline or a
    NUL is accepted: [read_cmd] prints one prompt, consumes the line and the
    character that ends it, returns [true], and leaves the line, terminated,
    in the buffer. *)
Theorem read_cmd_accepts_line fuel dest w line t rest :
  eof (input w) = false ->
  pending (input w) = line ++ t :: rest ->
  Forall (fun c => ends_line c = false) line -> ends_line t = true ->
  (length line <= 80)%nat -> length dest = 81%nat ->
  (length line + 1 < fuel)%nat ->
  exists dest',
    read_cmd fuel dest w
    = Continues (true, dest')
        (World (Stdin rest false) (output w ++ [Printf prompt []])
               (strtok_saved w) (shell w))
    /\ cstring dest' = Some (String.string_of_list_ascii line)
    /\ length dest' = 81%nat.
Proof. exact (read_cmd_line fuel dest w line t rest). Qed.

(** A line that does not fit the buffer. *)
Lemma read_cmd_long_line fuel dest w line t rest :
  eof (input w) = false ->
  pending (input w) = line ++ t :: rest ->
  Forall (fun c => ends_line c = false) line -> ends_line t = true ->
  (80 < length line)%nat -> length dest = 81%nat ->
  (length line < fuel)%nat ->
  read_cmd (S fuel) dest w
  = read_cmd fuel (take 81 line)
      (World (Stdin rest false)
             (output w ++ [Printf prompt []; Printf too_long []])
             (strtok_saved w) (shell w)).
Proof.
  intros Heof Hpend Hline Ht Hlong Hlen Hfuel.
  rewrite <- (take_drop 81 line) in Hpend, Hline.
  apply Forall_app in Hline as [Hhead Htail].
  rewrite <- app_assoc in Hpend.
  assert (Hhlen : length (take 81 line) = 81%nat) by (rewrite length_take; lia).
  cbn [read_cmd]. unfold mbind, IO_bind, feof. rewrite Heof.
  unfold printf at 1.
  rewrite (read_chars_full (take 81 line) fuel 0 dest _
             (drop 81 line ++ t :: rest) Hhead);
    [ | exact Hpend | lia | lia | exact Hlen | lia ].
  cbn [fst snd].
  rewrite (skip_rest_line (drop 81 line) fuel _ t rest Htail Ht);
    [ | reflexivity | rewrite length_drop; lia ].
  unfold printf. cbn [Z.to_nat].
  rewrite <- (app_nil_r dest) at 1.
  rewrite list_inserts_0_r by lia. rewrite app_nil_r.
  unfold set_input, add_output. cbn [input output strtok_saved shell eof].
  rewrite Heof, <- app_assoc. reflexivity.
Qed.

(** X10.  With the end-of-file indicator clear, a line of more than 80
    characters is not accepted, neither whole nor in part: [read_cmd] prints
    the prompt, consumes the line and the character that ends it, prints the
    error, and goes on as it would on the rest of the input (with the first 81
    characters of the line left in the buffer). *)
Theorem read_cmd_rejects_long_line fuel dest w line t rest :
  eof (input w) = false ->
  pending (input w) = line ++ t :: rest ->
  Forall (fun c => ends_line c = false) line -> ends_line t = true ->
  (80 < length line)%nat -> length dest = 81%nat ->
  (length line < fuel)%nat ->
  read_cmd (S fuel) dest w
  = read_cmd fuel (take 81 line)
      (World (Stdin rest false)
             (output w ++ [Printf prompt []; Printf too_long []])
             (strtok_saved w) (shell w)).
Proof. exact (read_cmd_long_line fuel dest w line t rest). Qed.

Lemma cstring_insert_nul dest : forall k : nat,
  (k < length dest)%nat -> is_Some (cstring (<[k := nul]> dest)).
Proof.
  induction dest as [| d dest IH]; intros k Hk; [cbn in Hk; lia|].
  destruct k as [| k].
  - change (is_Some (Some EmptyString)). eauto.
  - change (is_Some (if Ascii.eqb d nul then Some EmptyString
                     else String d <$> cstring (<[k := nul]> dest))).
    destruct (Ascii.eqb d nul); [eauto|].
    destruct (IH k ltac:(cbn in Hk; lia)) as [s ->]. cbn. eauto.
Qed.

(** Whatever is on standard input, the first loop of [read_cmd] does not
    fault; when it completes a line the indicator is clear and the buffer is
    terminated. *)
Lemma read_chars_cases : forall fuel i dest w,
  0 <= i -> length dest = 81%nat -> steady w ->
  match read_chars fuel i dest w with
  | Continues r w' =>
      length (snd r) = 81%nat
      /\ output w' = output w /\ strtok_saved w' = strtok_saved w
      /\ shell w' = shell w
      /\ (length (pending (input w')) <= length (pending (input w)))%nat
      /\ if fst r
         then eof (input w') = false /\ is_Some (cstring (snd r))
              /\ (length (pending (input w')) < length (pending (input w)))%nat
         else steady w'
  | OutOfFuel => True
  | _ => False
  end.
Proof.
  induction fuel as [| fuel IH]; intros i dest w Hi Hlen Hsteady; [exact I|].
  cbn [read_chars].
  destruct (Z.leb_spec i MAX_LINE) as [Hin | Hpast]; unfold MAX_LINE in *.
  2:{ unfold mret, IO_ret. cbn [fst snd]. auto 8. }
  unfold mbind, IO_bind.
  destruct (pending (input w)) as [| c rest] eqn:Hpend.
  - rewrite getchar_at_end by exact Hpend. rewrite to_char_EOF.
    rewrite store_char_ok by lia.
    rewrite int_expr_ok by (unfold INT_MIN, INT_MAX; lia).
    specialize (IH (i + 1) (<[Z.to_nat i := to_char EOF]> dest)
                  (set_input (Stdin [] true) w)).
    destruct (read_chars fuel (i + 1) _ _) as [[b d'] w' | | | |];
      try exact I;
      specialize (IH ltac:(lia) ltac:(now rewrite length_insert)
                     ltac:(now right));
      try contradiction.
    cbn [fst snd input set_input pending output strtok_saved shell length] in *.
    destruct IH as (? & ? & ? & ? & ? & Hb).
    repeat (split; [assumption || lia|]).
    destruct b; [destruct Hb as (_ & _ & Hb); lia | exact Hb].
  - destruct Hsteady as [Heof | Hnil]; [|congruence].
    rewrite (getchar_next c rest) by exact Hpend. rewrite to_char_getchar.
    destruct (ends_line c) eqn:Hc.
    + rewrite store_char_ok by lia. unfold mret, IO_ret.
      cbn [fst snd input set_input pending eof output strtok_saved shell length].
      rewrite length_insert.
      repeat (split; [assumption || reflexivity || lia|]).
      split; [apply cstring_insert_nul; lia | lia].
    + rewrite store_char_ok by lia.
      rewrite int_expr_ok by (unfold INT_MIN, INT_MAX; lia).
      specialize (IH (i + 1) (<[Z.to_nat i := c]> dest)
                    (set_input (Stdin rest (eof (input w))) w)).
      destruct (read_chars fuel (i + 1) _ _) as [[b d'] w' | | | |];
        try exact I;
        specialize (IH ltac:(lia) ltac:(now rewrite length_insert)
                       ltac:(now left));
        try contradiction.
      cbn [fst snd input set_input pending output strtok_saved shell length] in *.
      destruct IH as (? & ? & ? & ? & ? & Hb).
      repeat (split; [assumption || lia|]).
      destruct b; [destruct Hb as (? & ? & ?); repeat split; (assumption || lia)
                  | exact Hb].
Qed.

Lemma skip_rest_cases : forall fuel w,
  steady w ->
  match skip_rest fuel w with
  | Continues _ w' =>
      eof (input w') = false
      /\ output w' = output w /\ strtok_saved w' = strtok_saved w
      /\ shell w' = shell w
      /\ (length (pending (input w')) < length (pending (input w)))%nat
  | OutOfFuel => True
  | _ => False
  end.
Proof.
  induction fuel as [| fuel IH]; intros w Hsteady; [exact I|].
  cbn [skip_rest]. unfold mbind, IO_bind.
  destruct (pending (input w)) as [| c rest] eqn:Hpend.
  - rewrite getchar_at_end by exact Hpend. rewrite to_char_EOF. cbn [negb].
    specialize (IH (set_input (Stdin [] true) w) ltac:(now right)).
    destruct (skip_rest fuel _) as [[] w' | | | |]; exact IH.
  - destruct Hsteady as [Heof | Hnil]; [|congruence].
    rewrite (getchar_next c rest) by exact Hpend. rewrite to_char_getchar.
    destruct (ends_line c) eqn:Hc; cbn [negb].
    + unfold mret, IO_ret.
      cbn [input set_input pending eof output strtok_saved shell length].
      repeat split; (assumption || lia).
    + specialize (IH (set_input (Stdin rest (eof (input w))) w) ltac:(now left)).
      destruct (skip_rest fuel _) as [[] w' | | | |]; try exact IH.
      cbn [input set_input pending output strtok_saved shell length] in IH |- *.
      destruct IH as (? & ? & ? & ? & ?). repeat split; (assumption || lia).
Qed.

(** What [read_cmd] can do when the end-of-file indicator is clear. *)
Lemma read_cmd_cases : forall fuel dest w,
  eof (input w) = false -> length dest = 81%nat ->
  match read_cmd fuel dest w with
  | Continues r w' =>
      fst r = true
      /\ eof (input w') = false
      /\ length (snd r) = 81%nat /\ is_Some (cstring (snd r))
      /\ shell w' = shell w
      /\ (length (pending (input w')) < length (pending (input w)))%nat
  | OutOfFuel => True
  | _ => False
  end.
Proof.
  induction fuel as [| fuel IH]; intros dest w Heof Hlen; [exact I|].
  cbn [read_cmd]. unfold mbind, IO_bind, feof. rewrite Heof.
  unfold printf at 1.
  pose proof (read_chars_cases fuel 0 dest (add_output (Printf prompt []) w)
                ltac:(lia) Hlen ltac:(now left)) as Hchars.
  destruct (read_chars fuel 0 dest _) as [[b d'] w1 | | | |];
    try exact Hchars.
  cbn [fst snd input add_output shell] in *.
  destruct Hchars as (Hlen' & _ & _ & Hshell1 & Hle1 & Hb).
  destruct b.
  - unfold mret, IO_ret. cbn [fst snd].
    destruct Hb as (? & ? & ?). repeat split; assumption.
  - pose proof (skip_rest_cases fuel w1 Hb) as Hskip.
    destruct (skip_rest fuel w1) as [[] w2 | | | |]; try exact Hskip.
    destruct Hskip as (Heof2 & _ & _ & Hshell2 & Hlt2).
    unfold printf.
    specialize (IH d' (add_output (Printf too_long []) w2) Heof2 Hlen').
    destruct (read_cmd fuel d' _) as [[b d''] w3 | | | |]; try exact IH.
    cbn [fst snd input add_output shell] in *.
    destruct IH as (? & ? & ? & ? & ? & ?).
    repeat split; try assumption; try congruence; lia.
Qed.

(** Input that ends before the line does. *)
Lemma read_cmd_never_returns dest w :
  eof (input w) = false -> length dest = 81%nat ->
  Forall (fun c => ends_line c = false) (pending (input w)) ->
  forall fuel, read_cmd fuel dest w = OutOfFuel.
Proof.
  intros Heof Hlen Hnone fuel.
  assert (Hchars : forall fuel i dest w,
            0 <= i -> length dest = 81%nat ->
            Forall (fun c => ends_line c = false) (pending (input w)) ->
            match read_chars fuel i dest w with
            | Continues r w' =>
                fst r = false
                /\ Forall (fun c => ends_line c = false) (pending (input w'))
            | OutOfFuel => True
            | _ => False
            end).
  { clear. induction fuel as [| fuel IH]; intros i dest w Hi Hlen Hnone; [exact I|].
    cbn [read_chars].
    destruct (Z.leb_spec i MAX_LINE) as [Hin | Hpast]; unfold MAX_LINE in *.
    2:{ unfold mret, IO_ret. cbn [fst]. now split. }
    unfold mbind, IO_bind.
    destruct (pending (input w)) as [| c rest] eqn:Hpend.
    - rewrite getchar_at_end by exact Hpend. rewrite to_char_EOF.
      rewrite store_char_ok by lia.
      rewrite int_expr_ok by (unfold INT_MIN, INT_MAX; lia).
      apply IH; [lia | now rewrite length_insert | constructor].
    - apply Forall_cons in Hnone as [Hc Hrest].
      rewrite (getchar_next c rest) by exact Hpend.
      rewrite to_char_getchar, Hc.
      rewrite store_char_ok by lia.
      rewrite int_expr_ok by (unfold INT_MIN, INT_MAX; lia).
      apply IH; [lia | now rewrite length_insert | exact Hrest]. }
  assert (Hskip : forall fuel w,
            Forall (fun c => ends_line c = false) (pending (input w)) ->
            skip_rest fuel w = OutOfFuel).
  { clear. induction fuel as [| fuel IH]; intros w Hnone; [reflexivity|].
    cbn [skip_rest]. unfold mbind, IO_bind.
    destruct (pending (input w)) as [| c rest] eqn:Hpend.
    - rewrite getchar_at_end by exact Hpend. rewrite to_char_EOF. cbn [negb].
      apply IH. constructor.
    - apply Forall_cons in Hnone as [Hc Hrest].
      rewrite (getchar_next c rest) by exact Hpend.
      rewrite to_char_getchar, Hc. cbn [negb]. now apply IH. }
  destruct fuel as [| fuel]; [reflexivity|].
  cbn [read_cmd]. unfold mbind, IO_bind, feof. rewrite Heof.
  unfold printf at 1.
  specialize (Hchars fuel 0 dest (add_output (Printf prompt []) w)
                ltac:(lia) Hlen Hnone).
  destruct (read_chars fuel 0 dest _) as [[b d'] w1 | | | |];
    try contradiction; [|reflexivity].
  destruct Hchars as [Hb Hnone1]. cbn [fst] in Hb. subst b. cbn [fst snd].
  now rewrite Hskip.
Qed.

(** X12.  When the input ends before a newline or a NUL is read and the
    end-of-file indicator is clear on entry, [read_cmd] does not terminate:
    there is no number of loop iterations after which it has returned.
    (After the first loop has stored 81 characters, the second loop keeps
    reading [EOF], which is neither a newline nor a NUL.) *)
Theorem read_cmd_hangs_at_end_of_input dest w :
  eof (input w) = false -> length dest = 81%nat ->
  Forall (fun c => ends_line c = false) (pending (input w)) ->
  forall fuel, read_cmd fuel dest w = OutOfFuel.
Proof. exact (read_cmd_never_returns dest w). Qed.

(** More fuel does not change what a loop returns. *)
Lemma read_chars_more : forall fuel fuel' i dest w r w',
  (fuel <= fuel')%nat ->
  read_chars fuel i dest w = Continues r w' ->
  read_chars fuel' i dest w = Continues r w'.
Proof.
  induction fuel as [| fuel IH]; intros fuel' i dest w r w' Hle;
    [discriminate|].
  destruct fuel' as [| fuel']; [lia|].
  cbn [read_chars]. destruct (i <=? MAX_LINE); [|exact (fun H => H)].
  unfold mbind, IO_bind.
  destruct (getchar w) as [c w1 | | | |]; try discriminate.
  destruct (ends_line (to_char c)); [exact (fun H => H)|].
  destruct (store_char dest i (to_char c) w1) as [d w2 | | | |];
    try discriminate.
  destruct (int_expr (i + 1) w2) as [i' w3 | | | |]; try discriminate.
  apply IH. lia.
Qed.

Lemma skip_rest_more : forall fuel fuel' w r w',
  (fuel <= fuel')%nat ->
  skip_rest fuel w = Continues r w' -> skip_rest fuel' w = Continues r w'.
Proof.
  induction fuel as [| fuel IH]; intros fuel' w r w' Hle; [discriminate|].
  destruct fuel' as [| fuel']; [lia|].
  cbn [skip_rest]. unfold mbind, IO_bind.
  destruct (getchar w) as [c w1 | | | |]; try discriminate.
  destruct (negb (ends_line (to_char c))); [|exact (fun H => H)].
  apply IH. lia.
Qed.

Lemma read_cmd_more : forall fuel fuel' dest w r w',
  (fuel <= fuel')%nat ->
  read_cmd fuel dest w = Continues r w' ->
  read_cmd fuel' dest w = Continues r w'.
Proof.
  induction fuel as [| fuel IH]; intros fuel' dest w r w' Hle;
    [discriminate|].
  destruct fuel' as [| fuel']; [lia|].
  cbn [read_cmd]. unfold mbind, IO_bind.
  destruct (feof w) as [[] w0 | | | |]; try discriminate;
    [exact (fun H => H)|].
  destruct (printf prompt [] w0) as [[] w1 | | | |]; try discriminate.
  destruct (read_chars fuel 0 dest w1) as [[b d] w2 | | | |] eqn:Hchars;
    try discriminate.
  rewrite (read_chars_more fuel fuel' 0 dest w1 (b, d) w2 ltac:(lia) Hchars).
  cbn [fst snd]. destruct b; [exact (fun H => H)|].
  destruct (skip_rest fuel w2) as [[] w3 | | | |] eqn:Hskip; try discriminate.
  rewrite (skip_rest_more fuel fuel' w2 tt w3 ltac:(lia) Hskip).
  destruct (printf too_long [] w3) as [[] w4 | | | |]; try discriminate.
  apply IH. lia.
Qed.

(** Input has a first line, or no end of line at all. *)
Lemma first_line (l : list ascii) :
  Forall (fun c => ends_line c = false) l
  \/ exists line t rest,
       l = line ++ t :: rest
       /\ Forall (fun c => ends_line c = false) line /\ ends_line t = true.
Proof.
  induction l as [| c l IH]; [left; constructor|].
  destruct (ends_line c) eqn:Hc.
  - right. exists [], c, l. split; [reflexivity|]. split; [constructor | exact Hc].
  - destruct IH as [Hnone | (line & t & rest & -> & Hline & Ht)].
    + left. now constructor.
    + right. exists (c :: line), t, rest.
      split; [reflexivity|]. split; [now constructor | exact Ht].
Qed.

(** The command [read_cmd] returns is a line of the input as it stands
    there: what precedes it are lines that were too long, what follows its
    end is the input left. *)
Lemma read_cmd_source : forall (n : nat) fuel dest w r w',
  (length (pending (input w)) <= n)%nat ->
  eof (input w) = false -> length dest = 81%nat ->
  read_cmd fuel dest w = Continues r w' ->
  exists before line t,
    pending (input w) = before ++ line ++ t :: pending (input w')
    /\ (length line <= 80)%nat
    /\ Forall (fun c => ends_line c = false) line /\ ends_line t = true
    /\ cstring (snd r) = Some (String.string_of_list_ascii line).
Proof.
  induction n as [| n IH]; intros fuel dest w r w' Hn Heof Hlen Hrun;
    (destruct (first_line (pending (input w)))
       as [Hnone | (line & t & rest & Hpend & Hline & Ht)];
     [ rewrite (read_cmd_never_returns dest w Heof Hlen Hnone) in Hrun;
       discriminate |]);
    pose proof (f_equal length Hpend) as Hcount;
    rewrite length_app in Hcount; cbn [length] in Hcount; [lia|].
  destruct (Nat.le_gt_cases (length line) 80) as [Hshort | Hlong].
  - destruct (read_cmd_line (fuel + length line + 2) dest w line t rest
                Heof Hpend Hline Ht Hshort Hlen ltac:(lia))
      as (dest' & Hline_run & Hstring & _).
    rewrite (read_cmd_more fuel (fuel + length line + 2) dest w r w'
               ltac:(lia) Hrun) in Hline_run.
    injection Hline_run as -> ->.
    exists [], line, t. cbn [app input pending snd].
    repeat (split; [assumption || reflexivity|]). exact Hstring.
  - pose proof (read_cmd_long_line (fuel + length line + 1) dest w line t rest
                  Heof Hpend Hline Ht Hlong Hlen ltac:(lia)) as Hlong_run.
    rewrite (read_cmd_more fuel (S (fuel + length line + 1)) dest w r w'
               ltac:(lia) Hrun) in Hlong_run.
    symmetry in Hlong_run.
    apply IH in Hlong_run;
      [ | cbn [input pending]; lia | reflexivity | rewrite length_take; lia ].
    destruct Hlong_run as (before & line' & t' & Hrest & Hfacts).
    cbn [input pending] in Hrest.
    exists (line ++ t :: before), line', t'.
    split; [|exact Hfacts].
    rewrite Hpend, Hrest, <- app_assoc. reflexivity.
Qed.

(** With fuel for every character of the input and no result, there is no
    result with any fuel. *)
Lemma read_cmd_total : forall (n : nat) fuel dest w,
  (length (pending (input w)) <= n)%nat ->
  eof (input w) = false -> length dest = 81%nat ->
  (length (pending (input w)) + 1 < fuel)%nat ->
  read_cmd fuel dest w = OutOfFuel ->
  forall fuel', read_cmd fuel' dest w = OutOfFuel.
Proof.
  induction n as [| n IH]; intros fuel dest w Hn Heof Hlen Hfuel Hrun;
    (destruct (first_line (pending (input w)))
       as [Hnone | (line & t & rest & Hpend & Hline & Ht)];
     [ exact (read_cmd_never_returns dest w Heof Hlen Hnone) |]);
    pose proof (f_equal length Hpend) as Hcount;
    rewrite length_app in Hcount; cbn [length] in Hcount; [lia|].
  destruct (Nat.le_gt_cases (length line) 80) as [Hshort | Hlong].
  - destruct (read_cmd_line fuel dest w line t rest
                Heof Hpend Hline Ht Hshort Hlen ltac:(lia))
      as (dest' & Hline_run & _).
    rewrite Hrun in Hline_run. discriminate.
  - destruct fuel as [| fuel]; [lia|].
    rewrite (read_cmd_long_line fuel dest w line t rest
               Heof Hpend Hline Ht Hlong Hlen ltac:(lia)) in Hrun.
    match type of Hrun with
    | read_cmd ?f ?d ?w2 = _ =>
        assert (Hnever : forall fuel', read_cmd fuel' d w2 = OutOfFuel)
          by (apply (IH f d w2);
              [ cbn [input pending]; lia | reflexivity
              | rewrite length_take; lia | cbn [input pending]; lia
              | exact Hrun ])
    end.
    intros fuel'.
    pose proof (read_cmd_cases fuel' dest w Heof Hlen) as Hcases.
    destruct (read_cmd fuel' dest w) as [r w' | | | |] eqn:Hrun';
      try contradiction; [|reflexivity].
    pose proof (read_cmd_more fuel' (S (fuel' + length line + 1)) dest w r w'
                  ltac:(lia) Hrun') as Hmore.
    rewrite (read_cmd_long_line (fuel' + length line + 1) dest w line t rest
               Heof Hpend Hline Ht Hlong Hlen ltac:(lia)) in Hmore.
    rewrite Hnever in Hmore. discriminate.
Qed.

(** X11.  Entered with the end-of-file indicator clear and a buffer of 81
    characters, [read_cmd] never returns [false], never fails and never
    writes outside the buffer.  When it returns, it returns [true], the
    indicator is still clear, the static vector is as it was, and the buffer
    holds, terminated, a line of at most 80 characters of the input: the
    lines before it were too long, the input left is what follows the end of
    that line.  When it has not returned although there was fuel for every
    character of the input, it never returns. *)
Theorem read_cmd_returns_true fuel dest w :
  eof (input w) = false -> length dest = 81%nat ->
  match read_cmd fuel dest w with
  | Continues result w' =>
      fst result = true
      /\ eof (input w') = false
      /\ length (snd result) = 81%nat
      /\ shell w' = shell w
      /\ exists before line t,
           pending (input w) = before ++ line ++ t :: pending (input w')
           /\ (length line <= 80)%nat
           /\ Forall (fun c => ends_line c = false) line /\ ends_line t = true
           /\ cstring (snd result) = Some (String.string_of_list_ascii line)
  | OutOfFuel =>
      (length (pending (input w)) + 1 < fuel)%nat ->
      forall fuel', read_cmd fuel' dest w = OutOfFuel
  | Exits _ _ | Aborts _ | Faults => False
  end.
Proof.
  intros Heof Hlen.
  pose proof (read_cmd_cases fuel dest w Heof Hlen) as Hcases.
  destruct (read_cmd fuel dest w) as [r w' | | | |] eqn:Hrun;
    try contradiction.
  - destruct Hcases as (Htrue & Heof' & Hlen' & _ & Hshell & _).
    repeat (split; [assumption|]).
    exact (read_cmd_source _ fuel dest w r w' (Nat.le_refl _) Heof Hlen Hrun).
  - intros Hfuel.
    exact (read_cmd_total _ fuel dest w (Nat.le_refl _) Heof Hlen Hfuel Hrun).
Qed.

End ReadCmd.

(** ** Running a command *)

Section RunCmd.

Import Shell.

Variable strtol : string -> Z * string.

Implicit Types (w : world) (v : vector string) (i n : Z) (cmd line : string).

Lemma ends_well_bind {R S : Type} (F : Prop) (Q1 : R -> world -> Prop)
    (Q : S -> world -> Prop) (m : IO R) (k : R -> IO S) w :
  ends_well F Q1 (m w) ->
  (forall r w', Q1 r w' -> ends_well F Q (k r w')) ->
  ends_well F Q ((m ≫= k) w).
Proof.
  intros Hm Hk. unfold mbind, IO_bind.
  destruct (m w) as [r w' | code w' | w' | |]; cbn in *; auto.
Qed.

Lemma ends_well_or {R : Type} (U F : Prop) (Q : R -> world -> Prop)
    (s : status R) :
  ends_well F Q s -> ends_or U F Q s.
Proof. destruct s; cbn; tauto. Qed.

Lemma ends_or_bind {R S : Type} (U F : Prop) (Q1 : R -> world -> Prop)
    (Q : S -> world -> Prop) (m : IO R) (k : R -> IO S) w :
  ends_or U F Q1 (m w) ->
  (forall r w', Q1 r w' -> ends_or U F Q (k r w')) ->
  ends_or U F Q ((m ≫= k) w).
Proof.
  intros Hm Hk. unfold mbind, IO_bind.
  destruct (m w) as [r w' | code w' | w' | |]; cbn in *; auto.
Qed.

(** The block [vector_create] allocates holds [elems] only. *)
Lemma assign_created_faults w : assign_created w = Faults.
Proof. reflexivity. Qed.

Lemma ends_well_weaken {R : Type} (F : Prop) (Q1 Q : R -> world -> Prop)
    (s : status R) :
  ends_well F Q1 s -> (forall r w', Q1 r w' -> Q r w') -> ends_well F Q s.
Proof. destruct s; cbn; auto. Qed.

Lemma tidy_set_saved s0 n p w : tidy s0 n w -> tidy s0 n (set_saved p w).
Proof. exact (fun H => H). Qed.

Lemma tidy_add_output s0 n c w : tidy s0 n w -> tidy s0 n (add_output c w).
Proof. exact (fun H => H). Qed.

Lemma tidy_more s0 n n' w : n <= n' -> tidy s0 n w -> tidy s0 n' w.
Proof.
  intros Hle [Hin Hv]. split; [exact Hin|].
  destruct (shell w); [|exact I]. destruct Hv. split; [assumption | lia].
Qed.

Lemma strtok_tidy (F : Prop) s0 n s w :
  tidy s0 n w -> ends_well F (fun _ w' => tidy s0 n w') (strtok s w).
Proof. intros H. exact H. Qed.

Lemma printf_tidy (F : Prop) s0 n fmt args w :
  tidy s0 n w -> ends_well F (fun _ w' => tidy s0 n w') (printf fmt args w).
Proof. intros H. exact H. Qed.

Lemma print_lines_tidy (F : Prop) s0 n ls : forall w,
  tidy s0 n w -> ends_well F (fun _ w' => tidy s0 n w') (print_lines ls w).
Proof.
  induction ls as [| l ls IH]; intros w H; [exact H|].
  cbn [print_lines]. eapply ends_well_bind; [apply printf_tidy; eassumption|].
  intros ? w' H'. now apply IH.
Qed.

(** Once [strtok] has returned [NULL] it goes on returning [NULL]. *)
Lemma scan_none s : fst (scan s) = None -> snd (scan s) = EmptyString.
Proof. unfold scan. now destruct (skip_spaces s). Qed.

Lemma long_to_int_range z : INT_MIN <= long_to_int z <= INT_MAX.
Proof.
  unfold long_to_int, INT_MIN, INT_MAX.
  pose proof (Z.mod_pos_bound (z - -2147483648) 4294967296 ltac:(lia)). lia.
Qed.

Lemma parse_tidy (F : Prop) s0 n cmd w :
  tidy s0 n w -> ends_well F (fun _ w' => tidy s0 n w') (parse cmd w).
Proof.
  intros H. unfold parse.
  eapply ends_well_bind; [apply strtok_tidy; eassumption|].
  intros [t|] w' H'; [|exact H'].
  eapply ends_well_bind; [apply printf_tidy; eassumption|]. intros ? w'' H''. exact H''.
Qed.

Lemma parse_i_tidy (F : Prop) s0 n cmd w :
  tidy s0 n w ->
  ends_well F
    (fun r w' => tidy s0 n w'
                 /\ forall i, r = Some i -> INT_MIN <= i <= INT_MAX)
    (parse_i strtol cmd w).
Proof.
  intros H. unfold parse_i.
  assert (Hfail : forall w', tidy s0 n w' ->
            ends_well F
              (fun r w'' => tidy s0 n w''
                            /\ forall i, r = Some i -> INT_MIN <= i <= INT_MAX)
              ((printf usage_i [ArgStr cmd] ≫= fun _ => mret None) w')).
  { intros w' H'. split; [exact H' | discriminate]. }
  eapply ends_well_bind; [apply strtok_tidy; eassumption|].
  intros [text|] w' H'; [|now apply Hfail].
  destruct (negb (String.eqb (snd (strtol text)) EmptyString)); [apply Hfail; eassumption|].
  eapply ends_well_bind; [apply strtok_tidy; eassumption|].
  intros [t|] w'' H''; [apply Hfail; eassumption|].
  split; [exact H''|]. intros i [= <-]. apply long_to_int_range.
Qed.

Lemma parse_v_tidy (F : Prop) s0 n cmd w :
  tidy s0 n w ->
  ends_well F (fun _ w' => tidy s0 n w') (parse_v cmd w).
Proof.
  intros H. unfold parse_v.
  eapply ends_well_bind; [apply strtok_tidy; eassumption|].
  intros [value|] w' H'; [|exact H'].
  eapply ends_well_bind; [apply strtok_tidy; eassumption|].
  intros [t|] w'' H''; exact H''.
Qed.

Lemma parse_iv_tidy (F : Prop) s0 n cmd w :
  tidy s0 n w ->
  ends_well F
    (fun r w' => tidy s0 n w'
                 /\ forall i value, r = Some (i, value) -> INT_MIN <= i <= INT_MAX)
    (parse_iv strtol cmd w).
Proof.
  intros H. unfold parse_iv, mbind at 1 2, IO_bind at 1 2, strtok at 1 2.
  cbn [strtok_saved set_saved].
  set (w2 := set_saved _ (set_saved _ w)).
  assert (H2 : tidy s0 n w2) by exact H.
  clearbody w2.
  destruct (fst (scan (snd (scan (strtok_saved w))))) as [value|] eqn:Htoken.
  2:{ split; [exact H2 | discriminate]. }
  destruct (fst (scan (strtok_saved w))) as [text|] eqn:Hindex.
  2:{ apply scan_none in Hindex. rewrite Hindex in Htoken. discriminate. }
  destruct (negb (String.eqb (snd (strtol text)) EmptyString)).
  { split; [exact H2 | discriminate]. }
  eapply ends_well_bind; [apply strtok_tidy; eassumption|].
  intros [t|] w'' H''; (split; [exact H''|]); [discriminate|].
  intros i value' [= <- _]. apply long_to_int_range.
Qed.

Lemma call_returns {R : Type} (m : M string R) w v r v' log :
  shell w = Some v -> run m v = Returns r v' log ->
  call m w = Continues r (set_shell (Some v') w).
Proof. intros Hv Hrun. unfold call. now rewrite Hv, Hrun. Qed.

Lemma call_size w v :
  shell w = Some v ->
  call vector_size w = Continues (size v) (set_shell (Some v) w).
Proof. intros Hv. now apply (call_returns _ w v (size v) v []). Qed.

Lemma call_in_bounds w v i :
  shell w = Some v ->
  call (vector_in_bounds i) w
  = Continues (to_size_t i <? to_size_t (size v)) (set_shell (Some v) w).
Proof. intros Hv. now apply (call_returns _ w v _ v []). Qed.

Lemma call_get w v i :
  shell w = Some v -> wf v -> 0 <= i < size v ->
  exists a,
    get_at v i = Some a
    /\ call (vector_get i) w = Continues a (set_shell (Some v) w).
Proof.
  intros Hv Hwf Hi. destruct (wf_slot v i Hwf Hi) as [a Ha].
  exists a. split.
  - unfold get_at, run. now rewrite (vector_get_ok v i a).
  - apply (call_returns _ w v a v [Read i]); [assumption|].
    unfold run. now rewrite (vector_get_ok v i a).
Qed.

Lemma ensure_exists_cases s0 n w :
  tidy s0 n w ->
  (shell w = None
   /\ ensure_exists w = Continues false (add_output (Printf no_vector []) w))
  \/ (exists v, shell w = Some v /\ wf v /\ size v <= n
                /\ ensure_exists w = Continues true w).
Proof.
  intros [_ Hv]. unfold ensure_exists.
  destruct (shell w) as [v|]; [right | left; split; reflexivity].
  exists v. destruct Hv as [Hwf Hsz].
  split; [reflexivity|]. split; [exact Hwf|]. split; [exact Hsz | reflexivity].
Qed.

(** The loops over the vector read every element once and leave the vector
    and standard input as they are; they need one iteration more than there
    are elements left. *)
Lemma ls_loop_runs : forall fuel i w v,
  shell w = Some v -> wf v -> 0 <= i <= size v ->
  ends_well (Z.of_nat fuel <= size v - i)
    (fun _ w' => input w' = input w /\ shell w' = Some v)
    (ls_loop fuel i w).
Proof.
  induction fuel as [| fuel IH]; intros i w v Hv Hwf Hi; [cbn; lia|].
  cbn [ls_loop]. unfold mbind, IO_bind.
  rewrite (call_size w v Hv).
  destruct (Z.ltb_spec i (size v)) as [Hlt | Hge]; [|now split].
  destruct (call_get (set_shell (Some v) w) v i eq_refl Hwf ltac:(lia))
    as (a & _ & ->).
  unfold printf.
  rewrite int_expr_ok
    by (pose proof (wf_size_int v Hwf); unfold INT_MIN, INT_MAX in *; lia).
  specialize (IH (i + 1) (add_output
     (Printf (if i =? 0 then "%s"%string else ", %s"%string) [ArgStr a])
     (set_shell (Some v) (set_shell (Some v) w))) v eq_refl Hwf ltac:(lia)).
  destruct (ls_loop fuel (i + 1) _); cbn in *; auto. lia.
Qed.

Lemma cleanup_loop_runs : forall fuel i w v,
  shell w = Some v -> wf v -> 0 <= i <= size v ->
  ends_well (Z.of_nat fuel <= size v - i)
    (fun _ w' => input w' = input w /\ shell w' = Some v)
    (cleanup_loop fuel i w).
Proof.
  induction fuel as [| fuel IH]; intros i w v Hv Hwf Hi; [cbn; lia|].
  cbn [cleanup_loop]. unfold mbind, IO_bind.
  rewrite (call_size w v Hv).
  destruct (Z.ltb_spec i (size v)) as [Hlt | Hge]; [|now split].
  destruct (call_get (set_shell (Some v) w) v i eq_refl Hwf ltac:(lia))
    as (a & _ & ->).
  rewrite int_expr_ok
    by (pose proof (wf_size_int v Hwf); unfold INT_MIN, INT_MAX in *; lia).
  specialize (IH (i + 1) (set_shell (Some v) (set_shell (Some v) w))
                v eq_refl Hwf ltac:(lia)).
  destruct (cleanup_loop fuel (i + 1) _); cbn in *; auto. lia.
Qed.

Lemma do_cleanup_runs fuel s0 n w :
  tidy s0 n w ->
  ends_well (Z.of_nat fuel <= n)
    (fun _ w' => input w' = s0 /\ shell w' = None)
    (do_cleanup fuel w).
Proof.
  intros [Hin Hv]. unfold do_cleanup.
  destruct (shell w) as [v|] eqn:Hshell; [|now split].
  destruct Hv as [Hwf Hsz]. unfold mbind, IO_bind.
  pose proof (cleanup_loop_runs fuel 0 w v Hshell Hwf
                ltac:(pose proof (wf_size v Hwf); lia)) as Hloop.
  destruct (cleanup_loop fuel 0 w) as [[] w' | | | |]; cbn in *; auto; [|lia].
  destruct Hloop as [Hin' Hv']. unfold vector_destroy. rewrite Hv'.
  cbn. split; [congruence | reflexivity].
Qed.

Lemma ensure_exists_tidy (F : Prop) s0 n w :
  tidy s0 n w ->
  ends_well F
    (fun there w' =>
       tidy s0 n w'
       /\ (there = true -> exists v, shell w' = Some v /\ wf v /\ size v <= n))
    (ensure_exists w).
Proof.
  intros H.
  destruct (ensure_exists_cases s0 n w H)
    as [[Hnone ->] | (v & Hv & Hwf & Hsz & ->)].
  - split; [exact H | discriminate].
  - split; [exact H | eauto].
Qed.

Ltac tidy_after H :=
  cbn [ends_well]; split;
  [ exact (proj1 H)
  | cbn [shell set_shell add_output]; split; [assumption | lia] ].

(** Every guard of [run_cmd] is enough for the call it guards; the one
    undefined behaviour is that of [vector_create], on an [init] line. *)
Lemma run_cmd_tidy fuel line w s0 n :
  0 <= n < 1073741824 -> tidy s0 n w ->
  ends_or (fst (scan line) = Some "init"%string) (Z.of_nat fuel <= n)
    (fun _ w' => tidy s0 (n + 1) w')
    (run_cmd strtol fuel line w).
Proof.
  intros Hn H. unfold run_cmd.
  assert (Hkeep : forall w', tidy s0 n w' -> tidy s0 (n + 1) w')
    by (intros w'; apply tidy_more; lia).
  unfold mbind at 1, IO_bind at 1, strtok at 1.
  pose proof (tidy_set_saved s0 n (snd (scan line)) w H) as H1.
  set (w1 := set_saved (snd (scan line)) w) in *.
  destruct (fst (scan line)) as [cmd|]; [|now apply Hkeep].
  destruct (same cmd "init") eqn:Hinit.
  { apply String.eqb_eq in Hinit. subst cmd.
    cbn [same String.eqb Ascii.eqb Bool.eqb orb andb].
    eapply ends_or_bind;
      [apply ends_well_or, parse_tidy; eassumption|].
    intros [] w2 H2; cbn [negb]; [|now apply Hkeep].
    eapply ends_or_bind;
      [apply ends_well_or, do_cleanup_runs; eassumption|].
    intros ? w3 _. unfold mbind, IO_bind.
    rewrite assign_created_faults. reflexivity. }
  apply ends_well_or.
  destruct (same cmd "help").
  { eapply ends_well_bind; [apply parse_tidy; eassumption|].
    intros [] w2 H2; cbn [negb]; [|now apply Hkeep].
    eapply ends_well_weaken; [apply print_lines_tidy; eassumption|].
    intros ? w3 H3. now apply Hkeep. }
  destruct (same cmd "exit" || same cmd "quit" || same cmd "q").
  { eapply ends_well_bind; [apply parse_tidy; eassumption|].
    intros [] w2 H2; cbn [negb]; [reflexivity | now apply Hkeep]. }
  destruct (same cmd "size").
  { eapply ends_well_bind; [apply parse_tidy; eassumption|].
    intros [] w2 H2; cbn [negb]; [|now apply Hkeep].
    eapply ends_well_bind; [apply ensure_exists_tidy; eassumption|].
    intros [] w3 [H3 Hthere]; cbn [negb]; [|now apply Hkeep].
    destruct (Hthere eq_refl) as (v & Hv & Hwf & Hsz).
    unfold mbind, IO_bind. rewrite (call_size w3 v Hv). unfold printf.
    tidy_after H3. }
  destruct (same cmd "ls" || same cmd "dump" || same cmd "print").
  { eapply ends_well_bind; [apply parse_tidy; eassumption|].
    intros [] w2 H2; cbn [negb]; [|now apply Hkeep].
    eapply ends_well_bind; [apply ensure_exists_tidy; eassumption|].
    intros [] w3 [H3 Hthere]; cbn [negb]; [|now apply Hkeep].
    destruct (Hthere eq_refl) as (v & Hv & Hwf & Hsz).
    unfold mbind, IO_bind. unfold printf at 1.
    pose proof (ls_loop_runs fuel 0 (add_output (Printf "    v = [" []) w3) v
                  Hv Hwf ltac:(pose proof (wf_size v Hwf); lia)) as Hloop.
    destruct (ls_loop fuel 0 _) as [[] w4 | | | |]; cbn in Hloop |- *;
      auto; [|lia].
    destruct Hloop as [Hin4 Hv4]. split.
    - cbn [input add_output]. rewrite Hin4. exact (proj1 H3).
    - cbn [shell add_output]. rewrite Hv4. split; [assumption | lia]. }
  destruct (same cmd "set").
  { eapply ends_well_bind; [apply parse_iv_tidy; eassumption|].
    intros [[i value]|] w2 [H2 Hint]; [|now apply Hkeep].
    specialize (Hint i value eq_refl).
    eapply ends_well_bind; [apply ensure_exists_tidy; eassumption|].
    intros [] w3 [H3 Hthere]; cbn [negb]; [|now apply Hkeep].
    destruct (Hthere eq_refl) as (v & Hv & Hwf & Hsz).
    unfold mbind, IO_bind. rewrite (call_in_bounds w3 v i Hv).
    destruct (to_size_t i <? to_size_t (size v)) eqn:Hin; cbn [negb].
    2:{ unfold printf. tidy_after H3. }
    apply unsigned_lt_iff in Hin; [|assumption | now apply wf_size_int].
    rewrite (call_returns (vector_set i value) (set_shell (Some v) w3) v tt _
               [Write i] eq_refl)
      by (unfold run; now apply vector_set_ok).
    unfold printf. cbn [ends_well]. split; [exact (proj1 H3)|].
    cbn [shell set_shell add_output]. split; [now apply wf_set | cbn; lia]. }
  destruct (same cmd "get").
  { eapply ends_well_bind; [apply parse_i_tidy; eassumption|].
    intros [i|] w2 [H2 Hint]; [|now apply Hkeep].
    specialize (Hint i eq_refl).
    eapply ends_well_bind; [apply ensure_exists_tidy; eassumption|].
    intros [] w3 [H3 Hthere]; cbn [negb]; [|now apply Hkeep].
    destruct (Hthere eq_refl) as (v & Hv & Hwf & Hsz).
    unfold mbind, IO_bind. rewrite (call_in_bounds w3 v i Hv).
    destruct (to_size_t i <? to_size_t (size v)) eqn:Hin; cbn [negb].
    2:{ unfold printf. tidy_after H3. }
    apply unsigned_lt_iff in Hin; [|assumption | now apply wf_size_int].
    destruct (call_get (set_shell (Some v) w3) v i eq_refl Hwf Hin)
      as (a & _ & ->).
    unfold printf. tidy_after H3. }
  destruct (same cmd "insert").
  { eapply ends_well_bind; [apply parse_iv_tidy; eassumption|].
    intros [[i value]|] w2 [H2 Hint]; [|now apply Hkeep].
    eapply ends_well_bind; [apply ensure_exists_tidy; eassumption|].
    intros [] w3 [H3 Hthere]; cbn [negb]; [|now apply Hkeep].
    destruct (Hthere eq_refl) as (v & Hv & Hwf & Hsz).
    unfold mbind, IO_bind, mret, IO_ret.
    destruct (Z.ltb_spec i 0) as [Hneg | Hpos].
    { unfold printf. cbn [ends_well]. apply Hkeep. exact H3. }
    rewrite (call_size w3 v Hv).
    destruct (Z.ltb_spec (size v) i) as [Hbig | Hok].
    { unfold printf. tidy_after H3. }
    destruct (vector_insert_ok v i value [] Hwf ltac:(lia)
                (fits_below_limit v Hwf ltac:(lia)))
      as (v' & log & Hrun & Hwf' & Hsize' & _).
    rewrite (call_returns (vector_insert i value) (set_shell (Some v) w3)
               v tt v' log eq_refl Hrun).
    unfold printf. tidy_after H3. }
  destruct (same cmd "remove").
  { eapply ends_well_bind; [apply parse_i_tidy; eassumption|].
    intros [i|] w2 [H2 Hint]; [|now apply Hkeep].
    specialize (Hint i eq_refl).
    eapply ends_well_bind; [apply ensure_exists_tidy; eassumption|].
    intros [] w3 [H3 Hthere]; cbn [negb]; [|now apply Hkeep].
    destruct (Hthere eq_refl) as (v & Hv & Hwf & Hsz).
    unfold mbind, IO_bind. rewrite (call_in_bounds w3 v i Hv).
    destruct (to_size_t i <? to_size_t (size v)) eqn:Hin; cbn [negb].
    2:{ unfold printf. tidy_after H3. }
    apply unsigned_lt_iff in Hin; [|assumption | now apply wf_size_int].
    destruct (vector_remove_ok v i [] Hwf Hin)
      as (a & v' & log & Hrun & Hwf' & _ & Hsize' & _).
    rewrite (call_returns (vector_remove i) (set_shell (Some v) w3)
               v a v' log eq_refl Hrun).
    unfold printf. tidy_after H3. }
  destruct (same cmd "push").
  { eapply ends_well_bind; [apply parse_v_tidy; eassumption|].
    intros [value|] w2 H2; [|now apply Hkeep].
    eapply ends_well_bind; [apply ensure_exists_tidy; eassumption|].
    intros [] w3 [H3 Hthere]; cbn [negb]; [|now apply Hkeep].
    destruct (Hthere eq_refl) as (v & Hv & Hwf & Hsz).
    pose proof (wf_size_int v Hwf) as Hszint.
    destruct (vector_insert_ok v (size v) value [] Hwf ltac:(lia)
                (fits_below_limit v Hwf ltac:(lia)))
      as (v' & log & Hrun & Hwf' & Hsize' & _).
    unfold mbind, IO_bind.
    rewrite (call_returns (vector_push value) _ v tt v' log Hv Hrun).
    rewrite (call_size _ v') by reflexivity.
    rewrite int_expr_ok by (unfold INT_MIN, INT_MAX in *; lia).
    unfold printf. tidy_after H3. }
  destruct (same cmd "pop").
  { eapply ends_well_bind; [apply parse_tidy; eassumption|].
    intros [] w2 H2; cbn [negb]; [|now apply Hkeep].
    eapply ends_well_bind; [apply ensure_exists_tidy; eassumption|].
    intros [] w3 [H3 Hthere]; cbn [negb]; [|now apply Hkeep].
    destruct (Hthere eq_refl) as (v & Hv & Hwf & Hsz).
    pose proof (wf_size_int v Hwf) as Hszint.
    unfold mbind, IO_bind. rewrite (call_size w3 v Hv).
    destruct (Z.eqb_spec (size v) 0) as [Hzero | Hsome].
    { unfold printf. tidy_after H3. }
    destruct (vector_remove_ok v (size v - 1) [] Hwf ltac:(lia))
      as (a & v' & log & Hrun & Hwf' & _ & Hsize' & _).
    rewrite <- vector_pop_unfold in Hrun by (unfold INT_MIN; lia).
    rewrite (call_returns vector_pop (set_shell (Some v) w3)
               v a v' log eq_refl Hrun).
    rewrite (call_size _ v') by reflexivity.
    unfold printf. tidy_after H3. }
  unfold printf. cbn [ends_well]. now apply Hkeep.
Qed.

(** X13.  On a world whose static vector is [NULL] or a well-formed container
    of at most [n] elements, [n] below [2^30], [run_cmd] on any line,
    whatever [strtol] makes of its index token, fails no assertion, and has
    undefined behaviour on an [init] line only (in [vector_create]): it
    returns, or exits with status 0 (or is still in one of its loops, and
    only when [fuel] is no more than [n]).  When it returns, standard input
    is untouched and the vector is [NULL] or well formed with at most [n + 1]
    elements. *)
Theorem run_cmd_is_safe fuel line w s0 n :
  0 <= n < 1073741824 -> tidy s0 n w ->
  match run_cmd strtol fuel line w with
  | Continues _ w' => tidy s0 (n + 1) w'
  | Exits code _ => code = 0
  | OutOfFuel => Z.of_nat fuel <= n
  | Faults => fst (scan line) = Some "init"%string
  | Aborts _ => False
  end.
Proof. exact (run_cmd_tidy fuel line w s0 n). Qed.

(** ** Command lines made of words *)

Lemma split_token_spaceless t :
  spaceless t = true -> split_token t = (t, EmptyString).
Proof.
  induction t as [| c t IH]; [reflexivity|]. cbn [spaceless split_token].
  destruct (Ascii.eqb c space); cbn [negb andb]; [discriminate|].
  intros Ht. now rewrite (IH Ht).
Qed.

Lemma split_token_space t rest :
  spaceless t = true ->
  split_token (t +:+ String space rest) = (t, rest).
Proof.
  induction t as [| c t IH]; [reflexivity|].
  intros Hword.
  change (split_token (String c (t +:+ String space rest)) = (String c t, rest)).
  cbn [spaceless] in Hword. cbn [split_token].
  destruct (Ascii.eqb c space); [discriminate|].
  now rewrite (IH Hword).
Qed.

(** [strtok] on a last word, and on a word followed by a space. *)
Lemma scan_last t : is_word t = true -> scan t = (Some t, EmptyString).
Proof.
  destruct t as [| c t]; [discriminate|]. intros Hword.
  unfold scan. cbn [skip_spaces].
  pose proof (split_token_spaceless _ Hword) as Hsplit.
  cbn [is_word spaceless] in Hword.
  destruct (Ascii.eqb c space); [discriminate|].
  now rewrite Hsplit.
Qed.

Lemma scan_next t rest :
  is_word t = true -> scan (t +:+ String space rest) = (Some t, rest).
Proof.
  destruct t as [| c t]; [discriminate|]. intros Hword.
  pose proof (split_token_space _ rest Hword) as Hsplit.
  cbn [is_word spaceless] in Hword.
  destruct (Ascii.eqb c space) eqn:Hc; [discriminate|].
  unfold scan.
  change (String c t +:+ String space rest)
    with (String c (t +:+ String space rest)) in *.
  cbn [skip_spaces]. rewrite Hc. now rewrite Hsplit.
Qed.

Lemma parse_at_end cmd w :
  strtok_saved w = EmptyString ->
  parse cmd w
  = Continues true (World (input w) (output w) EmptyString (shell w)).
Proof.
  intros Hsaved. unfold parse, mbind, IO_bind, strtok. now rewrite Hsaved.
Qed.

Lemma parse_i_word cmd t w :
  strtok_saved w = t -> is_word t = true ->
  snd (strtol t) = EmptyString ->
  parse_i strtol cmd w
  = Continues (Some (long_to_int (fst (strtol t))))
      (World (input w) (output w) EmptyString (shell w)).
Proof.
  intros Hsaved Hword Hall. unfold parse_i, mbind, IO_bind, strtok.
  rewrite Hsaved, (scan_last t Hword). cbn [fst snd]. now rewrite Hall.
Qed.

Lemma parse_v_word cmd value w :
  strtok_saved w = value -> is_word value = true ->
  parse_v cmd w
  = Continues (Some value) (World (input w) (output w) EmptyString (shell w)).
Proof.
  intros Hsaved Hword. unfold parse_v, mbind, IO_bind, strtok.
  now rewrite Hsaved, (scan_last value Hword).
Qed.

Lemma parse_iv_words cmd t value w :
  strtok_saved w = t +:+ String space value ->
  is_word t = true -> is_word value = true ->
  snd (strtol t) = EmptyString ->
  parse_iv strtol cmd w
  = Continues (Some (long_to_int (fst (strtol t)), value))
      (World (input w) (output w) EmptyString (shell w)).
Proof.
  intros Hsaved Ht Hvalue Hall. unfold parse_iv, mbind, IO_bind, strtok.
  rewrite Hsaved, (scan_next t value Ht). cbn [fst snd strtok_saved set_saved].
  rewrite (scan_last value Hvalue). cbn [fst snd]. now rewrite Hall.
Qed.

Ltac pick_command line rest :=
  unfold run_cmd; unfold mbind at 1, IO_bind at 1, strtok at 1;
  change (scan line) with rest; cbn [fst snd];
  cbn [same String.eqb Ascii.eqb Bool.eqb orb andb].

(** X14.  On an initialised shell (static vector [v], well formed), a line
    whose index is out of range changes nothing but the output: [get],
    [remove] and [set] with an index outside [0, size) and [insert] with an
    index outside [0, size] print [out of bounds]; [pop] on an empty vector
    prints [empty].  The index is what [strtol] makes of the whole second
    word, converted to [int]. *)
Theorem run_cmd_rejects fuel w v t value :
  shell w = Some v -> wf v ->
  is_word t = true -> is_word value = true ->
  snd (strtol t) = EmptyString ->
  let i := long_to_int (fst (strtol t)) in
  let refused (message : string) :=
    Continues tt
      (World (input w) (output w ++ [Printf message []]) EmptyString (Some v)) in
  (~ (0 <= i < size v) ->
     run_cmd strtol fuel ("get " +:+ t) w = refused out_of_bounds
     /\ run_cmd strtol fuel ("remove " +:+ t) w = refused out_of_bounds
     /\ run_cmd strtol fuel ("set " +:+ t +:+ String space value) w
        = refused out_of_bounds)
  /\ (~ (0 <= i <= size v) ->
      run_cmd strtol fuel ("insert " +:+ t +:+ String space value) w
      = refused out_of_bounds)
  /\ (size v = 0 -> run_cmd strtol fuel "pop" w = refused empty).
Proof.
  intros Hv Hwf Ht Hvalue Hall i refused.
  pose proof (wf_size_int v Hwf) as Hszint.
  pose proof (long_to_int_range (fst (strtol t))) as Hint. fold i in Hint.
  assert (Hout : ~ (0 <= i < size v) ->
                 (to_size_t i <? to_size_t (size v)) = false).
  { intros Hno. apply not_true_is_false. intros Hyes.
    now apply unsigned_lt_iff in Hyes. }
  split; [|split].
  - intros Hno. specialize (Hout Hno). repeat apply conj.
    + pick_command ("get " +:+ t)%string
      (Some "get"%string, t).
      unfold mbind, IO_bind.
      rewrite (parse_i_word "get" t) by (assumption || reflexivity).
      fold i. unfold ensure_exists. cbn [shell set_saved]. rewrite Hv. cbn [negb].
      rewrite (call_in_bounds _ v i) by reflexivity. rewrite Hout. reflexivity.
    + pick_command ("remove " +:+ t)%string
      (Some "remove"%string, t).
      unfold mbind, IO_bind.
      rewrite (parse_i_word "remove" t) by (assumption || reflexivity).
      fold i. unfold ensure_exists. cbn [shell set_saved]. rewrite Hv. cbn [negb].
      rewrite (call_in_bounds _ v i) by reflexivity. rewrite Hout. reflexivity.
    + pick_command ("set " +:+ t +:+ String space value)%string
      (Some "set"%string, t +:+ String space value).
      unfold mbind, IO_bind.
      rewrite (parse_iv_words "set" t value) by (assumption || reflexivity).
      fold i. unfold ensure_exists. cbn [shell set_saved]. rewrite Hv. cbn [negb].
      rewrite (call_in_bounds _ v i) by reflexivity. rewrite Hout. reflexivity.
  - intros Hno.
    pick_command ("insert " +:+ t +:+ String space value)%string
      (Some "insert"%string, t +:+ String space value).
    unfold mbind, IO_bind.
    rewrite (parse_iv_words "insert" t value) by (assumption || reflexivity).
    fold i. unfold ensure_exists. cbn [shell set_saved]. rewrite Hv. cbn [negb].
    destruct (Z.ltb_spec i 0); [reflexivity|].
    rewrite (call_size _ v) by reflexivity.
    destruct (Z.ltb_spec (size v) i); [reflexivity | lia].
  - intros Hempty.
    pick_command "pop"%string
      (Some "pop"%string, EmptyString).
    unfold mbind, IO_bind.
    rewrite (parse_at_end "pop") by reflexivity.
    cbn [negb]. unfold ensure_exists. cbn [shell set_saved]. rewrite Hv. cbn [negb].
    rewrite (call_size _ v) by reflexivity. rewrite Hempty. reflexivity.
Qed.

(** X15.  On an initialised shell (static vector [v], well formed) and with
    an index inside [0, size): the line [get <index>] prints the handle
    [vector_get] returns there and leaves the vector as it is; the line
    [set <index> <value>] stores the value in that slot, prints it, and
    changes nothing else of the vector. *)
Theorem run_cmd_get_set fuel w v t value :
  shell w = Some v -> wf v ->
  is_word t = true -> is_word value = true ->
  snd (strtol t) = EmptyString ->
  let i := long_to_int (fst (strtol t)) in
  0 <= i < size v ->
  (exists a,
     get_at v i = Some a
     /\ run_cmd strtol fuel ("get " +:+ t) w
        = Continues tt
            (World (input w)
                   (output w ++ [Printf shown [ArgInt i; ArgStr a]])
                   EmptyString (Some v)))
  /\ run_cmd strtol fuel ("set " +:+ t +:+ String space value) w
     = Continues tt
         (World (input w)
                (output w ++ [Printf shown [ArgInt i; ArgStr value]])
                EmptyString
                (Some (Vector (<[Z.to_nat i := Some value]> (elems v))
                              (capacity v) (size v)))).
Proof.
  intros Hv Hwf Ht Hvalue Hall i Hi.
  pose proof (wf_size_int v Hwf) as Hszint.
  pose proof (long_to_int_range (fst (strtol t))) as Hint. fold i in Hint.
  assert (Hin : (to_size_t i <? to_size_t (size v)) = true)
    by now apply unsigned_lt_iff.
  split.
  - destruct (wf_slot v i Hwf Hi) as [a Ha]. exists a. split.
    { unfold get_at, run. now rewrite (vector_get_ok v i a). }
    pick_command ("get " +:+ t)%string (Some "get"%string, t).
    unfold mbind, IO_bind.
    rewrite (parse_i_word "get" t) by (assumption || reflexivity).
    fold i. unfold ensure_exists. cbn [shell set_saved]. rewrite Hv. cbn [negb].
    rewrite (call_in_bounds _ v i) by reflexivity. rewrite Hin. cbn [negb].
    rewrite (call_returns (vector_get i) _ v a v [Read i])
      by (reflexivity || (unfold run; now apply vector_get_ok)).
    reflexivity.
  - pick_command ("set " +:+ t +:+ String space value)%string
      (Some "set"%string, t +:+ String space value).
    unfold mbind, IO_bind.
    rewrite (parse_iv_words "set" t value) by (assumption || reflexivity).
    fold i. unfold ensure_exists. cbn [shell set_saved]. rewrite Hv. cbn [negb].
    rewrite (call_in_bounds _ v i) by reflexivity. rewrite Hin. cbn [negb].
    rewrite (call_returns (vector_set i value) _ v tt _ [Write i])
      by (reflexivity || (unfold run; now apply vector_set_ok)).
    reflexivity.
Qed.

(** X16.  On an initialised shell (static vector [v], well formed, a due
    doubling within [int]) the lines [insert <index> <value>] (index inside
    [0, size]), [remove <index>] (index inside [0, size)), [push <value>] and
    [pop] (vector not empty) make exactly the call of [vector_insert],
    [vector_remove], [vector_push], [vector_pop] on the vector and print the
    index concerned with the value inserted or the handle taken out: the old
    size for [push], the old size less one for [pop]. *)
Theorem run_cmd_insert_remove fuel w v t value :
  shell w = Some v -> wf v -> fits v ->
  is_word t = true -> is_word value = true ->
  snd (strtol t) = EmptyString ->
  let i := long_to_int (fst (strtol t)) in
  let printed (message : string) (n : Z) (s : string) (v' : vector string) :=
    Continues tt
      (World (input w) (output w ++ [Printf message [ArgInt n; ArgStr s]])
             EmptyString (Some v')) in
  (0 <= i <= size v ->
     exists v' log,
       run (vector_insert i value) v = Returns tt v' log
       /\ run_cmd strtol fuel ("insert " +:+ t +:+ String space value) w
          = printed shown i value v')
  /\ (0 <= i < size v ->
      exists a v' log,
        run (vector_remove i) v = Returns a v' log
        /\ run_cmd strtol fuel ("remove " +:+ t) w = printed removed i a v')
  /\ (exists v' log,
        run (vector_push value) v = Returns tt v' log
        /\ run_cmd strtol fuel ("push " +:+ value) w
           = printed shown (size v) value v')
  /\ (0 < size v ->
      exists a v' log,
        run vector_pop v = Returns a v' log
        /\ run_cmd strtol fuel "pop" w = printed removed (size v - 1) a v').
Proof.
  intros Hv Hwf Hfits Ht Hvalue Hall i printed.
  pose proof (wf_size_int v Hwf) as Hszint.
  pose proof (long_to_int_range (fst (strtol t))) as Hint. fold i in Hint.
  repeat apply conj.
  - intros Hi.
    destruct (vector_insert_ok v i value [] Hwf Hi Hfits)
      as (v' & log & Hrun & _).
    exists v', log. split; [exact Hrun|].
    pick_command ("insert " +:+ t +:+ String space value)%string
      (Some "insert"%string, t +:+ String space value).
    unfold mbind, IO_bind.
    rewrite (parse_iv_words "insert" t value) by (assumption || reflexivity).
    fold i. unfold ensure_exists. cbn [shell set_saved]. rewrite Hv. cbn [negb].
    rewrite (proj2 (Z.ltb_ge i 0)) by lia.
    rewrite (call_size _ v) by reflexivity.
    rewrite (proj2 (Z.ltb_ge (size v) i)) by lia.
    unfold mret, IO_ret.
    rewrite (call_returns (vector_insert i value) _ v tt v' log)
      by (reflexivity || exact Hrun).
    reflexivity.
  - intros Hi.
    destruct (vector_remove_ok v i [] Hwf Hi) as (a & v' & log & Hrun & _).
    exists a, v', log. split; [exact Hrun|].
    pick_command ("remove " +:+ t)%string (Some "remove"%string, t).
    unfold mbind, IO_bind.
    rewrite (parse_i_word "remove" t) by (assumption || reflexivity).
    fold i. unfold ensure_exists. cbn [shell set_saved]. rewrite Hv. cbn [negb].
    rewrite (call_in_bounds _ v i) by reflexivity.
    rewrite (proj2 (unsigned_lt_iff i (size v) Hint Hszint) Hi). cbn [negb].
    rewrite (call_returns (vector_remove i) _ v a v' log)
      by (reflexivity || exact Hrun).
    reflexivity.
  - destruct (vector_insert_ok v (size v) value [] Hwf ltac:(lia) Hfits)
      as (v' & log & Hrun & _ & Hsize' & _).
    exists v', log. split; [exact Hrun|].
    pick_command ("push " +:+ value)%string (Some "push"%string, value).
    unfold mbind, IO_bind.
    rewrite (parse_v_word "push" value) by (assumption || reflexivity).
    unfold ensure_exists. cbn [shell set_saved]. rewrite Hv. cbn [negb].
    rewrite (call_returns (vector_push value) _ v tt v' log)
      by (reflexivity || exact Hrun).
    rewrite (call_size _ v') by reflexivity.
    rewrite int_expr_ok by (unfold INT_MIN, INT_MAX in *; lia).
    unfold printf, printed.
    replace (size v' - 1) with (size v) by lia. reflexivity.
  - intros Hpos.
    destruct (vector_remove_ok v (size v - 1) [] Hwf ltac:(lia))
      as (a & v' & log & Hrun & _ & _ & Hsize' & _).
    rewrite <- vector_pop_unfold in Hrun by (unfold INT_MIN; lia).
    exists a, v', log. split; [exact Hrun|].
    pick_command "pop"%string (Some "pop"%string, EmptyString).
    unfold mbind, IO_bind.
    rewrite (parse_at_end "pop") by reflexivity.
    cbn [negb]. unfold ensure_exists. cbn [shell set_saved]. rewrite Hv. cbn [negb].
    rewrite (call_size _ v) by reflexivity.
    rewrite (proj2 (Z.eqb_neq (size v) 0)) by lia.
    rewrite (call_returns vector_pop _ v a v' log)
      by (reflexivity || exact Hrun).
    rewrite (call_size _ v') by reflexivity.
    unfold printf, printed. rewrite Hsize'. reflexivity.
Qed.

(** ** What the parsers leave alone *)

Section Preserved.

(** A property of worlds that neither [strtok] nor [printf] disturbs. *)
Variable P : world -> Prop.
Hypothesis P_saved : forall p w, P w -> P (set_saved p w).
Hypothesis P_output : forall c w, P w -> P (add_output c w).

Variable F : Prop.

Lemma strtok_keeps s w : P w -> ends_well F (fun _ w' => P w') (strtok s w).
Proof. intros H. now apply P_saved. Qed.

Lemma printf_keeps fmt args w :
  P w -> ends_well F (fun _ w' => P w') (printf fmt args w).
Proof. intros H. now apply P_output. Qed.

Lemma print_lines_keeps ls : forall w,
  P w -> ends_well F (fun _ w' => P w') (print_lines ls w).
Proof.
  induction ls as [| l ls IH]; intros w H; [exact H|].
  cbn [print_lines]. eapply ends_well_bind; [apply printf_keeps; eassumption|].
  intros ? w' H'. now apply IH.
Qed.

Lemma parse_keeps cmd w :
  P w -> ends_well F (fun _ w' => P w') (parse cmd w).
Proof.
  intros H. unfold parse.
  eapply ends_well_bind; [apply strtok_keeps; eassumption|].
  intros [t|] w' H'; [|exact H'].
  eapply ends_well_bind; [apply printf_keeps; eassumption|].
  intros ? w'' H''. exact H''.
Qed.

Lemma parse_i_keeps cmd w :
  P w -> ends_well F (fun _ w' => P w') (parse_i strtol cmd w).
Proof.
  intros H. unfold parse_i.
  assert (Hfail : forall w', P w' ->
            ends_well F (fun (_ : option Z) w'' => P w'')
              ((printf usage_i [ArgStr cmd] ≫= fun _ => mret None) w'))
    by (intros w' H'; now apply P_output).
  eapply ends_well_bind; [apply strtok_keeps; eassumption|].
  intros [text|] w' H'; [|now apply Hfail].
  destruct (negb (String.eqb (snd (strtol text)) EmptyString)); [now apply Hfail|].
  eapply ends_well_bind; [apply strtok_keeps; eassumption|].
  intros [t|] w'' H''; [now apply Hfail | exact H''].
Qed.

Lemma parse_v_keeps cmd w :
  P w -> ends_well F (fun _ w' => P w') (parse_v cmd w).
Proof.
  intros H. unfold parse_v.
  assert (Hfail : forall w', P w' ->
            ends_well F (fun (_ : option string) w'' => P w'')
              ((printf usage_v [ArgStr cmd] ≫= fun _ => mret None) w'))
    by (intros w' H'; now apply P_output).
  eapply ends_well_bind; [apply strtok_keeps; eassumption|].
  intros [value|] w' H'; [|now apply Hfail].
  eapply ends_well_bind; [apply strtok_keeps; eassumption|].
  intros [t|] w'' H''; [now apply Hfail | exact H''].
Qed.

Lemma parse_iv_keeps cmd w :
  P w -> ends_well F (fun _ w' => P w') (parse_iv strtol cmd w).
Proof.
  intros H. unfold parse_iv, mbind at 1 2, IO_bind at 1 2, strtok at 1 2.
  cbn [strtok_saved set_saved].
  set (w2 := set_saved _ (set_saved _ w)).
  assert (H2 : P w2) by (unfold w2; now do 2 apply P_saved).
  clearbody w2.
  destruct (fst (scan (snd (scan (strtok_saved w))))) as [value|] eqn:Htoken.
  2:{ now apply P_output. }
  destruct (fst (scan (strtok_saved w))) as [text|] eqn:Hindex.
  2:{ apply scan_none in Hindex. rewrite Hindex in Htoken. discriminate. }
  destruct (negb (String.eqb (snd (strtol text)) EmptyString)).
  { now apply P_output. }
  eapply ends_well_bind; [apply strtok_keeps; eassumption|].
  intros [t|] w'' H''; [now apply P_output | exact H''].
Qed.

End Preserved.

(** While the static vector is [NULL] it stays [NULL]. *)
Lemma run_cmd_without_vector fuel line w :
  shell w = None ->
  ends_or (fst (scan line) = Some "init"%string) False
    (fun _ w' => input w' = input w /\ shell w' = None)
    (run_cmd strtol fuel line w).
Proof.
  intros Hnone.
  set (P := fun w' => input w' = input w /\ shell w' = None).
  assert (P_saved : forall p w', P w' -> P (set_saved p w')) by (intros ? ? H; exact H).
  assert (P_output : forall c w', P w' -> P (add_output c w')) by (intros ? ? H; exact H).
  assert (Hguarded : forall (body : IO unit) w2, P w2 ->
            ends_well False (fun (_ : unit) w'' => P w'')
              ((ensure_exists ≫= fun there : bool =>
                  if negb there then mret tt else body) w2)).
  { intros body w2 [Hin Hv].
    unfold mbind, IO_bind, ensure_exists, printf, mret, IO_ret. rewrite Hv.
    cbn [negb ends_well input shell add_output].
    split; [exact Hin | exact Hv]. }
  unfold run_cmd. unfold mbind at 1, IO_bind at 1, strtok at 1.
  assert (H1 : P (set_saved (snd (scan line)) w)) by (split; [reflexivity | exact Hnone]).
  set (w1 := set_saved (snd (scan line)) w) in *. clearbody w1.
  destruct (fst (scan line)) as [cmd|]; [|exact H1].
  destruct (same cmd "init") eqn:Hinit.
  { apply String.eqb_eq in Hinit. subst cmd.
    cbn [same String.eqb Ascii.eqb Bool.eqb orb andb].
    eapply ends_or_bind;
      [apply ends_well_or, (parse_keeps P); eassumption|].
    intros [] w2 H2; cbn [negb]; [|exact H2].
    destruct H2 as [Hin2 Hv2].
    unfold mbind, IO_bind, do_cleanup. rewrite Hv2.
    rewrite assign_created_faults. reflexivity. }
  apply ends_well_or.
  destruct (same cmd "help").
  { eapply ends_well_bind; [apply (parse_keeps P); eassumption|].
    intros [] w2 H2; cbn [negb]; [|exact H2].
    eapply ends_well_weaken; [apply (print_lines_keeps P); eassumption|].
    intros ? w3 H3. exact H3. }
  destruct (same cmd "exit" || same cmd "quit" || same cmd "q").
  { eapply ends_well_bind; [apply (parse_keeps P); eassumption|].
    intros [] w2 H2; cbn [negb]; [reflexivity | exact H2]. }
  destruct (same cmd "size").
  { eapply ends_well_bind; [apply (parse_keeps P); eassumption|].
    intros [] w2 H2; cbn [negb]; [now apply Hguarded | exact H2]. }
  destruct (same cmd "ls" || same cmd "dump" || same cmd "print").
  { eapply ends_well_bind; [apply (parse_keeps P); eassumption|].
    intros [] w2 H2; cbn [negb]; [now apply Hguarded | exact H2]. }
  destruct (same cmd "set").
  { eapply ends_well_bind; [apply (parse_iv_keeps P); eassumption|].
    intros [[i value]|] w2 H2; [now apply Hguarded | exact H2]. }
  destruct (same cmd "get").
  { eapply ends_well_bind; [apply (parse_i_keeps P); eassumption|].
    intros [i|] w2 H2; [now apply Hguarded | exact H2]. }
  destruct (same cmd "insert").
  { eapply ends_well_bind; [apply (parse_iv_keeps P); eassumption|].
    intros [[i value]|] w2 H2; [now apply Hguarded | exact H2]. }
  destruct (same cmd "remove").
  { eapply ends_well_bind; [apply (parse_i_keeps P); eassumption|].
    intros [i|] w2 H2; [now apply Hguarded | exact H2]. }
  destruct (same cmd "push").
  { eapply ends_well_bind; [apply (parse_v_keeps P); eassumption|].
    intros [value|] w2 H2; [now apply Hguarded | exact H2]. }
  destruct (same cmd "pop").
  { eapply ends_well_bind; [apply (parse_keeps P); eassumption|].
    intros [] w2 H2; cbn [negb]; [now apply Hguarded | exact H2]. }
  unfold printf. cbn [ends_well]. exact H1.
Qed.

(** X17.  While the static vector is [NULL], no line reaches the container
    and none gets a vector: [run_cmd] returns with standard input untouched
    and the vector still [NULL], or exits with status 0, or, on an [init]
    line, runs into the undefined behaviour of [vector_create].  It fails no
    assertion and does not run on. *)
Theorem run_cmd_before_init fuel line w :
  shell w = None ->
  match run_cmd strtol fuel line w with
  | Continues _ w' => input w' = input w /\ shell w' = None
  | Exits code _ => code = 0
  | Faults => fst (scan line) = Some "init"%string
  | OutOfFuel | Aborts _ => False
  end.
Proof. exact (run_cmd_without_vector fuel line w). Qed.

(** ** The whole program *)

(** The command word of a line is a piece of the line. *)
Lemma chars_append a b : chars (a +:+ b) = chars a ++ chars b.
Proof.
  induction a as [| c a IH]; [reflexivity|].
  change (chars (String c (a +:+ b)) = c :: chars a ++ chars b).
  unfold chars in *. cbn [String.list_ascii_of_string]. now rewrite IH.
Qed.

Lemma skip_spaces_suffix s : exists a, s = a +:+ skip_spaces s.
Proof.
  induction s as [| c s [a IH]]; [now exists EmptyString|].
  cbn [skip_spaces]. destruct (Ascii.eqb c space).
  - exists (String c a). change (String c s = String c (a +:+ skip_spaces s)).
    now rewrite <- IH.
  - now exists EmptyString.
Qed.

Lemma split_token_prefix s : exists b, s = fst (split_token s) +:+ b.
Proof.
  induction s as [| c s [b IH]]; [now exists EmptyString|].
  cbn [split_token]. destruct (Ascii.eqb c space); cbn [fst].
  - now exists (String c s).
  - exists b. change (String c s = String c (fst (split_token s) +:+ b)).
    now rewrite <- IH.
Qed.

Lemma scan_word s cmd :
  fst (scan s) = Some cmd ->
  exists before after, chars s = before ++ chars cmd ++ after.
Proof.
  unfold scan. destruct (skip_spaces_suffix s) as [a Ha].
  destruct (skip_spaces s) as [| c rest]; [discriminate|].
  destruct (split_token_prefix (String c rest)) as [b Hb].
  remember (split_token (String c rest)) as token eqn:Htoken.
  intros [= <-].
  exists (chars a), (chars b).
  rewrite <- chars_append, <- chars_append. now rewrite <- Hb, <- Ha.
Qed.

Lemma chars_of_line (l : list ascii) :
  chars (String.string_of_list_ascii l) = l.
Proof. apply String.list_ascii_of_string_of_list_ascii. Qed.

(** From its start the shell never has a vector: the loop of [main] only
    ends by [exit], and undefined behaviour needs the word [init] on
    standard input. *)
Lemma main_loop_without_vector : forall fuel command w text,
  length command = 81%nat -> eof (input w) = false -> shell w = None ->
  (exists read, text = read ++ pending (input w)) ->
  ends_or (exists before after, text = before ++ chars "init" ++ after)
    True (fun _ _ => False) (main_loop strtol fuel command w).
Proof.
  induction fuel as [| fuel IH]; intros command w text Hlen Heof Hnone Hread;
    [exact I|].
  cbn [main_loop]. unfold mbind at 1, IO_bind at 1.
  pose proof (read_cmd_cases fuel command w Heof Hlen) as Hcases.
  destruct (read_cmd fuel command w) as [[b d'] w1 | | | |] eqn:Hrun;
    try contradiction; [|exact I].
  destruct (read_cmd_source _ fuel command w (b, d') w1 (Nat.le_refl _)
              Heof Hlen Hrun)
    as (skipped & line & t & Hpend & _ & _ & _ & Hline).
  cbn [fst snd] in *.
  destruct Hcases as (-> & Heof1 & Hlen1 & _ & Hshell1 & _).
  rewrite Hline. unfold mbind, IO_bind.
  destruct Hread as [read Htext].
  pose proof (run_cmd_without_vector fuel (String.string_of_list_ascii line)
                w1 ltac:(congruence)) as Hcmd.
  destruct (run_cmd strtol fuel _ w1) as [[] w2 | code w2 | w2 | |];
    cbn [ends_or] in Hcmd |- *; try contradiction; try exact Hcmd.
  - destruct Hcmd as [Hin2 Hv2].
    apply IH; try assumption.
    + now rewrite Hin2.
    + exists (read ++ skipped ++ line ++ [t]).
      rewrite Htext, Hpend, Hin2, <- !app_assoc. reflexivity.
  - destruct (scan_word _ _ Hcmd) as (a & b & Hword).
    rewrite chars_of_line in Hword.
    exists (read ++ skipped ++ a), (b ++ t :: pending (input w1)).
    rewrite Htext, Hpend, Hword, <- !app_assoc. reflexivity.
Qed.

(** X18.  Whatever is on standard input, whatever [strtol] does and whatever
    the buffer holds at first, the program fails no assertion and never
    falls out of the loop of [main] to [return 0].  It ends by a call
    [exit (0)], or in the undefined behaviour of [vector_create], and in
    that only when the input contains the word [init]; otherwise it is still
    in one of its loops when the fuel is spent. *)
Theorem main_only_exits fuel command text :
  length command = 81%nat ->
  match main strtol fuel command (start text) with
  | Exits code _ => code = 0
  | OutOfFuel => True
  | Faults => exists before after, text = before ++ chars "init" ++ after
  | Continues _ _ | Aborts _ => False
  end.
Proof.
  intros Hlen.
  change (ends_or (exists before after, text = before ++ chars "init" ++ after)
            True (fun _ _ => False)
            (main strtol fuel command (start text))).
  unfold main, mbind, IO_bind, printf.
  apply main_loop_without_vector.
  - exact Hlen.
  - reflexivity.
  - reflexivity.
  - now exists [].
Qed.

(** ** Listings, [init] and lines that are no commands *)

Lemma set_shell_same w v : shell w = Some v -> set_shell (Some v) w = w.
Proof. destruct w. cbn. now intros ->. Qed.

Lemma ls_loop_prints l : forall fuel i w v,
  shell w = Some v -> wf v -> 0 <= i ->
  drop (Z.to_nat i) (contents v) = Some <$> l ->
  (length l < fuel)%nat ->
  ls_loop fuel i w
  = Continues tt
      (World (input w) (output w ++ listed_from i l) (strtok_saved w) (Some v)).
Proof.
  induction l as [| a l IH]; intros fuel i w v Hv Hwf Hi Hdrop Hfuel;
    (destruct fuel as [| fuel]; [cbn in Hfuel; lia|]);
    pose proof (length_contents v Hwf) as Hlen;
    pose proof (f_equal length Hdrop) as Hcount;
    rewrite length_drop, length_fmap, Hlen in Hcount; cbn [length] in Hcount;
    cbn [ls_loop]; unfold mbind, IO_bind;
    rewrite (call_size w v Hv), (set_shell_same w v Hv).
  - destruct (Z.ltb_spec i (size v)) as [Hlt | Hge]; [lia|].
    unfold mret, IO_ret.
    cbn [listed_from]. rewrite app_nil_r. destruct w; cbn in *. now rewrite Hv.
  - destruct (Z.ltb_spec i (size v)) as [Hlt | Hge]; [|lia].
    assert (Hat : contents v !! Z.to_nat i = Some (Some a)).
    { rewrite <- (Nat.add_0_r (Z.to_nat i)), <- lookup_drop, Hdrop.
      reflexivity. }
    destruct (call_get w v i Hv Hwf ltac:(lia)) as (a' & Hget & ->).
    rewrite (get_at_contents v i a Hwf ltac:(lia) Hat) in Hget.
    injection Hget as <-.
    rewrite (set_shell_same w v Hv). unfold printf.
    rewrite int_expr_ok
      by (pose proof (wf_size_int v Hwf); unfold INT_MIN, INT_MAX in *; lia).
    rewrite (IH fuel (i + 1) (add_output _ w) v Hv Hwf ltac:(lia)).
    + cbn [input output strtok_saved add_output set_shell listed_from].
      now rewrite <- app_assoc.
    + pose proof (drop_S _ _ _ Hat) as Hnext. rewrite Hdrop in Hnext.
      injection Hnext as Hnext.
      replace (Z.to_nat (i + 1)) with (S (Z.to_nat i)) by lia.
      now rewrite <- Hnext.
    + cbn [length] in Hfuel. lia.
Qed.

(** X19.  On an initialised shell whose vector holds the handles [l], the
    lines [ls], [dump] and [print] print the opening, then one handle per
    [printf] in index order (the first with format [%s], the others with
    [, %s]), then the closing, and the line [size] prints the number of
    handles; the vector is left as it is. *)
Theorem run_cmd_lists fuel w v l :
  shell w = Some v -> wf v -> contents v = Some <$> l ->
  (length l < fuel)%nat ->
  let listing :=
    Continues tt
      (World (input w)
             (output w ++ [Printf "    v = [" []] ++ listed_from 0 l
              ++ [Printf ("]" +:+ nl) []])
             EmptyString (Some v)) in
  run_cmd strtol fuel "ls" w = listing
  /\ run_cmd strtol fuel "dump" w = listing
  /\ run_cmd strtol fuel "print" w = listing
  /\ run_cmd strtol fuel "size" w
     = Continues tt
         (World (input w)
                (output w
                 ++ [Printf ("    |v| = %d" +:+ nl) [ArgInt (Z.of_nat (length l))]])
                EmptyString (Some v)).
Proof.
  intros Hv Hwf Hl Hfuel listing.
  assert (Hlist : forall cmd,
            (ok ← parse cmd;
             if negb ok then mret tt else
             there ← ensure_exists;
             if negb there then mret tt else
             printf "    v = ["%string [];;
             ls_loop fuel 0;;
             printf ("]" +:+ nl)%string [])
              (set_saved EmptyString w) = listing).
  { intros cmd. unfold mbind, IO_bind.
    rewrite (parse_at_end cmd) by reflexivity.
    cbn [negb]. unfold ensure_exists. cbn [shell set_saved]. rewrite Hv.
    cbn [negb]. unfold printf at 1.
    rewrite (ls_loop_prints l fuel 0 _ v) by (assumption || reflexivity || lia).
    unfold printf, listing, add_output, set_saved.
    cbn [input output strtok_saved shell].
    now rewrite <- !app_assoc. }
  repeat apply conj.
  - pick_command "ls"%string (Some "ls"%string, EmptyString). apply Hlist.
  - pick_command "dump"%string (Some "dump"%string, EmptyString). apply Hlist.
  - pick_command "print"%string (Some "print"%string, EmptyString). apply Hlist.
  - pick_command "size"%string (Some "size"%string, EmptyString).
    unfold mbind, IO_bind.
    rewrite (parse_at_end "size") by reflexivity.
    cbn [negb]. unfold ensure_exists. cbn [shell set_saved]. rewrite Hv.
    cbn [negb]. rewrite (call_size _ v) by reflexivity.
    pose proof (f_equal length Hl) as Hcount.
    rewrite (length_contents v Hwf), length_fmap in Hcount.
    pose proof (wf_size_int v Hwf).
    replace (Z.of_nat (length l)) with (size v) by lia. reflexivity.
Qed.



Lemma parse_more cmd t w :
  strtok_saved w = t -> is_word t = true ->
  parse cmd w
  = Continues false
      (World (input w) (output w ++ [Printf usage [ArgStr cmd]]) EmptyString
             (shell w)).
Proof.
  intros Hsaved Hword. unfold parse, mbind, IO_bind, strtok.
  now rewrite Hsaved, (scan_last t Hword).
Qed.

Ltac complain lemma :=
  unfold mbind, IO_bind; rewrite lemma by (assumption || reflexivity);
  reflexivity.

(** X21.  A command that takes no argument does nothing but print its usage
    line when a further word follows it: [exit now] does not exit, [init x]
    does not reset the vector, [pop x] removes nothing.  This holds whether
    or not there is a vector. *)
Theorem run_cmd_wants_no_argument fuel w cmd t :
  In cmd ["help"; "exit"; "quit"; "q"; "init"; "size"; "ls"; "dump"; "print";
          "pop"]%string ->
  is_word t = true ->
  run_cmd strtol fuel (cmd +:+ String space t) w
  = Continues tt
      (World (input w) (output w ++ [Printf usage [ArgStr cmd]]) EmptyString
             (shell w)).
Proof.
  intros Hcmd Ht. cbn [In] in Hcmd.
  repeat (destruct Hcmd as [<- | Hcmd]); [.. | contradiction].
  - pick_command ("help" +:+ String space t)%string (Some "help"%string, t).
    complain (parse_more "help" t).
  - pick_command ("exit" +:+ String space t)%string (Some "exit"%string, t).
    complain (parse_more "exit" t).
  - pick_command ("quit" +:+ String space t)%string (Some "quit"%string, t).
    complain (parse_more "quit" t).
  - pick_command ("q" +:+ String space t)%string (Some "q"%string, t).
    complain (parse_more "q" t).
  - pick_command ("init" +:+ String space t)%string (Some "init"%string, t).
    complain (parse_more "init" t).
  - pick_command ("size" +:+ String space t)%string (Some "size"%string, t).
    complain (parse_more "size" t).
  - pick_command ("ls" +:+ String space t)%string (Some "ls"%string, t).
    complain (parse_more "ls" t).
  - pick_command ("dump" +:+ String space t)%string (Some "dump"%string, t).
    complain (parse_more "dump" t).
  - pick_command ("print" +:+ String space t)%string (Some "print"%string, t).
    complain (parse_more "print" t).
  - pick_command ("pop" +:+ String space t)%string (Some "pop"%string, t).
    complain (parse_more "pop" t).
Qed.

Lemma parse_i_none cmd w :
  strtok_saved w = EmptyString ->
  parse_i strtol cmd w
  = Continues None
      (World (input w) (output w ++ [Printf usage_i [ArgStr cmd]]) EmptyString
             (shell w)).
Proof.
  intros Hsaved. unfold parse_i, mbind, IO_bind, strtok. now rewrite Hsaved.
Qed.

Lemma parse_i_garbage cmd t w :
  strtok_saved w = t -> is_word t = true ->
  snd (strtol t) <> EmptyString ->
  parse_i strtol cmd w
  = Continues None
      (World (input w) (output w ++ [Printf usage_i [ArgStr cmd]]) EmptyString
             (shell w)).
Proof.
  intros Hsaved Hword Hrest. unfold parse_i, mbind, IO_bind, strtok.
  rewrite Hsaved, (scan_last t Hword). cbn [fst snd].
  now rewrite (proj2 (String.eqb_neq _ _) Hrest).
Qed.

Lemma parse_i_more cmd t more w :
  strtok_saved w = t +:+ String space more ->
  is_word t = true -> is_word more = true ->
  snd (strtol t) = EmptyString ->
  parse_i strtol cmd w
  = Continues None
      (World (input w) (output w ++ [Printf usage_i [ArgStr cmd]]) EmptyString
             (shell w)).
Proof.
  intros Hsaved Ht Hmore Hall. unfold parse_i, mbind, IO_bind, strtok.
  rewrite Hsaved, (scan_next t more Ht). cbn [fst snd strtok_saved set_saved].
  rewrite Hall. cbn [String.eqb negb strtok_saved set_saved].
  now rewrite (scan_last more Hmore).
Qed.

Lemma parse_v_none cmd w :
  strtok_saved w = EmptyString ->
  parse_v cmd w
  = Continues None
      (World (input w) (output w ++ [Printf usage_v [ArgStr cmd]]) EmptyString
             (shell w)).
Proof.
  intros Hsaved. unfold parse_v, mbind, IO_bind, strtok. now rewrite Hsaved.
Qed.

Lemma parse_v_more cmd t more w :
  strtok_saved w = t +:+ String space more ->
  is_word t = true -> is_word more = true ->
  parse_v cmd w
  = Continues None
      (World (input w) (output w ++ [Printf usage_v [ArgStr cmd]]) EmptyString
             (shell w)).
Proof.
  intros Hsaved Ht Hmore. unfold parse_v, mbind, IO_bind, strtok.
  rewrite Hsaved, (scan_next t more Ht). cbn [fst snd strtok_saved set_saved].
  now rewrite (scan_last more Hmore).
Qed.

Lemma parse_iv_none cmd w :
  strtok_saved w = EmptyString ->
  parse_iv strtol cmd w
  = Continues None
      (World (input w) (output w ++ [Printf usage_iv [ArgStr cmd]]) EmptyString
             (shell w)).
Proof.
  intros Hsaved. unfold parse_iv, mbind, IO_bind, strtok. now rewrite Hsaved.
Qed.

Lemma parse_iv_one cmd t w :
  strtok_saved w = t -> is_word t = true ->
  parse_iv strtol cmd w
  = Continues None
      (World (input w) (output w ++ [Printf usage_iv [ArgStr cmd]]) EmptyString
             (shell w)).
Proof.
  intros Hsaved Hword. unfold parse_iv, mbind, IO_bind, strtok.
  now rewrite Hsaved, (scan_last t Hword).
Qed.

Lemma parse_iv_garbage cmd t value w :
  strtok_saved w = t +:+ String space value ->
  is_word t = true -> is_word value = true ->
  snd (strtol t) <> EmptyString ->
  parse_iv strtol cmd w
  = Continues None
      (World (input w) (output w ++ [Printf usage_iv [ArgStr cmd]]) EmptyString
             (shell w)).
Proof.
  intros Hsaved Ht Hvalue Hrest. unfold parse_iv, mbind, IO_bind, strtok.
  rewrite Hsaved, (scan_next t value Ht). cbn [fst snd strtok_saved set_saved].
  rewrite (scan_last value Hvalue). cbn [fst snd].
  now rewrite (proj2 (String.eqb_neq _ _) Hrest).
Qed.

(** X22.  A command whose arguments are missing or malformed does nothing but
    print its usage line, whether or not there is a vector: [get] and
    [remove] without an index, with an index [strtol] does not convert to
    its end, or with a further word after the index; [set] and [insert]
    without a value or with such an index; [push] without a value or with two
    words. *)
Theorem run_cmd_usage fuel w t more :
  is_word t = true -> is_word more = true ->
  let complains (fmt cmd : string) :=
    Continues tt
      (World (input w) (output w ++ [Printf fmt [ArgStr cmd]]) EmptyString
             (shell w)) in
  (run_cmd strtol fuel "get" w = complains usage_i "get"%string
   /\ run_cmd strtol fuel "remove" w = complains usage_i "remove"%string
   /\ run_cmd strtol fuel "set" w = complains usage_iv "set"%string
   /\ run_cmd strtol fuel "insert" w = complains usage_iv "insert"%string
   /\ run_cmd strtol fuel "push" w = complains usage_v "push"%string)
  /\ (run_cmd strtol fuel ("set " +:+ t) w = complains usage_iv "set"%string
      /\ run_cmd strtol fuel ("insert " +:+ t) w
         = complains usage_iv "insert"%string
      /\ run_cmd strtol fuel ("push " +:+ t +:+ String space more) w
         = complains usage_v "push"%string)
  /\ (snd (strtol t) <> EmptyString ->
      run_cmd strtol fuel ("get " +:+ t) w = complains usage_i "get"%string
      /\ run_cmd strtol fuel ("remove " +:+ t) w
         = complains usage_i "remove"%string
      /\ run_cmd strtol fuel ("set " +:+ t +:+ String space more) w
         = complains usage_iv "set"%string
      /\ run_cmd strtol fuel ("insert " +:+ t +:+ String space more) w
         = complains usage_iv "insert"%string)
  /\ (snd (strtol t) = EmptyString ->
      run_cmd strtol fuel ("get " +:+ t +:+ String space more) w
      = complains usage_i "get"%string
      /\ run_cmd strtol fuel ("remove " +:+ t +:+ String space more) w
         = complains usage_i "remove"%string).
Proof.
  intros Ht Hmore complains.
  split; [repeat apply conj | split; [repeat apply conj | split]].
  - pick_command "get"%string (Some "get"%string, EmptyString).
    complain (parse_i_none "get").
  - pick_command "remove"%string (Some "remove"%string, EmptyString).
    complain (parse_i_none "remove").
  - pick_command "set"%string (Some "set"%string, EmptyString).
    complain (parse_iv_none "set").
  - pick_command "insert"%string (Some "insert"%string, EmptyString).
    complain (parse_iv_none "insert").
  - pick_command "push"%string (Some "push"%string, EmptyString).
    complain (parse_v_none "push").
  - pick_command ("set " +:+ t)%string (Some "set"%string, t).
    complain (parse_iv_one "set" t).
  - pick_command ("insert " +:+ t)%string (Some "insert"%string, t).
    complain (parse_iv_one "insert" t).
  - pick_command ("push " +:+ t +:+ String space more)%string
      (Some "push"%string, t +:+ String space more).
    complain (parse_v_more "push" t more).
  - intros Hrest. repeat apply conj.
    + pick_command ("get " +:+ t)%string (Some "get"%string, t).
      complain (parse_i_garbage "get" t).
    + pick_command ("remove " +:+ t)%string (Some "remove"%string, t).
      complain (parse_i_garbage "remove" t).
    + pick_command ("set " +:+ t +:+ String space more)%string
        (Some "set"%string, t +:+ String space more).
      complain (parse_iv_garbage "set" t more).
    + pick_command ("insert " +:+ t +:+ String space more)%string
        (Some "insert"%string, t +:+ String space more).
      complain (parse_iv_garbage "insert" t more).
  - intros Hall. split.
    + pick_command ("get " +:+ t +:+ String space more)%string
        (Some "get"%string, t +:+ String space more).
      complain (parse_i_more "get" t more).
    + pick_command ("remove " +:+ t +:+ String space more)%string
        (Some "remove"%string, t +:+ String space more).
      complain (parse_i_more "remove" t more).
Qed.

Lemma scan_pad k line : scan (pad k +:+ line) = scan line.
Proof.
  induction k as [| k IH]; [reflexivity|].
  change (pad (S k) +:+ line) with (String space (pad k +:+ line)).
  unfold scan in *. cbn [skip_spaces].
  change (Ascii.eqb space space) with true. cbn iota. exact IH.
Qed.

Lemma scan_blank k : scan (pad k) = (None, EmptyString).
Proof.
  induction k as [| k IH]; [reflexivity|].
  unfold scan in *. cbn [pad skip_spaces].
  change (Ascii.eqb space space) with true. cbn iota. exact IH.
Qed.

(** X23.  Spaces before the command word are skipped; a line of spaces only
    (the empty line included) prints nothing and changes nothing; a line
    whose first word is none of the command words prints the unknown-command
    error and leaves the vector and standard input as they are. *)
Theorem run_cmd_no_command fuel w k line cmd :
  run_cmd strtol fuel (pad k +:+ line) w = run_cmd strtol fuel line w
  /\ run_cmd strtol fuel (pad k) w
     = Continues tt (World (input w) (output w) EmptyString (shell w))
  /\ (fst (scan line) = Some cmd -> ~ In cmd commands ->
      run_cmd strtol fuel line w
      = Continues tt
          (World (input w) (output w ++ [Printf unknown []])
                 (snd (scan line)) (shell w))).
Proof.
  repeat apply conj.
  - unfold run_cmd, mbind, IO_bind, strtok. now rewrite scan_pad.
  - unfold run_cmd, mbind, IO_bind, strtok. now rewrite scan_blank.
  - intros Hcmd Hnot.
    unfold run_cmd. unfold mbind at 1, IO_bind at 1, strtok at 1.
    rewrite Hcmd. unfold same.
    unfold commands in Hnot. cbn [In] in Hnot.
    repeat match goal with
           | |- context [String.eqb cmd ?name] =>
               destruct (String.eqb_spec cmd name) as [-> | _];
               [exfalso; apply Hnot; tauto|]
           end.
    reflexivity.
Qed.

End RunCmd.

(** * The further properties at concrete inputs *)

Lemma insert_footprint_witness :
  wf three /\ 0 <= 1 <= size three /\ fits three
  /\ exists v' log,
       run (vector_insert 1 99) three = Returns tt v' log
       /\ log = (Read <$> seqZ 1 (size three - 1))
                ++ (Write <$> seqZ (1 + 1) (size three - 1)) ++ [Write 1]
       /\ Forall (fun e : access => 1 <= slot_of e < size v') log.
Proof.
  assert (Hi : 0 <= 1 <= size three) by (cbn; lia).
  split; [exact wf_three | split; [exact Hi | split; [exact fits_three |]]].
  exact (insert_footprint three 1 99 wf_three Hi fits_three).
Defined.

Lemma remove_footprint_witness :
  wf three /\ 0 <= 0 < size three
  /\ exists a v' log,
       run (vector_remove 0) three = Returns a v' log
       /\ log = [Read 0] ++ (Read <$> seqZ (0 + 1) (size three - 0 - 1))
                ++ (Write <$> seqZ 0 (size three - 0 - 1))
       /\ Forall (fun e : access => 0 <= slot_of e < size three) log
       /\ elems v' !! Z.to_nat (size three - 1)
          = elems three !! Z.to_nat (size three - 1).
Proof.
  assert (Hi : 0 <= 0 < size three) by (cbn; lia).
  split; [exact wf_three | split; [exact Hi |]].
  exact (remove_footprint three 0 wf_three Hi).
Defined.

Lemma remove_insert_restores_witness :
  wf three /\ 0 <= 1 < size three
  /\ exists log,
       run (a ← vector_remove 1; vector_insert 1 a) three = Returns tt three log.
Proof.
  assert (Hi : 0 <= 1 < size three) by (cbn; lia).
  split; [exact wf_three | split; [exact Hi |]].
  exact (remove_insert_restores three 1 wf_three Hi).
Defined.



Lemma set_twice_witness :
  wf three /\ 0 <= 0 < size three /\ 0 <= 1 < size three
  /\ (exists v',
        run (vector_set 0 7;; vector_set 0 8) three = Returns tt v' [Write 0; Write 0]
        /\ run (vector_set 0 8) three = Returns tt v' [Write 0])
  /\ (0 <> 1 ->
      exists v',
        run (vector_set 0 7;; vector_set 1 8) three = Returns tt v' [Write 0; Write 1]
        /\ run (vector_set 1 8;; vector_set 0 7) three = Returns tt v' [Write 1; Write 0]).
Proof.
  assert (Hi : 0 <= 0 < size three) by (cbn; lia).
  assert (Hj : 0 <= 1 < size three) by (cbn; lia).
  split; [exact wf_three | split; [exact Hi | split; [exact Hj |]]].
  exact (set_twice three 0 1 7 8 wf_three Hi Hj).
Defined.

Lemma insert_out_of_range_witness :
  wf three /\ fits three /\ INT_MIN <= 4 <= INT_MAX /\ ~ (0 <= 4 <= size three)
  /\ run (vector_insert 4 99) three = AssertionFailed [].
Proof.
  assert (Hint : INT_MIN <= 4 <= INT_MAX) by (unfold INT_MIN, INT_MAX; lia).
  assert (Hout : ~ (0 <= 4 <= size three)) by (cbn; lia).
  split; [exact wf_three | split; [exact fits_three | split; [exact Hint |]]].
  split; [exact Hout |].
  exact (insert_out_of_range three 4 99 wf_three fits_three Hint Hout).
Defined.

Lemma forallb_replicate {T : Type} (f : T -> bool) (x : T) (n : nat) :
  f x = true -> forallb f (replicate n x) = true.
Proof.
  intros Hx. induction n as [| n IH]; [reflexivity|].
  cbn [replicate forallb]. now rewrite Hx, IH.
Qed.

Lemma wf_at_limit : wf at_limit.
Proof.
  constructor; unfold at_limit, allocated, contents, INT_MAX;
    cbn [size capacity elems].
  - lia.
  - lia.
  - rewrite length_replicate. lia.
  - rewrite take_replicate. now apply forallb_replicate.
Qed.

Lemma insert_beyond_limit_witness :
  wf at_limit /\ size at_limit = capacity at_limit
  /\ INT_MAX < capacity at_limit * 2
  /\ run (vector_insert 0 7) at_limit = Undefined
  /\ run (vector_push 7) at_limit = Undefined.
Proof.
  assert (Hfull : size at_limit = capacity at_limit) by reflexivity.
  assert (Hbig : INT_MAX < capacity at_limit * 2)
    by (unfold at_limit, INT_MAX; cbn [capacity]; lia).
  split; [exact wf_at_limit | split; [exact Hfull | split; [exact Hbig |]]].
  exact (insert_beyond_limit at_limit Hfull Hbig 0 7).
Defined.

Section ShellWitnesses.

Import Shell.

Lemma wf_abc : wf abc.
Proof. apply wfb_sound. reflexivity. Defined.

Lemma fits_abc : fits abc.
Proof. unfold fits, abc. cbn. lia. Defined.

Lemma read_cmd_accepts_line_witness :
  eof (input (start (chars ("get 1" +:+ nl +:+ "ls")))) = false
  /\ (length (chars "get 1") <= 80)%nat
  /\ exists dest',
       read_cmd 10 blank (start (chars ("get 1" +:+ nl +:+ "ls")))
       = Continues (true, dest')
           (World (Stdin (chars "ls") false) [Printf prompt []] EmptyString None)
       /\ cstring dest' = Some "get 1"%string
       /\ length dest' = 81%nat.
Proof.
  split; [reflexivity|]. split; [cbn; lia|].
  refine (read_cmd_accepts_line 10 blank
            (start (chars ("get 1" +:+ nl +:+ "ls")))
            (chars "get 1") newline (chars "ls")
            eq_refl eq_refl _ eq_refl _ eq_refl _).
  - repeat constructor.
  - cbn. lia.
  - cbn. lia.
Defined.

Lemma read_cmd_rejects_long_line_witness :
  (80 < length (replicate 81 "a"%char))%nat
  /\ read_cmd 101 blank (start (replicate 81 "a"%char ++ newline :: chars "ls"))
     = read_cmd 100 (take 81 (replicate 81 "a"%char))
         (World (Stdin (chars "ls") false)
                ([] ++ [Printf prompt []; Printf too_long []])
                EmptyString None).
Proof.
  split; [cbn; lia|].
  refine (read_cmd_rejects_long_line 100 blank
            (start (replicate 81 "a"%char ++ newline :: chars "ls"))
            (replicate 81 "a"%char) newline (chars "ls")
            eq_refl eq_refl _ eq_refl _ eq_refl _).
  - apply Forall_replicate. reflexivity.
  - cbn. lia.
  - cbn. lia.
Defined.

Lemma read_cmd_returns_true_witness :
  eof (input (start (chars ("q" +:+ nl)))) = false /\ length blank = 81%nat
  /\ match read_cmd 5 blank (start (chars ("q" +:+ nl))) with
     | Continues result w' =>
         fst result = true
         /\ eof (input w') = false
         /\ length (snd result) = 81%nat
         /\ shell w' = shell (start (chars ("q" +:+ nl)))
         /\ exists before line t,
              pending (input (start (chars ("q" +:+ nl))))
              = before ++ line ++ t :: pending (input w')
              /\ (length line <= 80)%nat
              /\ Forall (fun c => ends_line c = false) line
              /\ ends_line t = true
              /\ cstring (snd result) = Some (String.string_of_list_ascii line)
     | OutOfFuel =>
         (length (pending (input (start (chars ("q" +:+ nl))))) + 1 < 5)%nat ->
         forall fuel', read_cmd fuel' blank (start (chars ("q" +:+ nl))) = OutOfFuel
     | Exits _ _ | Aborts _ | Faults => False
     end.
Proof.
  split; [reflexivity|]. split; [reflexivity|].
  exact (read_cmd_returns_true 5 blank (start (chars ("q" +:+ nl)))
           eq_refl eq_refl).
Defined.

Lemma read_cmd_hangs_at_end_of_input_witness :
  eof (input (start (chars "get 1"))) = false /\ length blank = 81%nat
  /\ Forall (fun c => ends_line c = false) (pending (input (start (chars "get 1"))))
  /\ forall fuel, read_cmd fuel blank (start (chars "get 1")) = OutOfFuel.
Proof.
  assert (Hnone : Forall (fun c => ends_line c = false)
                    (pending (input (start (chars "get 1")))))
    by (repeat constructor).
  split; [reflexivity|]. split; [reflexivity|]. split; [exact Hnone|].
  exact (read_cmd_hangs_at_end_of_input blank (start (chars "get 1"))
           eq_refl eq_refl Hnone).
Defined.

Lemma tidy_abc_world : tidy (Stdin [] false) 3 abc_world.
Proof. split; [reflexivity|]. split; [exact wf_abc | cbn; lia]. Defined.

Lemma run_cmd_is_safe_witness :
  0 <= 3 < 1073741824 /\ tidy (Stdin [] false) 3 abc_world
  /\ match run_cmd strtol_base0 5 "insert 1 x" abc_world with
     | Continues _ w' => tidy (Stdin [] false) (3 + 1) w'
     | Exits code _ => code = 0
     | OutOfFuel => Z.of_nat 5 <= 3
     | Faults => fst (scan "insert 1 x") = Some "init"%string
     | Aborts _ => False
     end.
Proof.
  assert (Hn : 0 <= 3 < 1073741824) by lia.
  split; [exact Hn | split; [exact tidy_abc_world |]].
  exact (run_cmd_is_safe strtol_base0 5 "insert 1 x" abc_world
           (Stdin [] false) 3 Hn tidy_abc_world).
Defined.

Lemma run_cmd_rejects_witness :
  shell abc_world = Some abc /\ wf abc
  /\ is_word "7" = true /\ snd (strtol_base0 "7") = EmptyString
  /\ ~ (0 <= 7 < size abc)
  /\ run_cmd strtol_base0 5 "get 7" abc_world
     = Continues tt (World (Stdin [] false) [Printf out_of_bounds []]
                           EmptyString (Some abc))
  /\ run_cmd strtol_base0 5 "insert 7 x" abc_world
     = Continues tt (World (Stdin [] false) [Printf out_of_bounds []]
                           EmptyString (Some abc)).
Proof.
  assert (Hout : ~ (0 <= 7 < size abc)) by (cbn; lia).
  assert (Hout' : ~ (0 <= 7 <= size abc)) by (cbn; lia).
  split; [reflexivity | split; [exact wf_abc |]].
  split; [reflexivity | split; [reflexivity | split; [exact Hout |]]].
  pose proof (run_cmd_rejects strtol_base0 5 abc_world abc "7" "x"
                eq_refl wf_abc eq_refl eq_refl eq_refl) as [Hidx [Hins _]].
  split; [exact (proj1 (Hidx Hout)) | exact (Hins Hout')].
Defined.

Lemma run_cmd_get_set_witness :
  shell abc_world = Some abc /\ wf abc
  /\ is_word "1" = true /\ snd (strtol_base0 "1") = EmptyString
  /\ 0 <= 1 < size abc
  /\ exists a,
       get_at abc 1 = Some a
       /\ run_cmd strtol_base0 5 "get 1" abc_world
          = Continues tt
              (World (Stdin [] false) [Printf shown [ArgInt 1; ArgStr a]]
                     EmptyString (Some abc)).
Proof.
  assert (Hi : 0 <= 1 < size abc) by (cbn; lia).
  split; [reflexivity | split; [exact wf_abc |]].
  split; [reflexivity | split; [reflexivity | split; [exact Hi |]]].
  exact (proj1 (run_cmd_get_set strtol_base0 5 abc_world abc "1" "x"
                  eq_refl wf_abc eq_refl eq_refl eq_refl Hi)).
Defined.

Lemma run_cmd_insert_remove_witness :
  shell abc_world = Some abc /\ wf abc /\ fits abc
  /\ is_word "1" = true /\ is_word "x" = true
  /\ snd (strtol_base0 "1") = EmptyString
  /\ 0 <= 1 <= size abc
  /\ exists v' log,
       run (vector_insert 1 "x"%string) abc = Returns tt v' log
       /\ run_cmd strtol_base0 5 "insert 1 x" abc_world
          = Continues tt
              (World (Stdin [] false)
                     [Printf shown [ArgInt 1; ArgStr "x"]]
                     EmptyString (Some v')).
Proof.
  assert (Hi : 0 <= 1 <= size abc) by (cbn; lia).
  split; [reflexivity | split; [exact wf_abc | split; [exact fits_abc |]]].
  split; [reflexivity | split; [reflexivity | split; [reflexivity |]]].
  split; [exact Hi |].
  exact (proj1 (run_cmd_insert_remove strtol_base0 5 abc_world abc "1" "x"
                  eq_refl wf_abc fits_abc eq_refl eq_refl eq_refl) Hi).
Defined.

Lemma run_cmd_before_init_witness :
  shell (start []) = None
  /\ match run_cmd strtol_base0 5 "push a" (start []) with
     | Continues _ w' => input w' = input (start []) /\ shell w' = None
     | Exits code _ => code = 0
     | Faults => fst (scan "push a") = Some "init"%string
     | OutOfFuel | Aborts _ => False
     end.
Proof.
  split; [reflexivity|].
  exact (run_cmd_before_init strtol_base0 5 "push a" (start []) eq_refl).
Defined.

Lemma main_only_exits_witness :
  length blank = 81%nat
  /\ match main strtol_base0 100 blank (start (chars session)) with
     | Exits code _ => code = 0
     | OutOfFuel => True
     | Faults =>
         exists before after, chars session = before ++ chars "init" ++ after
     | Continues _ _ | Aborts _ => False
     end.
Proof.
  split; [reflexivity|].
  exact (main_only_exits strtol_base0 100 blank (chars session) eq_refl).
Defined.

Lemma run_cmd_lists_witness :
  shell abc_world = Some abc /\ wf abc
  /\ contents abc = Some <$> ["a"; "b"; "c"]%string
  /\ (length ["a"; "b"; "c"]%string < 5)%nat
  /\ run_cmd strtol_base0 5 "ls" abc_world
     = Continues tt
         (World (Stdin [] false)
                [ Printf "    v = [" []; Printf "%s" [ArgStr "a"];
                  Printf ", %s" [ArgStr "b"]; Printf ", %s" [ArgStr "c"];
                  Printf ("]" +:+ nl) [] ]
                EmptyString (Some abc)).
Proof.
  assert (Hfuel : (length ["a"; "b"; "c"]%string < 5)%nat) by (cbn; lia).
  split; [reflexivity | split; [exact wf_abc |]].
  split; [reflexivity | split; [exact Hfuel |]].
  exact (proj1 (run_cmd_lists strtol_base0 5 abc_world abc
                  ["a"; "b"; "c"]%string eq_refl wf_abc eq_refl Hfuel)).
Defined.


Lemma run_cmd_wants_no_argument_witness :
  In "exit"%string
     ["help"; "exit"; "quit"; "q"; "init"; "size"; "ls"; "dump"; "print";
      "pop"]%string
  /\ is_word "now" = true
  /\ run_cmd strtol_base0 5 "exit now" abc_world
     = Continues tt
         (World (Stdin [] false) [Printf usage [ArgStr "exit"]] EmptyString
                (Some abc)).
Proof.
  assert (Hcmd : In "exit"%string
                   ["help"; "exit"; "quit"; "q"; "init"; "size"; "ls"; "dump";
                    "print"; "pop"]%string)
    by (right; left; reflexivity).
  split; [exact Hcmd | split; [reflexivity |]].
  exact (run_cmd_wants_no_argument strtol_base0 5 abc_world "exit" "now"
           Hcmd eq_refl).
Defined.

Lemma run_cmd_usage_witness :
  is_word "1x" = true /\ is_word "y" = true
  /\ snd (strtol_base0 "1x") <> EmptyString
  /\ run_cmd strtol_base0 5 "get" abc_world
     = Continues tt
         (World (Stdin [] false) [Printf usage_i [ArgStr "get"]] EmptyString
                (Some abc))
  /\ run_cmd strtol_base0 5 "get 1x" abc_world
     = Continues tt
         (World (Stdin [] false) [Printf usage_i [ArgStr "get"]] EmptyString
                (Some abc)).
Proof.
  assert (Hrest : snd (strtol_base0 "1x") <> EmptyString) by discriminate.
  split; [reflexivity | split; [reflexivity | split; [exact Hrest |]]].
  pose proof (run_cmd_usage strtol_base0 5 abc_world "1x" "y" eq_refl eq_refl)
    as [Hnone [_ [Hgarbage _]]].
  split; [exact (proj1 Hnone) | exact (proj1 (Hgarbage Hrest))].
Defined.

Lemma run_cmd_no_command_witness :
  fst (scan "hello there") = Some "hello"%string
  /\ ~ In "hello"%string commands
  /\ run_cmd strtol_base0 5 "hello there" abc_world
     = Continues tt
         (World (Stdin [] false) [Printf unknown []] "there" (Some abc)).
Proof.
  assert (Hnot : ~ In "hello"%string commands).
  { unfold commands. cbn [In]. intros H.
    repeat (destruct H as [H | H]; [discriminate H|]). exact H. }
  split; [reflexivity | split; [exact Hnot |]].
  exact (proj2 (proj2 (run_cmd_no_command strtol_base0 5 abc_world 0
                         "hello there" "hello")) eq_refl Hnot).
Defined.

(** A session on a shell that gets no vector ends through its [exit]
    command. *)
Example idle_session_exits :
  match main strtol_base0 100 blank (start (chars idle_session)) with
  | Exits code w' => code = 0 /\ shell w' = None /\ pending (input w') = []
  | _ => False
  end.
Proof. vm_compute. repeat split. Qed.

(** The session that starts with [init] goes no further than
    [vector_create]. *)
Example session_faults :
  main strtol_base0 100 blank (start (chars session)) = Faults.
Proof. vm_compute. reflexivity. Qed.

(** Without an [exit] command a session never ends. *)
Example session_hangs :
  main strtol_base0 1000 blank (start (chars ("help" +:+ nl +:+ "size" +:+ nl)))
  = OutOfFuel.
Proof. vm_compute. reflexivity. Qed.

End ShellWitnesses.
